(** * RedInk product-photo editor: edit session, mask surface, edit view, uploader

    A shallow embedding of the TypeScript/Vue sources of the product photo
    generator front end, together with a model of the server-side edit
    session whose implementation (backend/services/image_edit.py) is not
    part of the sources.

    Conventions.
    - A JavaScript string is the list of its UTF-16 code units.
    - A JavaScript number that holds a pixel count or a byte size is a [Z];
      a coordinate of a pointer or of a drawing call is a [Q]. A number the
      code computes by division or multiplication (the ratios and the
      fitted display size of setupCanvases, the scale factor, the progress
      percentage) is a binary64 value, [JsNumber.number], rounded as IEEE
      754 prescribes.
    - An awaited call is a function of the reply the environment gives: the
      handler takes the reply as an argument and returns the next state
      together with the list of effects it performed, in program order.
    - A Vue [ref] is a record field; a template ref that may be [null] is an
      [option].  *)

From Stdlib Require Import ZArith NArith QArith Qround Qfield List Bool Lia String Ascii.
From Stdlib Require Import Permutation Qpower Lqa.
Import ListNotations.

Set Implicit Arguments.

#[local] Open Scope Z_scope.

(* ===================================================================== *)
(** ** JavaScript strings *)
(* ===================================================================== *)

Module JsString.

Definition jsstring : Type := list N.

(** The code units of an ASCII literal. *)
Fixpoint lit (s : string) : jsstring :=
  match s with
  | EmptyString => []
  | String c s' => N_of_ascii c :: lit s'
  end.

(** ECMAScript WhiteSpace and LineTerminator code points, the characters
    [String.prototype.trim] strips. All of them lie in the basic plane. *)
Definition isWhiteSpace (c : N) : bool :=
  (existsb (N.eqb c)
     [0x09; 0x0A; 0x0B; 0x0C; 0x0D; 0x20; 0xA0; 0x1680;
      0x2028; 0x2029; 0x202F; 0x205F; 0x3000; 0xFEFF]%N
   || ((0x2000 <=? c) && (c <=? 0x200A))%N)%bool.

Fixpoint trimStart (s : jsstring) : jsstring :=
  match s with
  | [] => []
  | c :: s' => if isWhiteSpace c then trimStart s' else s
  end.

Definition trimEnd (s : jsstring) : jsstring := rev (trimStart (rev s)).

Definition trim (s : jsstring) : jsstring := trimEnd (trimStart s).

(** [a || b] on an optional string: [undefined] and the empty string are
    falsy. *)
Definition or_default (a : option jsstring) (b : jsstring) : jsstring :=
  match a with
  | Some (c :: s) => c :: s
  | _ => b
  end.

(** [a === b] on strings. *)
Definition eqb (a b : jsstring) : bool :=
  if list_eq_dec N.eq_dec a b then true else false.

(** Array.prototype.includes on an array of strings. *)
Definition includes (l : list jsstring) (s : jsstring) : bool :=
  existsb (eqb s) l.

(** Truthiness of a string. *)
Definition truthy (s : jsstring) : bool :=
  match s with [] => false | _ :: _ => true end.

End JsString.

(* ===================================================================== *)
(** ** JavaScript numbers *)
(* ===================================================================== *)

Module JsNumber.

(** A Number value: an IEEE 754 binary64. A finite value is the rational it
    stands for; the model has one zero, and the code modelled here never
    divides by a negative zero. *)
Inductive number : Type :=
| Finite (q : Q)
| PosInfinity
| NegInfinity
| NaN.

Definition pow2 (k : Z) : Q := (2 ^ k)%Q.

(** The integer part of the binary logarithm of a positive rational. *)
Definition log2floor (a : Q) : Z :=
  let k := Z.log2 (Qnum a) - Z.log2 (Zpos (Qden a)) in
  if Qle_bool (pow2 k) a then k else k - 1.

(** The nearest integer, a tie going to the even one. *)
Definition roundHalfEven (q : Q) : Z :=
  let f := Qfloor q in
  match (q - inject_Z f ?= 1 # 2)%Q with
  | Lt => f
  | Gt => f + 1
  | Eq => if Z.even f then f else f + 1
  end.

(** The binary64 nearest to a positive rational, ties to even: 53
    significant bits, the unit in the last place being 2^(e - 52) where
    2^e <= a < 2^(e + 1), and 2^-1074 for the subnormal numbers below
    2^-1022. The result may be 2^1024, which [round64] turns into an
    infinity. *)
Definition nearest (a : Q) : Q :=
  let e := Z.max (log2floor a) (-1022) in
  let ulp := pow2 (e - 52) in
  Qred (inject_Z (roundHalfEven (a / ulp)) * ulp).

(** The Number value of a real number: round to nearest, ties to even,
    overflow to the infinities. *)
Definition round64 (x : Q) : number :=
  match (x ?= 0)%Q with
  | Eq => Finite 0
  | Gt =>
      let r := nearest (Qred x) in
      if Qle_bool (pow2 1024) r then PosInfinity else Finite r
  | Lt =>
      let r := nearest (Qred (- x)) in
      if Qle_bool (pow2 1024) r then NegInfinity else Finite (- r)
  end.

(** The Number value of an integer of the DOM or of a JSON document; it is
    exact for the integers up to 2^53, which covers [long] and
    [unsigned long]. *)
Definition ofInt (n : Z) : number := Finite (inject_Z n).

Definition isZero (q : Q) : bool := Qeq_bool q 0.
Definition isNegative (q : Q) : bool := negb (Qle_bool 0 q).

(** [a / b] *)
Definition div (a b : number) : number :=
  match a, b with
  | NaN, _ | _, NaN => NaN
  | Finite x, Finite y =>
      if isZero y then
        if isZero x then NaN
        else if isNegative x then NegInfinity else PosInfinity
      else round64 (x / y)
  | Finite _, _ => Finite 0
  | PosInfinity, Finite y => if isNegative y then NegInfinity else PosInfinity
  | NegInfinity, Finite y => if isNegative y then PosInfinity else NegInfinity
  | _, _ => NaN
  end.

(** [a * b] *)
Definition mul (a b : number) : number :=
  match a, b with
  | NaN, _ | _, NaN => NaN
  | Finite x, Finite y => round64 (x * y)
  | Finite x, PosInfinity | PosInfinity, Finite x =>
      if isZero x then NaN
      else if isNegative x then NegInfinity else PosInfinity
  | Finite x, NegInfinity | NegInfinity, Finite x =>
      if isZero x then NaN
      else if isNegative x then PosInfinity else NegInfinity
  | PosInfinity, PosInfinity | NegInfinity, NegInfinity => PosInfinity
  | _, _ => NegInfinity
  end.

(** [a > b]: false when an operand is NaN. *)
Definition gt (a b : number) : bool :=
  match a, b with
  | NaN, _ | _, NaN => false
  | Finite x, Finite y => negb (Qle_bool x y)
  | PosInfinity, PosInfinity => false
  | PosInfinity, _ => true
  | NegInfinity, _ => false
  | Finite _, NegInfinity => true
  | Finite _, PosInfinity => false
  end.

(** Math.round: the nearest integer, a tie going up. *)
Definition round (a : number) : number :=
  match a with
  | Finite q => Finite (inject_Z (Qfloor (q + (1 # 2))))
  | _ => a
  end.

Definition isFinite (a : number) : bool :=
  match a with Finite _ => true | _ => false end.

(** 2^-53, the largest relative error of rounding in the normal range. *)
Definition u : Q := 1 # 9007199254740992.

(** [r] is [a] up to one rounding: a relative error of at most 2^-53. *)
Definition near (a r : Q) : Prop := (a * (1 - u) <= r <= a * (1 + u))%Q.

(** The same up to three roundings. *)
Definition near3 (a r : Q) : Prop :=
  (a * (1 - 3 * u) <= r <= a * (1 + 3 * u))%Q.

(** [2^-k <= q <= 2^k] *)
Definition within (k : Z) (q : Q) : Prop := (pow2 (- k) <= q <= pow2 k)%Q.

End JsNumber.

(* ===================================================================== *)
(** ** The edit session state machine *)
(* ===================================================================== *)

Module EditSessionMachine.

Section Machine.

Variable Image : Type.

(** Modelled from the spec: the capacity bound of the history, 10 entries in
    total (the design notes name it MAX_HISTORY_STEPS; the service class
    backend/services/image_edit.py itself is missing from the sources). *)
Definition MAX_HISTORY_STEPS : Z := 10.

(** Modelled from the spec: the EditSession record of the data model. The
    server-side session class is missing from the sources; only the shape of
    its summary ([can_undo], [can_redo], [history_count], [history_index])
    reaches the client. *)
Record EditSession : Type := mkEditSession {
  id : string;
  sourceImage : Image;
  history : list Image;
  cursor : Z;
  createdAt : string
}.

(** Modelled from the spec: the error taxonomy of the session operations. *)
Inductive Error : Type :=
| InvalidInput
| NotFound
| Expired
| SessionClosed
| IllegalTransition
| EditCapabilityFailure
| ConcurrentOperationRejected.

Inductive Result (A : Type) : Type :=
| Ok (a : A)
| Err (e : Error).

Arguments Err {A} e.

Definition len (s : EditSession) : Z := Z.of_nat (List.length (history s)).

(** Modelled from the spec: [canUndo = cursor > 0]. *)
Definition canUndo (s : EditSession) : bool := 0 <? cursor s.

(** Modelled from the spec: [canRedo = cursor < len(history) - 1]. *)
Definition canRedo (s : EditSession) : bool := cursor s <? len s - 1.

(** Modelled from the spec: [currentImage()] is a pure read of
    [history[cursor]]. *)
Definition currentImage (s : EditSession) : option Image :=
  if cursor s <? 0 then None else nth_error (history s) (Z.to_nat (cursor s)).

(** Modelled from the spec: the Session Directory creates a session with
    [history = [sourceImage]] and [cursor = 0]. *)
Definition create (sid : string) (src : Image) (now : string) : EditSession :=
  {| id := sid; sourceImage := src; history := [src]; cursor := 0;
     createdAt := now |}.

(** Modelled from the spec: [apply(editedImage)] truncates the history to
    [[0..cursor]], appends the image and moves the cursor to the last index;
    when that exceeds the capacity the oldest entry is evicted and the cursor
    is shifted down by one. *)
Definition apply (img : Image) (s : EditSession) : EditSession :=
  let kept := firstn (Z.to_nat (cursor s + 1)) (history s) ++ [img] in
  let c := Z.of_nat (List.length kept) - 1 in
  if MAX_HISTORY_STEPS <? Z.of_nat (List.length kept)
  then {| id := id s; sourceImage := sourceImage s;
          history := tl kept; cursor := c - 1; createdAt := createdAt s |}
  else {| id := id s; sourceImage := sourceImage s;
          history := kept; cursor := c; createdAt := createdAt s |}.

Definition moveCursor (d : Z) (s : EditSession) : EditSession :=
  {| id := id s; sourceImage := sourceImage s; history := history s;
     cursor := cursor s + d; createdAt := createdAt s |}.

(** Modelled from the spec: [undo()] requires [canUndo], decrements the
    cursor and returns the now-current image; otherwise it fails with
    [IllegalTransition]. *)
Definition undo (s : EditSession) : Result (EditSession * option Image) :=
  if canUndo s
  then let s' := moveCursor (-1) s in Ok (s', currentImage s')
  else Err IllegalTransition.

(** Modelled from the spec: [redo()] requires [canRedo], increments the
    cursor and returns the now-current image; otherwise it fails with
    [IllegalTransition]. *)
Definition redo (s : EditSession) : Result (EditSession * option Image) :=
  if canRedo s
  then let s' := moveCursor 1 s in Ok (s', currentImage s')
  else Err IllegalTransition.

(** The history and cursor invariant of the data model. *)
Definition invariant (s : EditSession) : Prop :=
  0 <= cursor s < len s /\ 1 <= len s /\ len s <= MAX_HISTORY_STEPS.

(** The states an open session can reach: creation, then any number of
    applies and of successful undos and redos. A failed undo or redo leaves
    the session as it was. *)
Inductive reachable : EditSession -> Prop :=
| reach_create sid src now : reachable (create sid src now)
| reach_apply img s : reachable s -> reachable (apply img s)
| reach_undo s s' i : reachable s -> undo s = Ok (s', i) -> reachable s'
| reach_redo s s' i : reachable s -> redo s = Ok (s', i) -> reachable s'.

End Machine.

Arguments Err {A} e.

End EditSessionMachine.

(* ===================================================================== *)
(** ** The browser canvas *)
(* ===================================================================== *)

Module Dom.

Import JsString.

#[local] Set Warnings "-register-all".

(** What has been drawn on a canvas bitmap since it was last reset, oldest
    first. A bitmap with nothing drawn on it is transparent black. *)
Inductive Paint : Type :=
| FillArc (x y r : Q) (fillStyle : jsstring)
    (* beginPath(); arc(x, y, r, 0, 2 * PI); fill()  under 'source-over' *)
| ClearRect (x y w h : Q)
| DrawImage (url : jsstring) (dx dy dw dh : Q)
| DrawCanvas (srcWidth srcHeight : Z) (src : list Paint)
    (sx sy sw sh dx dy dw dh : Q).

Record Canvas : Type := mkCanvas {
  width : Z;
  height : Z;
  rectLeft : Q;          (* getBoundingClientRect().left *)
  rectTop : Q;           (* getBoundingClientRect().top *)
  bitmap : list Paint
}.

(** document.createElement('canvas'): 300 x 150, detached, blank. *)
Definition createCanvas : Canvas :=
  {| width := 300; height := 150; rectLeft := 0; rectTop := 0; bitmap := [] |}.

(** The integer a canvas dimension keeps of the number assigned to it. *)
Definition toLength (q : Q) : Z := Qfloor q.

(** Assigning [canvas.width] or [canvas.height] resets the bitmap. *)
Definition setWidth (q : Q) (c : Canvas) : Canvas :=
  {| width := toLength q; height := height c; rectLeft := rectLeft c;
     rectTop := rectTop c; bitmap := [] |}.

Definition setHeight (q : Q) (c : Canvas) : Canvas :=
  {| width := width c; height := toLength q; rectLeft := rectLeft c;
     rectTop := rectTop c; bitmap := [] |}.

Definition paint (p : Paint) (c : Canvas) : Canvas :=
  {| width := width c; height := height c; rectLeft := rectLeft c;
     rectTop := rectTop c; bitmap := bitmap c ++ [p] |}.

(** Does the rectangle contain every pixel of the canvas? *)
Definition covers (x y w h : Q) (c : Canvas) : bool :=
  Qle_bool x 0 && Qle_bool y 0
  && Qle_bool (inject_Z (width c)) (x + w)
  && Qle_bool (inject_Z (height c)) (y + h).

(** ctx.clearRect(x, y, w, h): a rectangle over the whole canvas leaves a
    blank bitmap. *)
Definition clearRect (x y w h : Q) (c : Canvas) : Canvas :=
  if covers x y w h c
  then {| width := width c; height := height c; rectLeft := rectLeft c;
          rectTop := rectTop c; bitmap := [] |}
  else paint (ClearRect x y w h) c.

(** canvas.toDataURL('image/png'): the encoding of the bitmap at its size. *)
Inductive DataUrl : Type :=
| PngOf (w h : Z) (pixels : list Paint).

Definition toDataURL (c : Canvas) : DataUrl :=
  PngOf (width c) (height c) (bitmap c).

End Dom.

(* ===================================================================== *)
(** ** ImageEditor.vue (src/unnamed/part_000): the mask authoring surface *)
(* ===================================================================== *)

Module ImageEditor.

Import JsString JsNumber Dom.

Record Props : Type := mkProps {
  imageUrl : jsstring;
  brushSize : Q;
  brushColor : jsstring;
  maskOpacity : Q
}.

(** clientWidth and clientHeight of the element behind canvasContainerRef. *)
Record Container : Type := mkContainer {
  clientWidth : Z;
  clientHeight : Z
}.

Record State : Type := mkState {
  props : Props;
  context2d : bool;      (* does getContext('2d') give a context? *)
  canvasContainerRef : option Container;
  imageCanvasRef : option Canvas;
  maskCanvasRef : option Canvas;
  loading : bool;
  loadError : bool;
  isDrawing : bool;
  hasMask : bool;
  showBrushPreview : bool;
  brushPosition : Q * Q;
  imageWidth : Z;
  imageHeight : Z;
  canvasScale : number
}.

(** What the component sends out: the 'mask-change' event and the console. *)
Inductive Effect : Type :=
| mask_change (hasMaskValue : bool)
| console_error (label : jsstring).

(** The outcome of [img.src = props.imageUrl]: onload with the image's
    natural size, or onerror. *)
Inductive ImageLoad : Type :=
| Loaded (imgWidth imgHeight : Z)
| LoadFailed.

Record PointerEvent : Type := mkPointer {
  clientX : Q;
  clientY : Q
}.

(* Field updates. *)

Definition set_props (p : Props) (s : State) : State :=
  mkState p (context2d s) (canvasContainerRef s) (imageCanvasRef s)
    (maskCanvasRef s) (loading s) (loadError s) (isDrawing s) (hasMask s)
    (showBrushPreview s) (brushPosition s) (imageWidth s) (imageHeight s)
    (canvasScale s).

Definition set_container (c : option Container) (s : State) : State :=
  mkState (props s) (context2d s) c (imageCanvasRef s)
    (maskCanvasRef s) (loading s) (loadError s) (isDrawing s) (hasMask s)
    (showBrushPreview s) (brushPosition s) (imageWidth s) (imageHeight s)
    (canvasScale s).

Definition set_imageCanvas (c : Canvas) (s : State) : State :=
  mkState (props s) (context2d s) (canvasContainerRef s) (Some c)
    (maskCanvasRef s) (loading s) (loadError s) (isDrawing s) (hasMask s)
    (showBrushPreview s) (brushPosition s) (imageWidth s) (imageHeight s)
    (canvasScale s).

Definition set_maskCanvas (c : Canvas) (s : State) : State :=
  mkState (props s) (context2d s) (canvasContainerRef s) (imageCanvasRef s)
    (Some c) (loading s) (loadError s) (isDrawing s) (hasMask s)
    (showBrushPreview s) (brushPosition s) (imageWidth s) (imageHeight s)
    (canvasScale s).

Definition set_loading (b : bool) (s : State) : State :=
  mkState (props s) (context2d s) (canvasContainerRef s) (imageCanvasRef s)
    (maskCanvasRef s) b (loadError s) (isDrawing s) (hasMask s)
    (showBrushPreview s) (brushPosition s) (imageWidth s) (imageHeight s)
    (canvasScale s).

Definition set_loadError (b : bool) (s : State) : State :=
  mkState (props s) (context2d s) (canvasContainerRef s) (imageCanvasRef s)
    (maskCanvasRef s) (loading s) b (isDrawing s) (hasMask s)
    (showBrushPreview s) (brushPosition s) (imageWidth s) (imageHeight s)
    (canvasScale s).

Definition set_isDrawing (b : bool) (s : State) : State :=
  mkState (props s) (context2d s) (canvasContainerRef s) (imageCanvasRef s)
    (maskCanvasRef s) (loading s) (loadError s) b (hasMask s)
    (showBrushPreview s) (brushPosition s) (imageWidth s) (imageHeight s)
    (canvasScale s).

Definition set_hasMask (b : bool) (s : State) : State :=
  mkState (props s) (context2d s) (canvasContainerRef s) (imageCanvasRef s)
    (maskCanvasRef s) (loading s) (loadError s) (isDrawing s) b
    (showBrushPreview s) (brushPosition s) (imageWidth s) (imageHeight s)
    (canvasScale s).

Definition set_brushPreview (show : bool) (pos : Q * Q) (s : State) : State :=
  mkState (props s) (context2d s) (canvasContainerRef s) (imageCanvasRef s)
    (maskCanvasRef s) (loading s) (loadError s) (isDrawing s) (hasMask s)
    show pos (imageWidth s) (imageHeight s) (canvasScale s).

Definition set_imageSize (w h : Z) (scale : number) (s : State) : State :=
  mkState (props s) (context2d s) (canvasContainerRef s) (imageCanvasRef s)
    (maskCanvasRef s) (loading s) (loadError s) (isDrawing s) (hasMask s)
    (showBrushPreview s) (brushPosition s) w h scale.

(** The size setupCanvases fits the image into the container with: the
    [if (imgRatio > containerRatio)] and its two branches, computed as the
    code computes them, in binary64. *)
Definition displaySize (imgW imgH containerWidth containerHeight : Z)
  : number * number :=
  let imgRatio := div (ofInt imgW) (ofInt imgH) in
  let containerRatio := div (ofInt containerWidth) (ofInt containerHeight) in
  if gt imgRatio containerRatio
  then (ofInt containerWidth, div (ofInt containerWidth) imgRatio)
  else (mul (ofInt containerHeight) imgRatio, ofInt containerHeight).

(** What a canvas dimension takes of the number assigned to it, before the
    fraction is dropped: the conversion to [unsigned long] makes NaN and the
    infinities 0. *)
Definition dimension (n : number) : Q :=
  match n with
  | Finite q => q
  | _ => 0%Q
  end.

(** setupCanvases(img). drawImage and clearRect return at once when one of
    their arguments is not finite. *)
Definition setupCanvases (imgW imgH : Z) (s : State) : State :=
  match imageCanvasRef s, maskCanvasRef s, canvasContainerRef s with
  | Some imageCanvas, Some maskCanvas, Some container =>
      let containerWidth := clientWidth container in
      let containerHeight :=
        if clientHeight container =? 0 then 600 else clientHeight container in
      let '(displayWidth, displayHeight) :=
        displaySize imgW imgH containerWidth containerHeight in
      let s1 :=
        set_imageSize imgW imgH (div (ofInt imgW) displayWidth) s in
      let imageCanvas1 :=
        setHeight (dimension displayHeight)
          (setWidth (dimension displayWidth) imageCanvas) in
      let maskCanvas1 :=
        setHeight (dimension displayHeight)
          (setWidth (dimension displayWidth) maskCanvas) in
      let drawn :=
        context2d s && isFinite displayWidth && isFinite displayHeight in
      let imageCanvas2 :=
        if drawn
        then paint (DrawImage (imageUrl (props s)) 0 0
                      (dimension displayWidth) (dimension displayHeight))
               imageCanvas1
        else imageCanvas1 in
      let maskCanvas2 :=
        if drawn
        then clearRect 0 0 (dimension displayWidth) (dimension displayHeight)
               maskCanvas1
        else maskCanvas1 in
      set_maskCanvas maskCanvas2 (set_imageCanvas imageCanvas2 s1)
  | _, _, _ => s
  end.

(** loadImage(), with the outcome of loading the image given. *)
Definition loadImage (r : ImageLoad) (s : State) : State * list Effect :=
  if negb (truthy (imageUrl (props s))) then (s, [])
  else
    match imageCanvasRef s with
    | None => (s, [])
    | Some _ =>
        let s1 := set_loadError false (set_loading true s) in
        match r with
        | Loaded w h => (set_loading false (setupCanvases w h s1), [])
        | LoadFailed =>
            (set_loading false (set_loadError true s1),
             [console_error [0x52A0; 0x8F7D; 0x56FE; 0x7247; 0x5931; 0x8D25; 0x3A]%N])
        end
    end.

(** getCanvasCoordinates(event) *)
Definition getCanvasCoordinates (e : PointerEvent) (s : State) : Q * Q :=
  match maskCanvasRef s with
  | None => (0, 0)%Q
  | Some canvas => ((clientX e - rectLeft canvas)%Q, (clientY e - rectTop canvas)%Q)
  end.

(** drawPoint(x, y) *)
Definition drawPoint (x y : Q) (s : State) : State * list Effect :=
  match maskCanvasRef s with
  | None => (s, [])
  | Some canvas =>
      if negb (context2d s) then (s, [])
      else
        let s1 :=
          set_maskCanvas
            (paint (FillArc x y (brushSize (props s) / 2)%Q (brushColor (props s)))
               canvas) s in
        if negb (hasMask s1)
        then (set_hasMask true s1, [mask_change true])
        else (s1, [])
  end.

(** startDrawing(event) *)
Definition startDrawing (e : PointerEvent) (s : State) : State * list Effect :=
  let s1 := set_isDrawing true s in
  let coords := getCanvasCoordinates e s1 in
  drawPoint (fst coords) (snd coords) s1.

(** draw(event) *)
Definition draw (e : PointerEvent) (s : State) : State * list Effect :=
  let coords := getCanvasCoordinates e s in
  let s1 := set_brushPreview true coords s in
  if negb (isDrawing s1) then (s1, [])
  else drawPoint (fst coords) (snd coords) s1.

(** stopDrawing() *)
Definition stopDrawing (s : State) : State :=
  set_brushPreview false (brushPosition s) (set_isDrawing false s).

(** handleTouchStart(event), on the list [event.touches]. *)
Definition handleTouchStart (touches : list PointerEvent) (s : State)
  : State * list Effect :=
  match touches with
  | [t] =>
      let s1 := set_isDrawing true s in
      let coords := getCanvasCoordinates t s1 in
      drawPoint (fst coords) (snd coords) s1
  | _ => (s, [])
  end.

(** handleTouchMove(event) *)
Definition handleTouchMove (touches : list PointerEvent) (s : State)
  : State * list Effect :=
  match touches with
  | [t] =>
      if isDrawing s
      then let coords := getCanvasCoordinates t s in
           drawPoint (fst coords) (snd coords) s
      else (s, [])
  | _ => (s, [])
  end.

(** clearMask() *)
Definition clearMask (s : State) : State * list Effect :=
  match maskCanvasRef s with
  | None => (s, [])
  | Some canvas =>
      if negb (context2d s) then (s, [])
      else
        let canvas1 :=
          clearRect 0 0 (inject_Z (width canvas)) (inject_Z (height canvas)) canvas in
        (set_hasMask false (set_maskCanvas canvas1 s), [mask_change false])
  end.

(** getMaskCanvas(): [None] is the [null] result. *)
Definition getMaskCanvas (s : State) : option Canvas :=
  if negb (hasMask s) then None
  else
    match maskCanvasRef s with
    | None => None
    | Some maskCanvas =>
        let exportCanvas :=
          setHeight (inject_Z (imageHeight s))
            (setWidth (inject_Z (imageWidth s)) createCanvas) in
        if negb (context2d s) then None
        else
          Some (paint
                  (DrawCanvas (width maskCanvas) (height maskCanvas)
                     (bitmap maskCanvas)
                     0 0 (inject_Z (width maskCanvas)) (inject_Z (height maskCanvas))
                     0 0 (inject_Z (imageWidth s)) (inject_Z (imageHeight s)))
                  exportCanvas)
    end.

(** getMaskDataUrl() *)
Definition getMaskDataUrl (s : State) : option DataUrl :=
  match getMaskCanvas s with
  | None => None
  | Some canvas => Some (toDataURL canvas)
  end.

(** watch(() => props.imageUrl, ...): the parent binds a new URL; the
    watcher runs only when the value differs from the previous one. *)
Definition onImageUrlChange (url : jsstring) (r : ImageLoad) (s : State)
  : State * list Effect :=
  let p := props s in
  let s1 := set_props (mkProps url (brushSize p) (brushColor p) (maskOpacity p)) s in
  if list_eq_dec N.eq_dec url (imageUrl p) then (s1, [])
  else if truthy url then loadImage r s1 else (s1, []).

(** The ResizeObserver callback of onMounted, run after the layout gave the
    canvas container its new client size. *)
Definition onResize (c : Container) (r : ImageLoad) (s : State)
  : State * list Effect :=
  let s1 :=
    match canvasContainerRef s with
    | Some _ => set_container (Some c) s
    | None => s
    end in
  if truthy (imageUrl (props s1)) then loadImage r s1 else (s1, []).

(** The component once its template is mounted, before onMounted runs: both
    canvases have the default size and are blank. *)
Definition mounted (p : Props) (ctx : bool) (c : Container)
    (left top : Q) : State :=
  let canvas := mkCanvas 300 150 left top [] in
  mkState p ctx (Some c) (Some canvas) (Some canvas)
    false false false false false (0, 0)%Q 0 0 (ofInt 1).

(** The first statement of the onMounted hook. *)
Definition onMounted (r : ImageLoad) (s : State) : State * list Effect :=
  if truthy (imageUrl (props s)) then loadImage r s else (s, []).

(** The template: the error overlay and its retry button are rendered
    exactly when [loadError] holds, and the button's click handler is
    loadImage. *)
Definition errorOverlayVisible (s : State) : bool := loadError s.

Definition loadingOverlayVisible (s : State) : bool := loading s.

Definition clickRetry (r : ImageLoad) (s : State) : option (State * list Effect) :=
  if errorOverlayVisible s then Some (loadImage r s) else None.

(** The user-level operations of the surface, for traces. *)
Inductive Action : Type :=
| APaint (x y : Q)                      (* drawPoint through a pointer event *)
| AClear                                (* clearMask() *)
| ALoad (url : jsstring) (r : ImageLoad)  (* the imageUrl prop changes *)
| AResize (c : Container) (r : ImageLoad).

Definition step (a : Action) (s : State) : State * list Effect :=
  match a with
  | APaint x y => drawPoint x y s
  | AClear => clearMask s
  | ALoad url r => onImageUrlChange url r s
  | AResize c r => onResize c r s
  end.

(** Run a trace; the effects are collected in program order. *)
Fixpoint run (tr : list Action) (s : State) : State * list Effect :=
  match tr with
  | [] => (s, [])
  | a :: tr' =>
      let '(s1, e1) := step a s in
      let '(s2, e2) := run tr' s1 in
      (s2, e1 ++ e2)
  end.

(** Observations used in the statements below. *)

(** The template is mounted: the three template refs are set. *)
Definition ready (s : State) : bool :=
  match imageCanvasRef s, maskCanvasRef s, canvasContainerRef s with
  | Some _, Some _, Some _ => true
  | _, _, _ => false
  end.

(** What is painted on the mask canvas. *)
Definition maskBitmap (s : State) : list Paint :=
  match maskCanvasRef s with
  | Some c => bitmap c
  | None => []
  end.

(** The height setupCanvases fits into: [container.clientHeight || 600]. *)
Definition fitHeight (c : Container) : Z :=
  if clientHeight c =? 0 then 600 else clientHeight c.

(** The signals the spec expects from a trace: a paint while the mask has no
    content signals [true], any other paint signals nothing, a clear signals
    [false]. *)
Fixpoint maskSignals (hasContent : bool) (tr : list Action) : list Effect :=
  match tr with
  | [] => []
  | APaint _ _ :: tr' =>
      (if hasContent then [] else [mask_change true]) ++ maskSignals true tr'
  | AClear :: tr' => mask_change false :: maskSignals false tr'
  | _ :: tr' => maskSignals hasContent tr'
  end.

(** Has anything been painted since the last clear() or image load? *)
Fixpoint paintedSinceReset (painted : bool) (tr : list Action) : bool :=
  match tr with
  | [] => painted
  | APaint _ _ :: tr' => paintedSinceReset true tr'
  | AClear :: tr' => paintedSinceReset false tr'
  | ALoad _ (Loaded _ _) :: tr' => paintedSinceReset false tr'
  | _ :: tr' => paintedSinceReset painted tr'
  end.

Definition paintOrClear (a : Action) : bool :=
  match a with
  | APaint _ _ | AClear => true
  | _ => false
  end.

End ImageEditor.

(* ===================================================================== *)
(** ** frontend/src/api/edit.ts: the client of the edit API *)
(* ===================================================================== *)

Module EditApi.

Import JsString Dom.

(** The session summary the server sends (interface EditSession). *)
Record EditSession : Type := mkEditSession {
  id : jsstring;
  task_id : jsstring;
  can_undo : bool;
  can_redo : bool;
  history_count : Z;
  history_index : Z;
  created_at : jsstring
}.

(** The [data] of the replies to apply, undo and redo. *)
Record EditResult : Type := mkEditResult {
  success : bool;
  session : option EditSession;
  image_url : option jsstring;
  error : option jsstring
}.

(** The [data] of the reply to getSessionInfo. *)
Record SessionInfo : Type := mkSessionInfo {
  info_success : bool;
  info_session : option EditSession;
  info_error : option jsstring
}.

(** The [data] of the reply to createEditSession. *)
Record CreateResult : Type := mkCreateResult {
  create_success : bool;
  create_session_id : option jsstring;
  create_session : option EditSession;
  create_error : option jsstring
}.

Inductive Method : Type := GET | POST | DELETE.

Inductive Body : Type :=
| NoBody
| CreateBody (task_id : jsstring) (image_index : Z)
| ApplyBody (instruction : jsstring) (mask : option DataUrl).

Record Request : Type := mkRequest {
  method : Method;
  url : jsstring;
  body : Body
}.

(** A value thrown by a rejected promise or a [throw]. *)
Inductive Thrown : Type :=
| ErrorObject (message : jsstring)      (* e instanceof Error *)
| OtherValue.

(** How an awaited request settles. axios rejects on a network error and on
    a status outside 2xx. *)
Inductive Reply (A : Type) : Type :=
| Resolved (data : A)
| Rejected (e : Thrown).

Arguments Rejected {A} e.

Definition API_BASE_URL : jsstring := lit "/api".

Definition sessionUrl (sessionId : jsstring) (suffix : string) : jsstring :=
  API_BASE_URL ++ lit "/edit/session/" ++ sessionId ++ lit suffix.

(** canvasToBase64(canvas) *)
Definition canvasToBase64 (canvas : Canvas) : DataUrl := toDataURL canvas.

(** createEditSession(request): [imageIndex ?? 0]. *)
Definition createEditSession (taskId : jsstring) (imageIndex : option Z) : Request :=
  mkRequest POST (API_BASE_URL ++ lit "/edit/session")
    (CreateBody taskId (match imageIndex with Some i => i | None => 0 end)).

(** getSessionInfo(sessionId) *)
Definition getSessionInfo (sessionId : jsstring) : Request :=
  mkRequest GET (sessionUrl sessionId "") NoBody.

(** applyEdit(sessionId, request) *)
Definition applyEdit (sessionId instruction : jsstring) (mask : option DataUrl)
  : Request :=
  mkRequest POST (sessionUrl sessionId "/apply") (ApplyBody instruction mask).

(** applyEditWithMaskCanvas(sessionId, instruction, maskCanvas) *)
Definition applyEditWithMaskCanvas (sessionId instruction : jsstring)
    (maskCanvas : option Canvas) : Request :=
  let mask :=
    match maskCanvas with
    | Some c => Some (canvasToBase64 c)
    | None => None
    end in
  applyEdit sessionId instruction mask.

(** undoEdit(sessionId) *)
Definition undoEdit (sessionId : jsstring) : Request :=
  mkRequest POST (sessionUrl sessionId "/undo") NoBody.

(** redoEdit(sessionId) *)
Definition redoEdit (sessionId : jsstring) : Request :=
  mkRequest POST (sessionUrl sessionId "/redo") NoBody.

(** saveEdit(sessionId) *)
Definition saveEdit (sessionId : jsstring) : Request :=
  mkRequest POST (sessionUrl sessionId "/save") NoBody.

(** cancelEdit(sessionId) *)
Definition cancelEdit (sessionId : jsstring) : Request :=
  mkRequest DELETE (sessionUrl sessionId "") NoBody.

(** getCurrentImageUrl(sessionId) *)
Definition getCurrentImageUrl (sessionId : jsstring) : jsstring :=
  sessionUrl sessionId "/current".

End EditApi.

(* ===================================================================== *)
(** ** frontend/src/views/ProductPhotoEditView.vue: the edit page *)
(* ===================================================================== *)

Module ProductPhotoEditView.

Import JsString Dom EditApi.

Record View : Type := mkView {
  loading : bool;
  error : option jsstring;
  isProcessing : bool;
  sessionId : option jsstring;
  session : option EditSession;
  instruction : jsstring;
  brushSize : Q;
  hasMask : bool;
  hasChanges : bool;
  imageEditorRef : option ImageEditor.State
}.

(** What a handler does to the outside, in program order. *)
Inductive Effect : Type :=
| Call (r : Request)
| ConsoleError (label : jsstring) (e : Thrown)
| Alert (message : jsstring).

Definition set_isProcessing (b : bool) (v : View) : View :=
  mkView (loading v) (error v) b (sessionId v) (session v) (instruction v)
    (brushSize v) (hasMask v) (hasChanges v) (imageEditorRef v).

Definition set_session (s : option EditSession) (v : View) : View :=
  mkView (loading v) (error v) (isProcessing v) (sessionId v) s (instruction v)
    (brushSize v) (hasMask v) (hasChanges v) (imageEditorRef v).

Definition set_instruction (i : jsstring) (v : View) : View :=
  mkView (loading v) (error v) (isProcessing v) (sessionId v) (session v) i
    (brushSize v) (hasMask v) (hasChanges v) (imageEditorRef v).

Definition set_hasMask (b : bool) (v : View) : View :=
  mkView (loading v) (error v) (isProcessing v) (sessionId v) (session v)
    (instruction v) (brushSize v) b (hasChanges v) (imageEditorRef v).

Definition set_hasChanges (b : bool) (v : View) : View :=
  mkView (loading v) (error v) (isProcessing v) (sessionId v) (session v)
    (instruction v) (brushSize v) (hasMask v) b (imageEditorRef v).

Definition set_imageEditor (e : option ImageEditor.State) (v : View) : View :=
  mkView (loading v) (error v) (isProcessing v) (sessionId v) (session v)
    (instruction v) (brushSize v) (hasMask v) (hasChanges v) e.

(** The computed properties. *)
Definition canUndo (v : View) : bool :=
  match session v with Some s => can_undo s | None => false end.

Definition canRedo (v : View) : bool :=
  match session v with Some s => can_redo s | None => false end.

Definition historyIndex (v : View) : Z :=
  match session v with Some s => history_index s | None => 0 end.

Definition historyCount (v : View) : Z :=
  match session v with Some s => history_count s | None => 1 end.

Definition canApplyEdit (v : View) : bool :=
  0 <? Z.of_nat (List.length (trim (instruction v))).

(** [!sessionId.value] fails for a non-empty string only. *)
Definition activeSession (v : View) : option jsstring :=
  match sessionId v with
  | Some sid => if truthy sid then Some sid else None
  | None => None
  end.

(** handleMaskChange(hasMaskValue), the listener of 'mask-change'. *)
Definition handleMaskChange (hasMaskValue : bool) (v : View) : View :=
  set_hasMask hasMaskValue v.

(** The events of the child reach the listener in the order sent. *)
Fixpoint deliver (es : list ImageEditor.Effect) (v : View) : View :=
  match es with
  | [] => v
  | ImageEditor.mask_change b :: es' => deliver es' (handleMaskChange b v)
  | ImageEditor.console_error _ :: es' => deliver es' v
  end.

(** clearMask(): [imageEditorRef.value?.clearMask()], then the flag. *)
Definition clearMask (v : View) : View :=
  let v1 :=
    match imageEditorRef v with
    | Some ed =>
        let '(ed', es) := ImageEditor.clearMask ed in
        deliver es (set_imageEditor (Some ed') v)
    | None => v
    end in
  set_hasMask false v1.

(** applyPreset(preset) *)
Definition applyPreset (preset : jsstring) (v : View) : View :=
  set_instruction preset v.


(** refreshSession() *)
Definition refreshSession (info : Reply SessionInfo) (v : View)
  : View * list Effect :=
  match activeSession v with
  | None => (v, [])
  | Some sid =>
      match info with
      | Resolved result =>
          (if info_success result
           then match info_session result with
                | Some s => set_session (Some s) v
                | None => v
                end
           else v,
           [Call (getSessionInfo sid)])
      | Rejected e =>
          (v, [Call (getSessionInfo sid);
               ConsoleError
                 [0x5237; 0x65B0; 0x4F1A; 0x8BDD; 0x4FE1; 0x606F; 0x5931; 0x8D25; 0x3A]%N
                 e])
      end
  end.

(** The catch block of the three handlers:
    [console.error(label, e); alert(e instanceof Error ? e.message : fallback)]. *)
Definition catchAlert (label fallback : jsstring) (e : Thrown) : list Effect :=
  [ConsoleError label e;
   Alert (match e with ErrorObject m => m | OtherValue => fallback end)].

Definition msgEditFailed : jsstring := [0x7F16; 0x8F91; 0x5931; 0x8D25]%N.
Definition msgUndoFailed : jsstring := [0x64A4; 0x9500; 0x5931; 0x8D25]%N.
Definition msgRedoFailed : jsstring := [0x91CD; 0x505A; 0x5931; 0x8D25]%N.
Definition logApplyFailed : jsstring :=
  [0x5E94; 0x7528; 0x7F16; 0x8F91; 0x5931; 0x8D25; 0x3A]%N.
Definition logUndoFailed : jsstring := (msgUndoFailed ++ [0x3A])%N.
Definition logRedoFailed : jsstring := (msgRedoFailed ++ [0x3A])%N.

(** handleApplyEdit(), given how the apply request and the session refresh
    settle. *)
Definition handleApplyEdit (reply : Reply EditResult) (info : Reply SessionInfo)
    (v : View) : View * list Effect :=
  match activeSession v with
  | None => (v, [])
  | Some sid =>
      if negb (canApplyEdit v) then (v, [])
      else
        let v1 := set_isProcessing true v in
        let maskCanvas :=
          match imageEditorRef v1 with
          | Some ed => ImageEditor.getMaskCanvas ed
          | None => None
          end in
        let request :=
          applyEditWithMaskCanvas sid (instruction v1)
            (if hasMask v1 then maskCanvas else None) in
        let '(v2, effects) :=
          match reply with
          | Rejected e => (v1, catchAlert logApplyFailed msgEditFailed e)
          | Resolved result =>
              if negb (success result)
              then (v1, catchAlert logApplyFailed msgEditFailed
                          (ErrorObject (or_default (EditApi.error result) msgEditFailed)))
              else
                let v2 :=
                  match EditApi.session result with
                  | Some s => set_session (Some s) v1
                  | None => v1
                  end in
                let v3 := set_instruction [] v2 in
                let v4 := clearMask v3 in
                let v5 := set_hasChanges true v4 in
                refreshSession info v5
          end in
        (set_isProcessing false v2, Call request :: effects)
  end.

(** The common body of handleUndo() and handleRedo(). *)
Definition historyRequest (request : jsstring -> Request)
    (label fallback : jsstring) (reply : Reply EditResult)
    (info : Reply SessionInfo) (sid : jsstring) (v : View) : View * list Effect :=
  let v1 := set_isProcessing true v in
  let '(v2, effects) :=
    match reply with
    | Rejected e => (v1, catchAlert label fallback e)
    | Resolved result =>
        if negb (success result)
        then (v1, catchAlert label fallback
                    (ErrorObject (or_default (EditApi.error result) fallback)))
        else
          let v2 :=
            match EditApi.session result with
            | Some s => set_session (Some s) v1
            | None => v1
            end in
          refreshSession info v2
    end in
  (set_isProcessing false v2, Call (request sid) :: effects).

(** handleUndo() *)
Definition handleUndo (reply : Reply EditResult) (info : Reply SessionInfo)
    (v : View) : View * list Effect :=
  match activeSession v with
  | None => (v, [])
  | Some sid =>
      if negb (canUndo v) then (v, [])
      else historyRequest undoEdit logUndoFailed msgUndoFailed reply info sid v
  end.

(** handleRedo() *)
Definition handleRedo (reply : Reply EditResult) (info : Reply SessionInfo)
    (v : View) : View * list Effect :=
  match activeSession v with
  | None => (v, [])
  | Some sid =>
      if negb (canRedo v) then (v, [])
      else historyRequest redoEdit logRedoFailed msgRedoFailed reply info sid v
  end.

(** The external edit call fails: the request is rejected, or the reply
    reports [success: false]. *)
Definition editFailed (reply : Reply EditResult) : Prop :=
  match reply with
  | Rejected _ => True
  | Resolved result => success result = false
  end.

(** The text the user is shown for a failed call. *)
Definition failureShown (fallback : jsstring) (reply : Reply EditResult) : Thrown :=
  match reply with
  | Rejected e => e
  | Resolved result => ErrorObject (or_default (EditApi.error result) fallback)
  end.

Definition alertText (fallback : jsstring) (e : Thrown) : jsstring :=
  match e with ErrorObject m => m | OtherValue => fallback end.

End ProductPhotoEditView.

(* ===================================================================== *)
(** ** ProductImageUploader.vue (src/unnamed/part_001) *)
(* ===================================================================== *)

Module ProductImageUploader.

Import JsString.

Record File : Type := mkFile {
  name : jsstring;
  type : jsstring;       (* the MIME type *)
  size : Z               (* in bytes *)
}.

Record ProductImage : Type := mkProductImage {
  id : jsstring;
  file : File;
  preview : jsstring;
  productType : option jsstring
}.

(** The four messages of processFiles, by the values interpolated in them. *)
Inductive Message : Type :=
| TooManyImages (maxImages : Z)
| UnsupportedFormat (fileName : jsstring)
| FileTooLarge (fileName : jsstring)
| LimitReached (remainingSlots : Z).

Inductive Emit : Type :=
| update (files : list File)
| add (files : list File)
| remove (index : Z)
| error_event (message : Message).

Record State : Type := mkState {
  maxImages : Z;         (* props.maxImages, 10 unless the parent sets it *)
  images : list ProductImage;
  error : option Message;
  isZoneDragOver : bool
}.

Definition defaultMaxImages : Z := 10.

Definition initial (maxImages : option Z) : State :=
  mkState (match maxImages with Some m => m | None => defaultMaxImages end)
    [] None false.

Definition ACCEPTED_FORMATS : list jsstring :=
  [lit "image/png"; lit "image/jpeg"; lit "image/webp"].

Definition maxSize : Z := 10 * 1024 * 1024.

(** The computed [files]. *)
Definition files (s : State) : list File := map file (images s).

Definition set_error (e : option Message) (s : State) : State :=
  mkState (maxImages s) (images s) e (isZoneDragOver s).

Definition set_images (l : list ProductImage) (s : State) : State :=
  mkState (maxImages s) l (error s) (isZoneDragOver s).

Definition set_isZoneDragOver (b : bool) (s : State) : State :=
  mkState (maxImages s) (images s) (error s) b.

(** The state of the [for (const file of filesToAdd)] loop. *)
Record Scan : Type := mkScan {
  validFiles : list File;
  scanError : option Message;
  emitted : list Emit
}.

(** One pass of the loop body per file. *)
Fixpoint scanFiles (filesToAdd : list File) (acc : Scan) : Scan :=
  match filesToAdd with
  | [] => acc
  | f :: rest =>
      if negb (includes ACCEPTED_FORMATS (type f))
      then scanFiles rest
             (mkScan (validFiles acc) (Some (UnsupportedFormat (name f)))
                (emitted acc ++ [error_event (UnsupportedFormat (name f))]))
      else if maxSize <? size f
      then scanFiles rest
             (mkScan (validFiles acc) (Some (FileTooLarge (name f)))
                (emitted acc ++ [error_event (FileTooLarge (name f))]))
      else scanFiles rest
             (mkScan (validFiles acc ++ [f]) (scanError acc) (emitted acc))
  end.

(** [validFiles.map(file => ({ id: generateId(), file, preview:
    URL.createObjectURL(file) }))]: the identifier and the object URL of the
    k-th new image come from the environment. *)
Fixpoint newImages (mint : nat -> jsstring * jsstring) (k : nat)
    (fs : list File) : list ProductImage :=
  match fs with
  | [] => []
  | f :: rest =>
      mkProductImage (fst (mint k)) f (snd (mint k)) None
        :: newImages mint (S k) rest
  end.

(** processFiles(fileList) *)
Definition processFiles (fileList : list File)
    (mint : nat -> jsstring * jsstring) (s : State) : State * list Emit :=
  let s0 := set_error None s in
  let remainingSlots := maxImages s0 - Z.of_nat (List.length (images s0)) in
  if remainingSlots <=? 0
  then (set_error (Some (TooManyImages (maxImages s0))) s0,
        [error_event (TooManyImages (maxImages s0))])
  else
    let filesToAdd := firstn (Z.to_nat remainingSlots) fileList in
    let scan := scanFiles filesToAdd (mkScan [] (error s0) []) in
    let s1 := set_error (scanError scan) s0 in
    match validFiles scan with
    | [] => (s1, emitted scan)
    | _ :: _ =>
        let s2 :=
          set_images (images s1 ++ newImages mint 0 (validFiles scan)) s1 in
        let out := emitted scan ++ [add (validFiles scan); update (files s2)] in
        if remainingSlots <? Z.of_nat (List.length fileList)
        then (set_error (Some (LimitReached remainingSlots)) s2,
              out ++ [error_event (LimitReached remainingSlots)])
        else (s2, out)
    end.

(** handleFileSelect(e), on [Array.from(target.files)]. *)
Definition handleFileSelect (selected : list File)
    (mint : nat -> jsstring * jsstring) (s : State) : State * list Emit :=
  match selected with
  | [] => (s, [])
  | _ :: _ => processFiles selected mint s
  end.

(** handleZoneDrop(e), on [e.dataTransfer?.files]. *)
Definition handleZoneDrop (dropped : option (list File))
    (mint : nat -> jsstring * jsstring) (s : State) : State * list Emit :=
  let s1 := set_isZoneDragOver false s in
  match dropped with
  | Some (f :: fs) => processFiles (f :: fs) mint s1
  | _ => (s1, [])
  end.

(** [images.value[index]] *)
Definition imageAt (index : Z) (s : State) : option ProductImage :=
  if index <? 0 then None else nth_error (images s) (Z.to_nat index).

(** removeImage(index) *)
Definition removeImage (index : Z) (s : State) : State * list Emit :=
  match imageAt index s with
  | Some _ =>
      let s1 :=
        set_images (firstn (Z.to_nat index) (images s)
                    ++ skipn (S (Z.to_nat index)) (images s)) s in
      (set_error None s1, [remove index; update (files s1)])
  | None => (set_error None s, [])
  end.

(** clearAll() *)
Definition clearAll (s : State) : State * list Emit :=
  (set_error None (set_images [] s), [update []]).

(** What the user and the parent can do to the list. *)
Inductive Action : Type :=
| SelectFiles (selected : list File) (mint : nat -> jsstring * jsstring)
| DropFiles (dropped : option (list File)) (mint : nat -> jsstring * jsstring)
| RemoveImage (index : Z)
| ClearAll.

Definition step (a : Action) (s : State) : State * list Emit :=
  match a with
  | SelectFiles fs mint => handleFileSelect fs mint s
  | DropFiles fs mint => handleZoneDrop fs mint s
  | RemoveImage i => removeImage i s
  | ClearAll => clearAll s
  end.

Fixpoint run (tr : list Action) (s : State) : State :=
  match tr with
  | [] => s
  | a :: tr' => run tr' (fst (step a s))
  end.

(** The validation a stored file has passed. *)
Definition acceptable (f : File) : bool :=
  includes ACCEPTED_FORMATS (type f) && (size f <=? maxSize).

(** The bound and the validity of what is stored. *)
Definition stored_ok (s : State) : Prop :=
  Z.of_nat (List.length (images s)) <= maxImages s /\
  Forall (fun f => acceptable f = true) (files s).

(** The error a file is rejected with, if it is. *)
Definition rejection (f : File) : list Emit :=
  if negb (includes ACCEPTED_FORMATS (type f))
  then [error_event (UnsupportedFormat (name f))]
  else if maxSize <? size f
  then [error_event (FileTooLarge (name f))]
  else [].

End ProductImageUploader.

(* ===================================================================== *)
(** ** Concrete states *)
(* ===================================================================== *)

Module Scenario.

Import JsString Dom.

Definition editorProps : ImageEditor.Props :=
  ImageEditor.mkProps (lit "/api/edit/session/s1/current?t=1")
    30 (lit "rgba(255, 36, 66, 0.5)") (1 # 2).

Definition viewport : ImageEditor.Container := ImageEditor.mkContainer 800 600.


(** The editor after mounting, before its image has loaded. *)
Definition mountedEditor : ImageEditor.State :=
  ImageEditor.mounted editorProps true viewport 0 0.

(** ... after a 1600 x 1200 image has loaded. *)
Definition loadedEditor : ImageEditor.State :=
  Eval cbv in
  fst (ImageEditor.onMounted (ImageEditor.Loaded 1600 1200) mountedEditor).

(** ... after one brush stroke at (10, 10). *)
Definition paintedEditor : ImageEditor.State :=
  fst (ImageEditor.drawPoint 10 10 loadedEditor).

Definition nextImageUrl : jsstring := lit "/api/edit/session/s1/current?t=2".

Definition summary : EditApi.EditSession :=
  EditApi.mkEditSession (lit "s1") (lit "task-7") true false 2 1
    (lit "2025-01-01T00:00:00").

(** The edit page with a session, an instruction typed and a mask drawn. *)
Definition editingView : ProductPhotoEditView.View :=
  ProductPhotoEditView.mkView false None false (Some (lit "s1")) (Some summary)
    (lit "brighten") 30 true true (Some paintedEditor).

(** The same page with only blanks typed and nothing to undo or redo. *)
Definition idleView : ProductPhotoEditView.View :=
  ProductPhotoEditView.mkView false None false (Some (lit "s1"))
    (Some (EditApi.mkEditSession (lit "s1") (lit "task-7") false false 1 0
             (lit "2025-01-01T00:00:00")))
    ([0x20; 0x09; 0x3000]%N) 30 false false (Some loadedEditor).

Definition rejection : EditApi.Reply EditApi.EditResult :=
  EditApi.Resolved
    (EditApi.mkEditResult false None None (Some (lit "provider timeout"))).

Definition infoUnchanged : EditApi.Reply EditApi.SessionInfo :=
  EditApi.Resolved (EditApi.mkSessionInfo true (Some summary) None).

Definition png (n : string) (bytes : Z) : ProductImageUploader.File :=
  ProductImageUploader.mkFile (lit n) (lit "image/png") bytes.

Definition gif (n : string) (bytes : Z) : ProductImageUploader.File :=
  ProductImageUploader.mkFile (lit n) (lit "image/gif") bytes.

Definition mint (k : nat) : jsstring * jsstring :=
  ([N.of_nat k], lit "blob:" ++ [N.of_nat k]).

End Scenario.

(* ===================================================================== *)
(** ** ImageEditor.vue: the pointer events bound in the template *)
(* ===================================================================== *)

Module Gestures.

Import JsString Dom ImageEditor.

(** The listeners of the mask canvas (template lines 15-21): mousedown,
    mousemove, mouseup, mouseleave, touchstart, touchmove, touchend. *)
Inductive DomEvent : Type :=
| mousedown (e : PointerEvent)
| mousemove (e : PointerEvent)
| mouseup
| mouseleave
| touchstart (touches : list PointerEvent)
| touchmove (touches : list PointerEvent)
| touchend.

Definition dispatch (ev : DomEvent) (s : State) : State * list Effect :=
  match ev with
  | mousedown e => startDrawing e s
  | mousemove e => draw e s
  | mouseup => (stopDrawing s, [])
  | mouseleave => (stopDrawing s, [])
  | touchstart ts => handleTouchStart ts s
  | touchmove ts => handleTouchMove ts s
  | touchend => (stopDrawing s, [])
  end.

Fixpoint dispatchAll (evs : list DomEvent) (s : State) : State * list Effect :=
  match evs with
  | [] => (s, [])
  | ev :: evs' =>
      let '(s1, e1) := dispatch ev s in
      let '(s2, e2) := dispatchAll evs' s1 in
      (s2, e1 ++ e2)
  end.

(** The disc the brush leaves for a pointer at [e]: centre at the pointer
    position relative to the mask canvas, radius half the brush size. *)
Definition arcAt (s : State) (e : PointerEvent) : Paint :=
  let coords := getCanvasCoordinates e s in
  FillArc (fst coords) (snd coords) (brushSize (props s) / 2)%Q
    (brushColor (props s)).

(** The pointer positions at which a sequence of events is expected to put
    ink: every press, and every move made while pressed. A touch event
    counts when exactly one finger is on the screen. *)
Fixpoint inked (drawing : bool) (evs : list DomEvent) : list PointerEvent :=
  match evs with
  | [] => []
  | mousedown e :: evs' => e :: inked true evs'
  | mousemove e :: evs' => (if drawing then [e] else []) ++ inked drawing evs'
  | mouseup :: evs' => inked false evs'
  | mouseleave :: evs' => inked false evs'
  | touchstart [t] :: evs' => t :: inked true evs'
  | touchstart _ :: evs' => inked drawing evs'
  | touchmove [t] :: evs' => (if drawing then [t] else []) ++ inked drawing evs'
  | touchmove _ :: evs' => inked drawing evs'
  | touchend :: evs' => inked false evs'
  end.

(** Is the button (or finger) down after the events? *)
Fixpoint pressed (drawing : bool) (evs : list DomEvent) : bool :=
  match evs with
  | [] => drawing
  | mousedown _ :: evs' => pressed true evs'
  | touchstart [_] :: evs' => pressed true evs'
  | mouseup :: evs' => pressed false evs'
  | mouseleave :: evs' => pressed false evs'
  | touchend :: evs' => pressed false evs'
  | _ :: evs' => pressed drawing evs'
  end.

(** The mouse gesture that a one-finger touch gesture corresponds to. *)
Definition asMouse (ev : DomEvent) : list DomEvent :=
  match ev with
  | touchstart [t] => [mousedown t]
  | touchmove [t] => [mousemove t]
  | touchstart _ => []
  | touchmove _ => []
  | touchend => [mouseup]
  | other => [other]
  end.

(** The strokes a sequence of paints and clears leaves on a mask canvas
    that holds [acc]: a clear removes everything painted before it. *)
Fixpoint strokesLeft (p : Props) (acc : list Paint) (tr : list Action) : list Paint :=
  match tr with
  | [] => acc
  | APaint x y :: tr' =>
      strokesLeft p (acc ++ [FillArc x y (brushSize p / 2)%Q (brushColor p)]) tr'
  | AClear :: tr' => strokesLeft p [] tr'
  | _ :: tr' => strokesLeft p acc tr'
  end.

(** What a gesture leaves alone: the props, the 2D capability, the template
    refs and the place of the mask canvas on the page. *)
Definition sameSurface (s s' : State) : Prop :=
  props s' = props s /\ context2d s' = context2d s /\
  ready s' = ready s /\
  (forall e, getCanvasCoordinates e s' = getCanvasCoordinates e s).

(** The label of the console message of a failed load. *)
Definition loadFailedLabel : jsstring :=
  [0x52A0; 0x8F7D; 0x56FE; 0x7247; 0x5931; 0x8D25; 0x3A]%N.

(** The pixel size of a canvas behind a template ref. *)
Definition canvasSize (c : option Canvas) : option (Z * Z) :=
  match c with
  | Some c => Some (width c, height c)
  | None => None
  end.

End Gestures.

(* ===================================================================== *)
(** ** ProductPhotoEditView.vue: session start, save, cancel, leaving *)
(* ===================================================================== *)

Module EditPage.

Import JsString Dom EditApi ProductPhotoEditView.

(** The [data] of the reply to saveEdit. *)
Record SaveResult : Type := mkSaveResult {
  save_success : bool;
  save_image_path : option jsstring;
  save_error : option jsstring
}.

(** The [data] of the reply to cancelEdit. *)
Record CancelResult : Type := mkCancelResult {
  cancel_success : bool;
  cancel_error : option jsstring
}.

(** The effects of the page: those of the edit handlers, the confirm
    dialog and [router.back()]. *)
Inductive PageEffect : Type :=
| Did (e : Effect)
| Confirm (message : jsstring)
| RouterBack.

Definition set_loading (b : bool) (v : View) : View :=
  mkView b (error v) (isProcessing v) (sessionId v) (session v) (instruction v)
    (brushSize v) (hasMask v) (hasChanges v) (imageEditorRef v).

Definition set_error (e : option jsstring) (v : View) : View :=
  mkView (loading v) e (isProcessing v) (sessionId v) (session v) (instruction v)
    (brushSize v) (hasMask v) (hasChanges v) (imageEditorRef v).

Definition set_sessionId (sid : option jsstring) (v : View) : View :=
  mkView (loading v) (error v) (isProcessing v) sid (session v) (instruction v)
    (brushSize v) (hasMask v) (hasChanges v) (imageEditorRef v).

Definition msgCreateFailed : jsstring :=
  [0x521B; 0x5EFA; 0x7F16; 0x8F91; 0x4F1A; 0x8BDD; 0x5931; 0x8D25]%N.
Definition msgInitFailed : jsstring := [0x521D; 0x59CB; 0x5316; 0x5931; 0x8D25]%N.
Definition logInitFailed : jsstring :=
  [0x521D; 0x59CB; 0x5316; 0x7F16; 0x8F91; 0x4F1A; 0x8BDD; 0x5931; 0x8D25; 0x3A]%N.
Definition msgSaveFailed : jsstring := [0x4FDD; 0x5B58; 0x5931; 0x8D25]%N.
Definition logSaveFailed : jsstring := (msgSaveFailed ++ [0x3A])%N.
Definition msgSaved : jsstring := [0x4FDD; 0x5B58; 0x6210; 0x529F]%N.
Definition logCancelFailed : jsstring :=
  [0x53D6; 0x6D88; 0x7F16; 0x8F91; 0x5931; 0x8D25; 0x3A]%N.
Definition msgConfirmCancel : jsstring :=
  [0x786E; 0x5B9A; 0x8981; 0x53D6; 0x6D88; 0x7F16; 0x8F91; 0x5417; 0xFF1F;
   0x6240; 0x6709; 0x672A; 0x4FDD; 0x5B58; 0x7684; 0x66F4; 0x6539; 0x5C06;
   0x4E22; 0x5931; 0x3002]%N.

(** The page before onMounted: the initial values of its refs. *)
Definition initialView : View :=
  mkView true None false None None [] 30 false false None.

(** initSession(), given how the create request and the refresh settle. *)
Definition initSession (taskId : jsstring) (imageIndex : Z)
    (created : Reply CreateResult) (info : Reply SessionInfo) (v : View)
  : View * list Effect :=
  let v1 := set_error None (set_loading true v) in
  let request := createEditSession taskId (Some imageIndex) in
  let failed (e : Thrown) :=
    (set_error (Some (match e with ErrorObject m => m | OtherValue => msgInitFailed end)) v1,
     [ConsoleError logInitFailed e]) in
  let '(v2, effects) :=
    match created with
    | Rejected e => failed e
    | Resolved result =>
        match create_session_id result with
        | Some sid =>
            if create_success result && truthy sid
            then
              let v2 := set_session (create_session result)
                          (set_sessionId (Some sid) v1) in
              refreshSession info v2
            else failed (ErrorObject (or_default (create_error result) msgCreateFailed))
        | None => failed (ErrorObject (or_default (create_error result) msgCreateFailed))
        end
    end in
  (set_loading false v2, Call request :: effects).

(** handleSave(), given how the save request settles. *)
Definition handleSave (reply : Reply SaveResult) (v : View)
  : View * list PageEffect :=
  match activeSession v with
  | None => (v, [])
  | Some sid =>
      let effects :=
        match reply with
        | Rejected e => map Did (catchAlert logSaveFailed msgSaveFailed e)
        | Resolved result =>
            if negb (save_success result)
            then map Did (catchAlert logSaveFailed msgSaveFailed
                            (ErrorObject (or_default (save_error result) msgSaveFailed)))
            else [Did (Alert msgSaved); RouterBack]
        end in
      (set_isProcessing false (set_isProcessing true v),
       Did (Call (saveEdit sid)) :: effects)
  end.

(** handleCancel(), given the answer to the confirm dialog (asked only when
    there are changes) and how the cancel request settles. No ref is
    assigned. *)
Definition handleCancel (confirmed : bool) (reply : Reply CancelResult)
    (v : View) : list PageEffect :=
  let leave :=
    match activeSession v with
    | Some sid =>
        Did (Call (cancelEdit sid))
        :: match reply with
           | Rejected e => [Did (ConsoleError logCancelFailed e)]
           | Resolved _ => []
           end
    | None => []
    end ++ [RouterBack] in
  if hasChanges v
  then Confirm msgConfirmCancel :: (if confirmed then leave else [])
  else leave.

(** The onUnmounted hook: the rejection of the request is swallowed. *)
Definition onUnmounted (v : View) : list PageEffect :=
  match activeSession v with
  | Some sid => if negb (hasChanges v) then [Did (Call (cancelEdit sid))] else []
  | None => []
  end.







(** The requests among the effects of a handler. *)
Fixpoint calls (es : list Effect) : list Request :=
  match es with
  | [] => []
  | Call r :: es' => r :: calls es'
  | _ :: es' => calls es'
  end.

Fixpoint pageCalls (es : list PageEffect) : list Request :=
  match es with
  | [] => []
  | Did (Call r) :: es' => r :: pageCalls es'
  | _ :: es' => pageCalls es'
  end.

(** getOriginalImageUrl(sessionId) of api/edit.ts. *)
Definition getOriginalImageUrl (sessionId : jsstring) : jsstring :=
  sessionUrl sessionId "/original".

(** The six requests api/edit.ts can make about one session. *)
Definition sessionRequests (sessionId : jsstring) : list Request :=
  [getSessionInfo sessionId; applyEdit sessionId [] None; undoEdit sessionId;
   redoEdit sessionId; saveEdit sessionId; cancelEdit sessionId].

(** The session summary the page shows after a successful request: the one
    of the refresh if it brought one, else the one of the reply if it
    brought one, else the previous one. *)
Definition sessionAfter (fromReply : option EditSession)
    (info : Reply SessionInfo) (previous : option EditSession)
  : option EditSession :=
  let afterReply :=
    match fromReply with Some s => Some s | None => previous end in
  match info with
  | Resolved i =>
      if info_success i
      then match info_session i with Some s => Some s | None => afterReply end
      else afterReply
  | Rejected _ => afterReply
  end.

(** The session id a reply to createEditSession starts a session with:
    the reply must report success and carry a non-empty id. *)
Definition startedId (created : Reply CreateResult) : option jsstring :=
  match created with
  | Resolved result =>
      match create_session_id result with
      | Some sid => if create_success result && truthy sid then Some sid else None
      | None => None
      end
  | Rejected _ => None
  end.

(** Did the save request succeed? *)
Definition saved (reply : Reply SaveResult) : bool :=
  match reply with
  | Resolved result => save_success result
  | Rejected _ => false
  end.

End EditPage.

(* ===================================================================== *)
(** ** ProductImageUploader.vue: drag reordering and object URLs *)
(* ===================================================================== *)

Module UploaderDrag.

Import JsString ProductImageUploader.

(** The index Array.prototype.splice starts at: a negative [start] counts
    from the end, and the result is clamped to [0, len]. *)
Definition spliceStart (len start : Z) : Z :=
  if start <? 0 then Z.max (len + start) 0 else Z.min start len.

Section Splice.

Variable A : Type.

(** [const [x] = a.splice(start, 1)]: the element removed ([None] for
    [undefined], when [start] is at the end) and the array left. *)
Definition spliceOut (start : Z) (a : list A) : option A * list A :=
  let k := Z.to_nat (spliceStart (Z.of_nat (List.length a)) start) in
  (nth_error a k, firstn k a ++ skipn (S k) a).

(** [a.splice(start, 0, x)] *)
Definition spliceIn (start : Z) (x : A) (a : list A) : list A :=
  let k := Z.to_nat (spliceStart (Z.of_nat (List.length a)) start) in
  firstn k a ++ x :: skipn k a.

End Splice.

(** The drag state of the component. *)
Record Drag : Type := mkDrag {
  dragIndex : option Z;
  dropIndex : option Z
}.

(** The events of the uploader: those of the add and remove paths, and
    'reorder'. *)
Inductive DragEmit : Type :=
| reorder (fromIndex toIndex : Z)
| plain (e : Emit).

Definition noDrag : Drag := mkDrag None None.

(** handleDragStart(index, e) *)
Definition handleDragStart (index : Z) (d : Drag) : Drag :=
  mkDrag (Some index) (dropIndex d).

(** handleDragEnd() *)
Definition handleDragEnd (d : Drag) : Drag := noDrag.

(** handleItemDragOver(index) *)
Definition handleItemDragOver (index : Z) (d : Drag) : Drag :=
  match dragIndex d with
  | Some i => if i =? index then d else mkDrag (dragIndex d) (Some index)
  | None => d
  end.

(** handleItemDragLeave() *)
Definition handleItemDragLeave (d : Drag) : Drag := mkDrag (dragIndex d) None.

(** handleItemDrop(toIndex). The result is [None] when the source would
    insert [undefined] into the list, which happens when [dragIndex] is
    past the end of the list. *)
Definition handleItemDrop (toIndex : Z) (d : Drag) (s : State)
  : option (State * Drag * list DragEmit) :=
  match dragIndex d with
  | Some fromIndex =>
      if fromIndex =? toIndex then Some (s, noDrag, [])
      else
        match spliceOut fromIndex (images s) with
        | (Some movedImage, rest) =>
            let s' := set_images (spliceIn toIndex movedImage rest) s in
            Some (s', noDrag, [reorder fromIndex toIndex; plain (update (files s'))])
        | (None, _) => None
        end
  | None => Some (s, noDrag, [])
  end.

(** The list without its element at [i]. *)
Definition without (A : Type) (i : nat) (l : list A) : list A :=
  firstn i l ++ skipn (S i) l.

(** The object URLs processFiles creates: one per valid file, in order. *)
Definition mintedUrls (fileList : list File) (mint : nat -> jsstring * jsstring)
    (s : State) : list jsstring :=
  let remainingSlots := maxImages s - Z.of_nat (List.length (images s)) in
  if remainingSlots <=? 0 then []
  else
    let filesToAdd := firstn (Z.to_nat remainingSlots) fileList in
    let scan := scanFiles filesToAdd (mkScan [] None []) in
    map (fun k => snd (mint k)) (seq 0 (List.length (validFiles scan))).

(** URL.createObjectURL calls of one action. *)
Definition created (a : Action) (s : State) : list jsstring :=
  match a with
  | SelectFiles (f :: fs) mint => mintedUrls (f :: fs) mint s
  | DropFiles (Some (f :: fs)) mint => mintedUrls (f :: fs) mint s
  | _ => []
  end.

(** URL.revokeObjectURL calls of one action: removeImage revokes the
    preview of the image it removes, clearAll those of all images. *)
Definition revoked (a : Action) (s : State) : list jsstring :=
  match a with
  | RemoveImage i =>
      match imageAt i s with
      | Some image => [preview image]
      | None => []
      end
  | ClearAll => map preview (images s)
  | _ => []
  end.

(** The onUnmounted hook revokes the previews of the images left. *)
Definition onUnmounted (s : State) : list jsstring := map preview (images s).

(** All URLs created, and all revoked, along a trace. *)
Fixpoint createdAlong (tr : list Action) (s : State) : list jsstring :=
  match tr with
  | [] => []
  | a :: tr' => created a s ++ createdAlong tr' (fst (step a s))
  end.

Fixpoint revokedAlong (tr : list Action) (s : State) : list jsstring :=
  match tr with
  | [] => []
  | a :: tr' => revoked a s ++ revokedAlong tr' (fst (step a s))
  end.

(** The message of the last 'error' event of a list of events, [init] if
    there is none. *)
Fixpoint lastErrorFrom (init : option Message) (es : list Emit) : option Message :=
  match es with
  | [] => init
  | error_event m :: es' => lastErrorFrom (Some m) es'
  | _ :: es' => lastErrorFrom init es'
  end.

End UploaderDrag.

(* ===================================================================== *)
(** ** More concrete states *)
(* ===================================================================== *)

Module Scenario2.

Import JsString Dom.

Definition at_ (x y : Q) : ImageEditor.PointerEvent := ImageEditor.mkPointer x y.

(** A press at (5, 5), a drag over two points, a release, then a hover. *)
Definition dragGesture : list Gestures.DomEvent :=
  [Gestures.mousedown (at_ 5 5); Gestures.mousemove (at_ 6 5);
   Gestures.mousemove (at_ 7 6); Gestures.mouseup;
   Gestures.mousemove (at_ 9 9)].

(** The same stroke with one finger, with a second finger landing in
    between. *)
Definition touchGesture : list Gestures.DomEvent :=
  [Gestures.touchstart [at_ 5 5]; Gestures.touchmove [at_ 6 5];
   Gestures.touchmove [at_ 6 5; at_ 50 50];
   Gestures.touchmove [at_ 7 6]; Gestures.touchend].

Definition applied : EditApi.EditResult :=
  EditApi.mkEditResult true (Some Scenario.summary)
    (Some (lit "/api/edit/session/s1/current")) None.

(** The edit page with something to undo and to redo. *)
Definition midHistoryView : ProductPhotoEditView.View :=
  ProductPhotoEditView.mkView false None false (Some (lit "s1"))
    (Some (EditApi.mkEditSession (lit "s1") (lit "task-7") true true 3 1
             (lit "2025-01-01T00:00:00")))
    (lit "brighten") 30 true true (Some Scenario.paintedEditor).

Definition saveOk : EditApi.Reply EditPage.SaveResult :=
  EditApi.Resolved (EditPage.mkSaveResult true (Some (lit "/out/1.png")) None).

Definition cancelOk : EditApi.Reply EditPage.CancelResult :=
  EditApi.Resolved (EditPage.mkCancelResult true None).

(** The uploader holding three images. *)
Definition threeImages : ProductImageUploader.State :=
  fst (ProductImageUploader.processFiles
         [Scenario.png "a.png" 10; Scenario.png "b.png" 20; Scenario.png "c.png" 30]
         Scenario.mint (ProductImageUploader.initial None)).

End Scenario2.

(* ===================================================================== *)
(** ** The product photo store (stores/productPhoto) *)
(* ===================================================================== *)

Module ProductPhotoStore.

Import JsString.

(** GeneratedProductImage['status'] *)
Inductive ImageStatus : Type :=
| pending | generating | done | failed | retrying.   (* [failed] is 'error' *)

Definition status_eqb (a b : ImageStatus) : bool :=
  match a, b with
  | pending, pending | generating, generating | done, done
  | failed, failed | retrying, retrying => true
  | _, _ => false
  end.

Record GeneratedProductImage : Type := mkImage {
  index : Z;
  url : jsstring;
  status : ImageStatus;
  imageError : option jsstring      (* the optional field [error] *)
}.

(** progress.status *)
Inductive ProgressStatus : Type :=
| p_idle | p_generating | p_done | p_error.

Record Progress : Type := mkProgress {
  current : Z;
  total : Z;
  pstatus : ProgressStatus;
  message : jsstring
}.

Inductive Stage : Type := stage_input | stage_generating | stage_result.

(** The state of the store, as far as image management and generation
    read or write it. Of [config] only [variations] is kept; the previews
    are filled in by FileReader callbacks and are left out. *)
Record Store : Type := mkStore {
  stage : Stage;
  modelImage : option ProductImageUploader.File;
  productImages : list ProductImageUploader.File;
  variations : Z;                   (* config.variations *)
  progress : Progress;
  images : list GeneratedProductImage;
  taskId : option jsstring;
  error : option jsstring
}.

Definition set_stage (x : Stage) (st : Store) : Store :=
  mkStore x (modelImage st) (productImages st) (variations st) (progress st)
    (images st) (taskId st) (error st).
Definition set_productImages (x : list ProductImageUploader.File) (st : Store)
  : Store :=
  mkStore (stage st) (modelImage st) x (variations st) (progress st)
    (images st) (taskId st) (error st).
Definition set_progress (x : Progress) (st : Store) : Store :=
  mkStore (stage st) (modelImage st) (productImages st) (variations st) x
    (images st) (taskId st) (error st).
Definition set_images (x : list GeneratedProductImage) (st : Store) : Store :=
  mkStore (stage st) (modelImage st) (productImages st) (variations st)
    (progress st) x (taskId st) (error st).
Definition set_taskId (x : option jsstring) (st : Store) : Store :=
  mkStore (stage st) (modelImage st) (productImages st) (variations st)
    (progress st) (images st) x (error st).
Definition set_error (x : option jsstring) (st : Store) : Store :=
  mkStore (stage st) (modelImage st) (productImages st) (variations st)
    (progress st) (images st) (taskId st) x.

Definition set_message (m : jsstring) (p : Progress) : Progress :=
  mkProgress (current p) (total p) (pstatus p) m.
Definition set_pstatus (x : ProgressStatus) (p : Progress) : Progress :=
  mkProgress (current p) (total p) x (message p).

(** *** Getters *)

Definition canGenerate (st : Store) : bool :=
  match modelImage st with
  | Some _ => (0 <? List.length (productImages st))%nat
  | None => false
  end.

Definition isGenerating (st : Store) : bool :=
  match pstatus (progress st) with p_generating => true | _ => false end.

Definition failedImages (st : Store) : list GeneratedProductImage :=
  filter (fun img => status_eqb (status img) failed) (images st).

Definition hasFailedImages (st : Store) : bool :=
  existsb (fun img => status_eqb (status img) failed) (images st).

Definition completedImages (st : Store) : list GeneratedProductImage :=
  filter (fun img => status_eqb (status img) done) (images st).

(** *** Image management *)

(** addProductImages(files): one push per file. *)
Definition addProductImages (fs : list ProductImageUploader.File) (st : Store)
  : Store :=
  fold_left (fun st' f => set_productImages (productImages st' ++ [f]) st') fs st.

(** removeProductImage(index): [productImages.splice(index, 1)] *)
Definition removeProductImage (i : Z) (st : Store) : Store :=
  set_productImages (snd (UploaderDrag.spliceOut i (productImages st))) st.

(** clearProductImages() *)
Definition clearProductImages (st : Store) : Store := set_productImages [] st.

(** reorderProductImages(fromIndex, toIndex); [None] when the source would
    insert [undefined] into the list. *)
Definition reorderProductImages (fromIndex toIndex : Z) (st : Store)
  : option Store :=
  match UploaderDrag.spliceOut fromIndex (productImages st) with
  | (Some movedImage, rest) =>
      Some (set_productImages (UploaderDrag.spliceIn toIndex movedImage rest) st)
  | (None, _) => None
  end.

(** *** Generation *)

(** The server-sent events, as the callbacks read them. *)
Inductive SseEvent : Type :=
| ev_start (task_id message : jsstring)
| ev_progress (current total : Z) (message : option jsstring)
| ev_complete (index : Z) (image_url : jsstring)
| ev_error (index : option Z) (error : jsstring)
| ev_finish (success : bool).

(** What one call of generateProductPhoto or retryGeneration delivers: the
    events of the stream in order and then, if the request or the stream
    failed, the message of the error passed to onStreamError. *)
Record Stream : Type := mkStream {
  events : list SseEvent;
  streamError : option jsstring
}.

(** [images.find(i => i.index === index)], as the position found. *)
Fixpoint findIndex (i : Z) (l : list GeneratedProductImage) : option nat :=
  match l with
  | [] => None
  | img :: l' =>
      if index img =? i then Some 0%nat
      else option_map S (findIndex i l')
  end.

Definition find (i : Z) (l : list GeneratedProductImage)
  : option GeneratedProductImage :=
  match findIndex i l with
  | Some k => nth_error l k
  | None => None
  end.

(** Assignments to the fields of the object [find] returned: the list holds
    the object itself, so the first image with that index changes in
    place. *)
Fixpoint updateFound (i : Z) (f : GeneratedProductImage -> GeneratedProductImage)
    (l : list GeneratedProductImage) : list GeneratedProductImage :=
  match l with
  | [] => []
  | img :: l' =>
      if index img =? i then f img :: l'
      else img :: updateFound i f l'
  end.

(** The same for [images[k]]. *)
Fixpoint updateAt (k : nat) (f : GeneratedProductImage -> GeneratedProductImage)
    (l : list GeneratedProductImage) : list GeneratedProductImage :=
  match l, k with
  | [], _ => []
  | img :: l', O => f img :: l'
  | img :: l', S k' => img :: updateAt k' f l'
  end.

Definition markDone (u : jsstring) (img : GeneratedProductImage)
  : GeneratedProductImage :=
  mkImage (index img) u done (imageError img).

Definition markFailed (e : jsstring) (img : GeneratedProductImage)
  : GeneratedProductImage :=
  mkImage (index img) (url img) failed (Some e).

Definition markGenerating (img : GeneratedProductImage) : GeneratedProductImage :=
  match status img with
  | pending => mkImage (index img) (url img) generating (imageError img)
  | _ => img
  end.

Definition markRetrying (img : GeneratedProductImage) : GeneratedProductImage :=
  mkImage (index img) (url img) retrying None.

(** "请先上传模特图和商品图" *)
Definition msgUploadFirst : jsstring :=
  [0x8BF7; 0x5148; 0x4E0A; 0x4F20; 0x6A21; 0x7279; 0x56FE; 0x548C; 0x5546;
   0x54C1; 0x56FE]%N.
(** "准备生成..." *)
Definition msgPreparing : jsstring :=
  [0x51C6; 0x5907; 0x751F; 0x6210; 0x2E; 0x2E; 0x2E]%N.
(** "生成完成" *)
Definition msgGenerated : jsstring := [0x751F; 0x6210; 0x5B8C; 0x6210]%N.
(** "生成失败" *)
Definition msgGenerationFailed : jsstring := [0x751F; 0x6210; 0x5931; 0x8D25]%N.
(** "没有可重试的任务" *)
Definition msgNoTask : jsstring :=
  [0x6CA1; 0x6709; 0x53EF; 0x91CD; 0x8BD5; 0x7684; 0x4EFB; 0x52A1]%N.
(** "全部完成" *)
Definition msgAllDone : jsstring := [0x5168; 0x90E8; 0x5B8C; 0x6210]%N.

(** The callbacks startGeneration passes to generateProductPhoto. *)
Definition onEvent (ev : SseEvent) (st : Store) : Store :=
  match ev with
  | ev_start task_id msg =>
      set_progress (set_message msg (progress st)) (set_taskId (Some task_id) st)
  | ev_progress cur tot msg =>
      let p := progress st in
      let p1 := mkProgress cur tot (pstatus p)
                  (match msg with
                   | Some (c :: m) => c :: m
                   | _ => message p
                   end) in
      let st1 := set_progress p1 st in
      if (0 <? cur) && (cur <=? Z.of_nat (List.length (images st1)))
      then set_images (updateAt (Z.to_nat (cur - 1)) markGenerating (images st1)) st1
      else st1
  | ev_complete i u =>
      set_images (updateFound i (markDone u) (images st)) st
  | ev_error (Some i) e =>
      set_images (updateFound i (markFailed e) (images st)) st
  | ev_error None e => set_error (Some e) st
  | ev_finish success =>
      set_stage stage_result
        (set_progress
           (mkProgress (current (progress st)) (total (progress st))
              (if success then p_done else p_error)
              (if success then msgGenerated else msgGenerationFailed))
           st)
  end.

Definition onStreamError (e : jsstring) (st : Store) : Store :=
  set_progress
    (mkProgress (current (progress st)) (total (progress st)) p_error
       msgGenerationFailed)
    (set_error (Some e) st).

Definition deliverStream (onEv : SseEvent -> Store -> Store)
    (onErr : jsstring -> Store -> Store) (r : Stream) (st : Store) : Store :=
  let st1 := fold_left (fun s ev => onEv ev s) (events r) st in
  match streamError r with
  | Some e => onErr e st1
  | None => st1
  end.

(** [Array.from({ length: variations }, (_, i) => ...)] *)
Definition freshImage (i : nat) : GeneratedProductImage :=
  mkImage (Z.of_nat i) [] pending None.

Definition freshImages (n : Z) : list GeneratedProductImage :=
  map freshImage (seq 0 (Z.to_nat n)).

(** The requests of the store to the generation API. *)
Inductive Request : Type :=
| generate (model : ProductImageUploader.File)
    (products : list ProductImageUploader.File) (variations : Z)
| retry (taskId : jsstring) (index : Z).

(** startGeneration(), on what the stream of the request delivers. *)
Definition startGeneration (r : Stream) (st : Store) : Store * list Request :=
  match modelImage st with
  | Some model =>
      if canGenerate st then
        let st1 :=
          set_images (freshImages (variations st))
            (set_progress (mkProgress 0 (variations st) p_generating msgPreparing)
               (set_error None (set_stage stage_generating st))) in
        (deliverStream onEvent onStreamError r st1,
         [generate model (productImages st) (variations st)])
      else (set_error (Some msgUploadFirst) st, [])
  | None => (set_error (Some msgUploadFirst) st, [])
  end.

(** The callbacks retryFailedImage passes to retryGeneration. *)
Definition onRetryEvent (ev : SseEvent) (st : Store) : Store :=
  match ev with
  | ev_start _ msg => set_progress (set_message msg (progress st)) st
  | ev_progress _ _ (Some (c :: m)) =>
      set_progress (set_message (c :: m) (progress st)) st
  | ev_progress _ _ _ => st
  | ev_complete i u =>
      set_images (updateFound i (markDone u) (images st)) st
  | ev_error (Some i) e =>
      set_images (updateFound i (markFailed e) (images st)) st
  | ev_error None _ => st
  | ev_finish _ =>
      if hasFailedImages st then st
      else set_progress
             (set_message msgAllDone (set_pstatus p_done (progress st))) st
  end.

Definition onRetryStreamError (i : Z) (e : jsstring) (st : Store) : Store :=
  set_images (updateFound i (markFailed e) (images st)) st.

(** retryFailedImage(index) *)
Definition retryFailedImage (i : Z) (r : Stream) (st : Store)
  : Store * list Request :=
  match taskId st with
  | Some (c :: t) =>
      match find i (images st) with
      | Some img =>
          if status_eqb (status img) failed then
            let st1 := set_images (updateFound i markRetrying (images st)) st in
            (deliverStream onRetryEvent (onRetryStreamError i) r st1,
             [retry (c :: t) i])
          else (st, [])
      | None => (st, [])
      end
  | _ => (set_error (Some msgNoTask) st, [])
  end.

(** retryAllFailed(): the failed indices are taken once, at the start;
    [reply i] is what the stream of the retry request for index [i]
    delivers. *)
Definition retryAllFailed (reply : Z -> Stream) (st : Store)
  : Store * list Request :=
  fold_left
    (fun acc i =>
       let '(st', reqs) := acc in
       let '(st'', reqs') := retryFailedImage i (reply i) st' in
       (st'', reqs ++ reqs'))
    (map index (failedImages st)) (st, []).

(** *** Image URLs *)

(** String.prototype.startsWith *)
Fixpoint startsWith (p s : jsstring) : bool :=
  match p, s with
  | [], _ => true
  | a :: p', b :: s' => (a =? b)%N && startsWith p' s'
  | _ :: _, [] => false
  end.

(** getProductPhotoImageUrl(taskId, filename, thumbnail) of the API module *)
Definition getProductPhotoImageUrl (task filename : jsstring) (thumbnail : bool)
  : jsstring :=
  lit "/api" ++ lit "/product-photo/images/" ++ task ++ lit "/" ++ filename
  ++ (if thumbnail then lit "?thumbnail=true" else lit "?thumbnail=false").

(** getImageUrl(index, thumbnail) *)
Definition getImageUrl (i : Z) (thumbnail : bool) (st : Store) : jsstring :=
  match find i (images st), taskId st with
  | Some img, Some (c :: t) =>
      match url img with
      | [] => []
      | _ :: _ =>
          if startsWith (lit "http") (url img) || startsWith (lit "/") (url img)
          then url img
          else getProductPhotoImageUrl (c :: t) (url img) thumbnail
      end
  | _, _ => []
  end.

(** *** Leaving the result *)

Definition idleProgress : Progress := mkProgress 0 0 p_idle [].

(** backToInput() *)
Definition backToInput (st : Store) : Store := set_stage stage_input st.

(** regenerate() *)
Definition regenerate (st : Store) : Store :=
  mkStore stage_input (modelImage st) (productImages st) (variations st)
    idleProgress [] None None.

(** reset(); the default configuration asks for one variation. *)
Definition reset (st : Store) : Store :=
  mkStore stage_input None [] 1 idleProgress [] None None.

(** *** What the proofs speak about *)

(** The life of one slot of [images] under the events of a generation:
    only the events that name the slot touch it. *)
Definition slotStep (ev : SseEvent) (img : GeneratedProductImage)
  : GeneratedProductImage :=
  match ev with
  | ev_progress cur _ _ => if cur - 1 =? index img then markGenerating img else img
  | ev_complete i u => if i =? index img then markDone u img else img
  | ev_error (Some i) e => if i =? index img then markFailed e img else img
  | _ => img
  end.

Definition slotAfter (evs : list SseEvent) (img : GeneratedProductImage)
  : GeneratedProductImage :=
  fold_left (fun im ev => slotStep ev im) evs img.

(** The images are numbered 0, 1, ... in list order. *)
Definition numbered (l : list GeneratedProductImage) : Prop :=
  map index l = map Z.of_nat (seq 0 (List.length l)).

Definition isFinish (ev : SseEvent) : bool :=
  match ev with ev_finish _ => true | _ => false end.

(** The [success] of the last 'finish' event, if any. *)
Definition lastFinish (evs : list SseEvent) : option bool :=
  fold_left (fun acc ev => match ev with ev_finish b => Some b | _ => acc end)
    evs None.

Definition requestIndex (r : Request) : option Z :=
  match r with retry _ i => Some i | generate _ _ _ => None end.

Definition requestTask (r : Request) : option jsstring :=
  match r with retry t _ => Some t | generate _ _ _ => None end.

End ProductPhotoStore.

(* ===================================================================== *)
(** ** The product photo page (views/ProductPhotoView.vue) *)
(* ===================================================================== *)

Module ProductPhotoView.

Import JsString ProductPhotoStore.

(** The listeners of the page on the events of the product image uploader:
    handleProductImagesUpdate, handleProductImagesAdd,
    handleProductImageRemove and handleProductImagesReorder. The page does
    not listen to 'error'. [None] when reorderProductImages would insert
    [undefined]. *)
Definition onUploaderEvent (e : UploaderDrag.DragEmit) (st : Store)
  : option Store :=
  match e with
  | UploaderDrag.plain (ProductImageUploader.update fs) =>
      Some (set_productImages fs st)
  | UploaderDrag.plain (ProductImageUploader.add fs) =>
      Some (addProductImages fs st)
  | UploaderDrag.plain (ProductImageUploader.remove i) =>
      Some (removeProductImage i st)
  | UploaderDrag.plain (ProductImageUploader.error_event _) => Some st
  | UploaderDrag.reorder fromIndex toIndex =>
      reorderProductImages fromIndex toIndex st
  end.

Fixpoint onUploaderEvents (es : list UploaderDrag.DragEmit) (st : Store)
  : option Store :=
  match es with
  | [] => Some st
  | e :: es' =>
      match onUploaderEvent e st with
      | Some st' => onUploaderEvents es' st'
      | None => None
      end
  end.

(** The events other than the 'update' snapshot. *)
Definition incremental (e : UploaderDrag.DragEmit) : bool :=
  match e with
  | UploaderDrag.plain (ProductImageUploader.update _) => false
  | _ => true
  end.

(** What the user does to the uploader of the page. *)
Inductive UploaderAction : Type :=
| Listed (a : ProductImageUploader.Action)
| Dropped (toIndex : Z).

(** One action on the uploader, with its drag state: the new state and the
    events, [None] when handleItemDrop would insert [undefined]. *)
Definition uploaderStep (a : UploaderAction) (d : UploaderDrag.Drag)
    (s : ProductImageUploader.State)
  : option (ProductImageUploader.State * list UploaderDrag.DragEmit) :=
  match a with
  | Listed a' =>
      let '(s', es) := ProductImageUploader.step a' s in
      Some (s', map UploaderDrag.plain es)
  | Dropped toIndex =>
      match UploaderDrag.handleItemDrop toIndex d s with
      | Some (s', _, es) => Some (s', es)
      | None => None
      end
  end.

(** A list of 'error' events only. *)
Definition onlyErrors (es : list ProductImageUploader.Emit) : Prop :=
  Forall (fun e => exists m, e = ProductImageUploader.error_event m) es.

(** progressPercent, computed in binary64 as the code computes it:
    [Math.round((current / total) * 100)]. *)
Definition progressPercent (st : Store) : JsNumber.number :=
  if total (progress st) =? 0 then JsNumber.ofInt 0
  else JsNumber.round
         (JsNumber.mul
            (JsNumber.div (JsNumber.ofInt (current (progress st)))
               (JsNumber.ofInt (total (progress st))))
            (JsNumber.ofInt 100)).

End ProductPhotoView.

(* ===================================================================== *)
(** ** The product photo API (api/productPhoto): reading the event stream *)
(* ===================================================================== *)

Module ProductPhotoApi.

Import JsString.

(** The line feed, "\n". *)
Definition LF : N := 10%N.

Definition startsLF (s : jsstring) : bool :=
  match s with
  | c :: _ => (c =? LF)%N
  | [] => false
  end.

(** Put one more code unit in front of the first piece. *)
Definition consHead (c : N) (pieces : list jsstring) : list jsstring :=
  match pieces with
  | p :: ps => (c :: p) :: ps
  | [] => [[c]]
  end.

(** [s.split('\n\n')]: the pieces between the occurrences of the separator,
    found from the left and not overlapping. *)
Fixpoint split2LF (s : jsstring) : list jsstring :=
  match s with
  | [] => [[]]
  | c :: rest =>
      match rest with
      | c' :: rest' =>
          if ((c =? LF) && (c' =? LF))%N then [] :: split2LF rest'
          else consHead c (split2LF rest)
      | [] => consHead c (split2LF rest)
      end
  end.

(** ECMAScript LineTerminator: what [.] does not match, and where [^] and
    [$] match under the [m] flag. *)
Definition isLineTerminator (c : N) : bool :=
  existsb (N.eqb c) [0x0A; 0x0D; 0x2028; 0x2029]%N.

(** The lines of a text: the pieces between line terminators. *)
Fixpoint linesOf (s : jsstring) : list jsstring :=
  match s with
  | [] => [[]]
  | c :: rest =>
      if isLineTerminator c then [] :: linesOf rest
      else consHead c (linesOf rest)
  end.

Fixpoint stripPrefix (p s : jsstring) : option jsstring :=
  match p, s with
  | [], _ => Some s
  | a :: p', b :: s' => if (a =? b)%N then stripPrefix p' s' else None
  | _ :: _, [] => None
  end.

(** The group of [/^prefix(.+)$/] on one line: the rest of the line, which
    must not be empty. *)
Definition capture (prefix line : jsstring) : option jsstring :=
  match stripPrefix prefix line with
  | Some (c :: r) => Some (c :: r)
  | _ => None
  end.

Fixpoint firstCapture (prefix : jsstring) (ls : list jsstring) : option jsstring :=
  match ls with
  | [] => None
  | l :: ls' =>
      match capture prefix l with
      | Some g => Some g
      | None => firstCapture prefix ls'
      end
  end.

(** [block.match(/^prefix(.+)$/m)], as group 1 of the match: the search
    takes the first line that starts with the prefix and goes on. *)
Definition matchField (prefix block : jsstring) : option jsstring :=
  firstCapture prefix (linesOf block).

(** What a request delivers: it fails before the first read (the message
    of the error thrown), or the body arrives as decoded chunks of text
    and the reading may fail after them. *)
Inductive Response : Type :=
| Failed (message : jsstring)
| Streamed (chunks : list jsstring) (failure : option jsstring).

Section Callbacks.

(** The values JSON.parse returns, and JSON.parse itself ([None] when it
    throws). *)
Variable Data : Type.
Variable JSON_parse : jsstring -> option Data.

(** The calls the reader makes: the six callbacks, and console.error for
    data that does not parse. *)
Inductive Callback : Type :=
| onStart (data : Data)
| onProgress (data : Data)
| onComplete (data : Data)
| onError (data : Data)
| onFinish (data : Data)
| onStreamError (message : jsstring)
| consoleError (eventData : jsstring).

(** [switch (eventType)] *)
Definition dispatch (eventType : jsstring) (data : Data) : list Callback :=
  if eqb eventType (lit "start") then [onStart data]
  else if eqb eventType (lit "progress") then [onProgress data]
  else if eqb eventType (lit "complete") then [onComplete data]
  else if eqb eventType (lit "error") then [onError data]
  else if eqb eventType (lit "finish") then [onFinish data]
  else [].

(** The body of [for (const line of lines)]. *)
Definition handleLine (line : jsstring) : list Callback :=
  match trim line with
  | [] => []
  | _ :: _ =>
      match matchField (lit "event: ") line, matchField (lit "data: ") line with
      | Some eventMatch, Some dataMatch =>
          let eventType := trim eventMatch in
          let eventData := trim dataMatch in
          match JSON_parse eventData with
          | Some data => dispatch eventType data
          | None => [consoleError eventData]
          end
      | _, _ => []
      end
  end.

(** One turn of the read loop on a chunk: the new buffer and the calls
    made. *)
Definition readChunk (chunk : jsstring) (buffer : jsstring)
  : jsstring * list Callback :=
  let lines := split2LF (buffer ++ chunk) in
  (last lines [], flat_map handleLine (removelast lines)).

Fixpoint readLoop (chunks : list jsstring) (buffer : jsstring)
  : jsstring * list Callback :=
  match chunks with
  | [] => (buffer, [])
  | chunk :: chunks' =>
      let '(buffer1, out1) := readChunk chunk buffer in
      let '(buffer2, out2) := readLoop chunks' buffer1 in
      (buffer2, out1 ++ out2)
  end.

(** The calls of generateProductPhoto, once the request is sent. *)
Definition generateProductPhoto (r : Response) : list Callback :=
  match r with
  | Failed m => [onStreamError m]
  | Streamed chunks failure =>
      snd (readLoop chunks [])
      ++ match failure with
         | Some m => [onStreamError m]
         | None => []
         end
  end.

(** retryGeneration reads its stream with the same loop. *)
Definition retryGeneration (r : Response) : list Callback :=
  generateProductPhoto r.

(** *** What the proofs speak about *)

(** A frame as the server writes it, without the blank line that ends
    it. *)
Definition frame (eventType eventData : jsstring) : jsstring :=
  lit "event: " ++ eventType ++ LF :: lit "data: " ++ eventData.

Definition noTerminator (s : jsstring) : bool :=
  forallb (fun c => negb (isLineTerminator c)) s.

(** A field value that fits on one line: not empty, no line terminator. *)
Definition oneLine (s : jsstring) : Prop :=
  s <> [] /\ noTerminator s = true.

(** The text of a stream of frames, each ended by a blank line. *)
Definition streamText (frames : list (jsstring * jsstring)) : jsstring :=
  List.concat (map (fun f => frame (fst f) (snd f) ++ [LF; LF]) frames).

(** What a well-formed frame makes the reader call. *)
Definition delivered (f : jsstring * jsstring) : list Callback :=
  match JSON_parse (trim (snd f)) with
  | Some data => dispatch (trim (fst f)) data
  | None => [consoleError (trim (snd f))]
  end.

End Callbacks.

Arguments onStreamError {Data} message.
Arguments consoleError {Data} eventData.

End ProductPhotoApi.

(* ===================================================================== *)
(** ** Concrete states of the product photo page *)
(* ===================================================================== *)

Module Scenario3.

Import JsString.

(** A store ready to generate three variations. *)
Definition readyStore : ProductPhotoStore.Store :=
  ProductPhotoStore.mkStore ProductPhotoStore.stage_input
    (Some (Scenario.png "model.png" 100))
    (ProductImageUploader.files Scenario2.threeImages)
    3 ProductPhotoStore.idleProgress [] None None.

(** A stream in which the second image fails and an event names an image
    that does not exist. *)
Definition mixedStream : ProductPhotoStore.Stream :=
  ProductPhotoStore.mkStream
    [ProductPhotoStore.ev_start (lit "task-7") (lit "started");
     ProductPhotoStore.ev_progress 1 3 None;
     ProductPhotoStore.ev_complete 0 (lit "0.png");
     ProductPhotoStore.ev_progress 2 3 (Some (lit "second"));
     ProductPhotoStore.ev_error (Some 1) (lit "provider timeout");
     ProductPhotoStore.ev_complete 5 (lit "5.png");
     ProductPhotoStore.ev_finish false]
    None.

(** The uploader after the third image is dragged to the front. *)
Definition draggedToFront
  : ProductImageUploader.State * list UploaderDrag.DragEmit :=
  match ProductPhotoView.uploaderStep (ProductPhotoView.Dropped 0)
          (UploaderDrag.handleDragStart 2 UploaderDrag.noDrag)
          Scenario2.threeImages with
  | Some r => r
  | None => (Scenario2.threeImages, [])
  end.

(** One of three images done. *)
Definition oneOfThree : ProductPhotoStore.Store :=
  ProductPhotoStore.set_progress
    (ProductPhotoStore.mkProgress 1 3 ProductPhotoStore.p_generating [])
    readyStore.

(** A stand-in for JSON.parse: objects parse, as themselves. *)
Definition parseObject (s : jsstring) : option jsstring :=
  if ProductPhotoStore.startsWith (lit "{") s then Some s else None.

Definition twoFrames : list (jsstring * jsstring) :=
  [(lit "start", lit "{}"); (lit "finish ", lit "{}")].

(** The text of the two frames, cut in the middle of the first. *)
Definition twoFramesCut : list jsstring :=
  [firstn 9 (ProductPhotoApi.streamText twoFrames);
   skipn 9 (ProductPhotoApi.streamText twoFrames)].

End Scenario3.

(* ===================================================================== *)
(** ** The template store (stores/template) *)
(* ===================================================================== *)

Module TemplateStore.

Import JsString.

Record Template : Type := mkTemplate {
  id : jsstring;
  name : jsstring;
  thumbnail_url : jsstring;
  created_at : jsstring
}.

Record TemplateState : Type := mkTemplateState {
  templates : list Template;
  selectedTemplateId : option jsstring;
  loading : bool;
  error : option jsstring;
  loaded : bool
}.

Definition initial : TemplateState := mkTemplateState [] None false None false.

Definition set_templates (x : list Template) (st : TemplateState) :=
  mkTemplateState x (selectedTemplateId st) (loading st) (error st) (loaded st).
Definition set_selectedTemplateId (x : option jsstring) (st : TemplateState) :=
  mkTemplateState (templates st) x (loading st) (error st) (loaded st).
Definition set_loading (x : bool) (st : TemplateState) :=
  mkTemplateState (templates st) (selectedTemplateId st) x (error st) (loaded st).
Definition set_error (x : option jsstring) (st : TemplateState) :=
  mkTemplateState (templates st) (selectedTemplateId st) (loading st) x (loaded st).
Definition set_loaded (x : bool) (st : TemplateState) :=
  mkTemplateState (templates st) (selectedTemplateId st) (loading st) (error st) x.

(** The replies of the template API. *)
Record ListResult : Type := mkListResult {
  list_success : bool;
  list_templates : option (list Template);
  list_error : option jsstring
}.

Record SaveResult : Type := mkSaveResult {
  save_success : bool;
  template_id : option jsstring;
  save_error : option jsstring
}.

Record DeleteResult : Type := mkDeleteResult {
  delete_success : bool;
  delete_error : option jsstring
}.

(** The requests of the store, and what it logs. *)
Inductive Request : Type :=
| listTemplates
| saveTemplate (name : jsstring)
| deleteTemplate (templateId : jsstring).

Inductive Effect : Type :=
| Call (r : Request)
| ConsoleError (label : jsstring) (e : EditApi.Thrown).

(** "加载模板失败" and the label "加载模板列表失败:" *)
Definition msgLoadFailed : jsstring :=
  [0x52A0; 0x8F7D; 0x6A21; 0x677F; 0x5931; 0x8D25]%N.
Definition logLoadFailed : jsstring :=
  [0x52A0; 0x8F7D; 0x6A21; 0x677F; 0x5217; 0x8868; 0x5931; 0x8D25; 0x3A]%N.
(** "保存模板失败" and the label "保存模板失败:" *)
Definition msgSaveFailed : jsstring :=
  [0x4FDD; 0x5B58; 0x6A21; 0x677F; 0x5931; 0x8D25]%N.
Definition logSaveFailed : jsstring :=
  [0x4FDD; 0x5B58; 0x6A21; 0x677F; 0x5931; 0x8D25; 0x3A]%N.
(** "删除模板失败" and the label "删除模板失败:" *)
Definition msgDeleteFailed : jsstring :=
  [0x5220; 0x9664; 0x6A21; 0x677F; 0x5931; 0x8D25]%N.
Definition logDeleteFailed : jsstring :=
  [0x5220; 0x9664; 0x6A21; 0x677F; 0x5931; 0x8D25; 0x3A]%N.

(** [e instanceof Error ? e.message : fallback] *)
Definition messageOf (e : EditApi.Thrown) (fallback : jsstring) : jsstring :=
  match e with
  | EditApi.ErrorObject m => m
  | EditApi.OtherValue => fallback
  end.

(** [templates.find(t => t.id === templateId)] *)
Definition getTemplateById (templateId : jsstring) (st : TemplateState)
  : option Template :=
  List.find (fun t => eqb (id t) templateId) (templates st).

(** The getter selectedTemplate. *)
Definition selectedTemplate (st : TemplateState) : option Template :=
  match selectedTemplateId st with
  | Some (c :: s) => getTemplateById (c :: s) st
  | _ => None
  end.

(** loadTemplates(), on the reply to the list request. *)
Definition loadTemplates (reply : EditApi.Reply ListResult) (st : TemplateState)
  : TemplateState * list Effect :=
  if loading st then (st, [])
  else
    let st1 := set_error None (set_loading true st) in
    match reply with
    | EditApi.Resolved result =>
        let st2 :=
          match list_success result, list_templates result with
          | true, Some ts => set_loaded true (set_templates ts st1)
          | _, _ =>
              set_error (Some (or_default (list_error result) msgLoadFailed)) st1
          end in
        (set_loading false st2, [Call listTemplates])
    | EditApi.Rejected e =>
        (set_loading false (set_error (Some (messageOf e msgLoadFailed)) st1),
         [Call listTemplates; ConsoleError logLoadFailed e])
    end.

(** refreshTemplates() *)
Definition refreshTemplates (reply : EditApi.Reply ListResult)
    (st : TemplateState) : TemplateState * list Effect :=
  loadTemplates reply (set_loaded false st).

(** saveNewTemplate(name, image, metadata), on the reply to the save
    request and the reply a list request would get; the result is the
    state, the effects and the value returned. *)
Definition saveNewTemplate (templateName : jsstring)
    (saved : EditApi.Reply SaveResult) (listed : EditApi.Reply ListResult)
    (st : TemplateState) : TemplateState * list Effect * option jsstring :=
  let st1 := set_error None (set_loading true st) in
  match saved with
  | EditApi.Resolved result =>
      match save_success result, template_id result with
      | true, Some (c :: tid) =>
          let '(st2, effects) := refreshTemplates listed st1 in
          (set_loading false st2, Call (saveTemplate templateName) :: effects,
           Some (c :: tid))
      | _, _ =>
          (set_loading false
             (set_error (Some (or_default (save_error result) msgSaveFailed)) st1),
           [Call (saveTemplate templateName)], None)
      end
  | EditApi.Rejected e =>
      (set_loading false (set_error (Some (messageOf e msgSaveFailed)) st1),
       [Call (saveTemplate templateName); ConsoleError logSaveFailed e], None)
  end.

(** removeTemplate(templateId); the value returned tells whether it
    succeeded. *)
Definition removeTemplate (templateId : jsstring)
    (reply : EditApi.Reply DeleteResult) (st : TemplateState)
  : TemplateState * list Effect * bool :=
  let st1 := set_error None (set_loading true st) in
  match reply with
  | EditApi.Resolved result =>
      if delete_success result then
        let st2 :=
          set_templates
            (filter (fun t => negb (eqb (id t) templateId)) (templates st1)) st1 in
        let st3 :=
          match selectedTemplateId st2 with
          | Some sel =>
              if eqb sel templateId then set_selectedTemplateId None st2 else st2
          | None => st2
          end in
        (set_loading false st3, [Call (deleteTemplate templateId)], true)
      else
        (set_loading false
           (set_error (Some (or_default (delete_error result) msgDeleteFailed)) st1),
         [Call (deleteTemplate templateId)], false)
  | EditApi.Rejected e =>
      (set_loading false (set_error (Some (messageOf e msgDeleteFailed)) st1),
       [Call (deleteTemplate templateId); ConsoleError logDeleteFailed e], false)
  end.

(** selectTemplate(templateId) and clearSelection() *)
Definition selectTemplate (templateId : option jsstring) (st : TemplateState)
  : TemplateState := set_selectedTemplateId templateId st.

Definition clearSelection (st : TemplateState) : TemplateState :=
  set_selectedTemplateId None st.

(** getImageUrl(templateId), that is getTemplateImageUrl of the API *)
Definition getImageUrl (templateId : jsstring) : jsstring :=
  lit "/api" ++ lit "/templates/" ++ templateId.

(** The requests among the effects. *)
Definition calls (es : list Effect) : list Request :=
  flat_map (fun e => match e with Call r => [r] | _ => [] end) es.

End TemplateStore.

(* ===================================================================== *)
(** ** The model image uploader (ModelImageUploader.vue) *)
(* ===================================================================== *)

Module ModelImageUploader.

Import JsString.

Definition File : Type := ProductImageUploader.File.

Definition ACCEPTED_FORMATS : list jsstring :=
  [lit "image/png"; lit "image/jpeg"; lit "image/webp"].

Definition maxSize : Z := 10 * 1024 * 1024.

(** The two messages of processFile. *)
Inductive Message : Type := UnsupportedFormat | FileTooLarge.

Inductive Emit : Type :=
| update_modelValue (value : option File)
| update_previewUrl (value : option jsstring)
| templateSelected (templateId : jsstring)
| error_event (message : Message).

(** What the component does to the outside: events, and the object URLs it
    creates and revokes. *)
Inductive Effect : Type :=
| Emitted (e : Emit)
| Created (url : jsstring)
| Revoked (url : jsstring).

Record State : Type := mkState {
  isDragOver : bool;
  error : option Message;
  selectedTemplateId : option jsstring;
  localPreviewUrl : option jsstring
}.

Definition initial : State := mkState false None None None.

Definition set_isDragOver (x : bool) (s : State) : State :=
  mkState x (error s) (selectedTemplateId s) (localPreviewUrl s).
Definition set_error (x : option Message) (s : State) : State :=
  mkState (isDragOver s) x (selectedTemplateId s) (localPreviewUrl s).
Definition set_selectedTemplateId (x : option jsstring) (s : State) : State :=
  mkState (isDragOver s) (error s) x (localPreviewUrl s).
Definition set_localPreviewUrl (x : option jsstring) (s : State) : State :=
  mkState (isDragOver s) (error s) (selectedTemplateId s) x.

(** [if (localPreviewUrl.value) URL.revokeObjectURL(localPreviewUrl.value)] *)
Definition revokeLocal (s : State) : list Effect :=
  match localPreviewUrl s with
  | Some (c :: u) => [Revoked (c :: u)]
  | _ => []
  end.

(** processFile(file); [minted] is what URL.createObjectURL returns. *)
Definition processFile (file : File) (minted : jsstring) (s : State)
  : State * list Effect :=
  let s0 := set_error None s in
  if negb (includes ACCEPTED_FORMATS (ProductImageUploader.type file))
  then (set_error (Some UnsupportedFormat) s0,
        [Emitted (error_event UnsupportedFormat)])
  else if maxSize <? ProductImageUploader.size file
  then (set_error (Some FileTooLarge) s0, [Emitted (error_event FileTooLarge)])
  else
    (set_selectedTemplateId None (set_localPreviewUrl (Some minted) s0),
     revokeLocal s0
     ++ [Created minted;
         Emitted (update_modelValue (Some file));
         Emitted (update_previewUrl (Some minted))]).

(** handleDrop(e), on [e.dataTransfer?.files] *)
Definition handleDrop (dropped : option (list File)) (minted : jsstring)
    (s : State) : State * list Effect :=
  let s1 := set_isDragOver false s in
  match dropped with
  | Some (f :: _) => processFile f minted s1
  | _ => (s1, [])
  end.

(** handleFileSelect(e), on [target.files] *)
Definition handleFileSelect (selected : option (list File)) (minted : jsstring)
    (s : State) : State * list Effect :=
  match selected with
  | Some (f :: _) => processFile f minted s
  | _ => (s, [])
  end.

(** clearImage() *)
Definition clearImage (s : State) : State * list Effect :=
  let s1 :=
    match localPreviewUrl s with
    | Some (c :: u) => set_localPreviewUrl None s
    | _ => s
    end in
  (set_error None (set_selectedTemplateId None s1),
   revokeLocal s
   ++ [Emitted (update_modelValue None); Emitted (update_previewUrl None)]).

(** selectTemplate(template) *)
Definition selectTemplate (templateId : jsstring) (s : State)
  : State * list Effect :=
  let s1 := set_selectedTemplateId (Some templateId) (set_error None s) in
  let s2 :=
    match localPreviewUrl s1 with
    | Some (c :: u) => set_localPreviewUrl None s1
    | _ => s1
    end in
  (s2,
   revokeLocal s1
   ++ [Emitted (update_previewUrl (Some (TemplateStore.getImageUrl templateId)));
       Emitted (templateSelected templateId)]).

(** The onUnmounted hook. *)
Definition onUnmounted (s : State) : list Effect := revokeLocal s.

(** What the user does to the component. *)
Inductive Action : Type :=
| DropFiles (dropped : option (list File)) (minted : jsstring)
| SelectFiles (selected : option (list File)) (minted : jsstring)
| ClearImage
| SelectTemplate (templateId : jsstring).

Definition step (a : Action) (s : State) : State * list Effect :=
  match a with
  | DropFiles fs minted => handleDrop fs minted s
  | SelectFiles fs minted => handleFileSelect fs minted s
  | ClearImage => clearImage s
  | SelectTemplate t => selectTemplate t s
  end.

Fixpoint run (tr : list Action) (s : State) : State * list Effect :=
  match tr with
  | [] => (s, [])
  | a :: tr' =>
      let '(s1, es1) := step a s in
      let '(s2, es2) := run tr' s1 in
      (s2, es1 ++ es2)
  end.

(** *** What the proofs speak about *)

Definition createdUrls (es : list Effect) : list jsstring :=
  flat_map (fun e => match e with Created u => [u] | _ => [] end) es.

Definition revokedUrls (es : list Effect) : list jsstring :=
  flat_map (fun e => match e with Revoked u => [u] | _ => [] end) es.

(** The files handed to the parent as the model image. *)
Definition modelValues (es : list Effect) : list (option File) :=
  flat_map (fun e => match e with
                     | Emitted (update_modelValue v) => [v]
                     | _ => []
                     end) es.

(** The object URL the component holds, if any. *)
Definition live (s : State) : list jsstring :=
  match localPreviewUrl s with
  | Some u => [u]
  | None => []
  end.

(** URL.createObjectURL returns a non-empty string. *)
Definition mintsUrl (a : Action) : Prop :=
  match a with
  | DropFiles _ minted | SelectFiles _ minted => minted <> []
  | _ => True
  end.

Definition acceptable (f : File) : bool :=
  includes ACCEPTED_FORMATS (ProductImageUploader.type f)
  && (ProductImageUploader.size f <=? maxSize).

(** A model image handed to the parent has passed the validation. *)
Definition validModel (v : option File) : Prop :=
  match v with
  | Some f => acceptable f = true
  | None => True
  end.

(** The component holds no URL, or a non-empty one. *)
Definition holdsUrl (s : State) : Prop := localPreviewUrl s <> Some [].

(** A session with the component: a valid file, a template, a rejected
    file, another valid file. *)
Definition session : list Action :=
  [SelectFiles (Some [Scenario.png "m1.png" 100]) (lit "blob:1");
   SelectTemplate (lit "t1");
   DropFiles (Some [Scenario.gif "m2.gif" 100]) (lit "blob:2");
   DropFiles (Some [Scenario.png "m3.png" 100]) (lit "blob:3")].

End ModelImageUploader.

(* ===================================================================== *)
(** * Properties of the edit session state machine *)
(* ===================================================================== *)

Section SessionFacts.

Import EditSessionMachine.

Variable Image : Type.

Lemma kept_length (s : EditSession Image) (img : Image) :
  0 <= cursor s < len s ->
  Z.of_nat (List.length (firstn (Z.to_nat (cursor s + 1)) (history s) ++ [img]))
  = cursor s + 2.
Proof.
  unfold len. intros H.
  rewrite length_app, firstn_length_le by lia.
  simpl. lia.
Qed.

Lemma tl_length (A : Type) (l : list A) :
  List.length (tl l) = pred (List.length l).
Proof. destruct l; reflexivity. Qed.

Lemma create_invariant sid (src : Image) now : invariant (create sid src now).
Proof. unfold invariant, len, MAX_HISTORY_STEPS. simpl. lia. Qed.

Lemma apply_invariant (s : EditSession Image) img : invariant s -> invariant (apply img s).
Proof.
  unfold invariant. intros (Hc & H1 & Hmax).
  pose proof (kept_length s img Hc) as Hk.
  unfold apply.
  destruct (MAX_HISTORY_STEPS <? _) eqn:E;
    [apply Z.ltb_lt in E | apply Z.ltb_ge in E];
    unfold len, MAX_HISTORY_STEPS in *; simpl;
    rewrite ?tl_length; lia.
Qed.

Lemma undo_invariant (s s' : EditSession Image) i :
  invariant s -> undo s = Ok (s', i) -> invariant s'.
Proof.
  unfold undo, canUndo, invariant, len. intros Hinv H.
  destruct (0 <? cursor s) eqn:E; [|discriminate].
  apply Z.ltb_lt in E. injection H as <- _. simpl. lia.
Qed.

Lemma redo_invariant (s s' : EditSession Image) i :
  invariant s -> redo s = Ok (s', i) -> invariant s'.
Proof.
  unfold redo, canRedo, invariant, len. intros Hinv H.
  destruct (cursor s <? _) eqn:E; [|discriminate].
  apply Z.ltb_lt in E. injection H as <- _. simpl. lia.
Qed.

(** C1. Every reachable state of an edit session satisfies
    [0 <= cursor < len(history)], [len(history) >= 1] and
    [len(history) <= 10]; creation establishes the invariant and apply,
    undo and redo each preserve it (a failed undo or redo returns no new
    state, so the session stays as it was). *)
Theorem session_history_invariant :
  (forall s : EditSession Image, reachable s -> invariant s) /\
  (forall (s : EditSession Image) img, invariant s -> invariant (apply img s)) /\
  (forall (s s' : EditSession Image) i, invariant s -> undo s = Ok (s', i) -> invariant s') /\
  (forall (s s' : EditSession Image) i, invariant s -> redo s = Ok (s', i) -> invariant s').
Proof.
  split; [|split; [|split]].
  - induction 1.
    + apply create_invariant.
    + now apply apply_invariant.
    + eapply undo_invariant; eauto.
    + eapply redo_invariant; eauto.
  - intros; now apply apply_invariant.
  - intros; eapply undo_invariant; eauto.
  - intros; eapply redo_invariant; eauto.
Qed.

Lemma nth_error_snoc (A : Type) (l : list A) (x : A) :
  nth_error (l ++ [x]) (List.length l) = Some x.
Proof. induction l; simpl; auto. Qed.

Lemma nth_error_tl (A : Type) (l : list A) (n : nat) :
  nth_error (tl l) n = nth_error l (S n).
Proof. destruct l; simpl; auto. now destruct n. Qed.

Lemma apply_effect (s : EditSession Image) (img : Image) :
  invariant s ->
  let prefix := firstn (Z.to_nat (cursor s + 1)) (history s) in
  (cursor s + 1 < MAX_HISTORY_STEPS ->
     history (apply img s) = prefix ++ [img] /\
     cursor (apply img s) = cursor s + 1) /\
  (cursor s + 1 = MAX_HISTORY_STEPS ->
     history (apply img s) = tl (prefix ++ [img]) /\
     cursor (apply img s) = cursor s) /\
  cursor (apply img s) = len (apply img s) - 1 /\
  currentImage (apply img s) = Some img /\
  canRedo (apply img s) = false.
Proof.
  intros (Hc & H1 & Hmax) prefix.
  pose proof (kept_length s img Hc) as Hk. fold prefix in Hk.
  assert (Hp : Z.of_nat (List.length prefix) = cursor s + 1).
  { rewrite length_app in Hk. simpl in Hk. lia. }
  unfold apply. fold prefix.
  unfold MAX_HISTORY_STEPS in *.
  destruct (10 <? _) eqn:E;
    [apply Z.ltb_lt in E | apply Z.ltb_ge in E].
  - (* eviction *)
    assert (Hc9 : cursor s = 9) by (unfold len in *; lia).
    split; [intros; lia|].
    split; [intros _; split; [reflexivity | simpl; lia]|].
    split; [unfold len; simpl; rewrite tl_length; lia|].
    split.
    + unfold currentImage; simpl.
      replace (Z.of_nat (List.length (prefix ++ [img])) - 1 - 1 <? 0) with false
        by (symmetry; apply Z.ltb_ge; lia).
      rewrite nth_error_tl.
      replace (S (Z.to_nat (Z.of_nat (List.length (prefix ++ [img])) - 1 - 1)))
        with (List.length prefix) by lia.
      apply nth_error_snoc.
    + unfold canRedo, len; simpl. rewrite tl_length. apply Z.ltb_ge. lia.
  - split; [intros _; split; [reflexivity | simpl; lia]|].
    split; [intros; unfold len in *; lia|].
    split; [unfold len; simpl; lia|].
    split.
    + unfold currentImage; simpl.
      replace (Z.of_nat (List.length (prefix ++ [img])) - 1 <? 0) with false
        by (symmetry; apply Z.ltb_ge; lia).
      replace (Z.to_nat (Z.of_nat (List.length (prefix ++ [img])) - 1))
        with (List.length prefix) by lia.
      apply nth_error_snoc.
    + unfold canRedo, len; simpl. apply Z.ltb_ge. lia.
Qed.

(** C2. On an open session, [apply img] keeps the prefix [[0..cursor]] of
    the history, appends [img] and points the cursor at the last entry;
    when the kept prefix already holds 10 entries the oldest one is evicted
    and the cursor is one lower than it would have been. Afterwards the
    cursor is the last index, the current image is [img] and [canRedo] is
    false. In particular, from history [[A; B; C]] with the cursor at 0,
    applying [D] gives history [[A; D]], cursor 1 and no redo. *)
Theorem apply_truncates_appends :
  (forall (s : EditSession Image) (img : Image),
     invariant s ->
     let prefix := firstn (Z.to_nat (cursor s + 1)) (history s) in
     (cursor s + 1 < MAX_HISTORY_STEPS ->
        history (apply img s) = prefix ++ [img] /\
        cursor (apply img s) = cursor s + 1) /\
     (cursor s + 1 = MAX_HISTORY_STEPS ->
        history (apply img s) = tl (prefix ++ [img]) /\
        cursor (apply img s) = cursor s) /\
     cursor (apply img s) = len (apply img s) - 1 /\
     currentImage (apply img s) = Some img /\
     canRedo (apply img s) = false) /\
  (forall sid now (A B C D : Image),
     let s := mkEditSession sid A [A; B; C] 0 now in
     history (apply D s) = [A; D] /\
     cursor (apply D s) = 1 /\
     canRedo (apply D s) = false).
Proof.
  split.
  - exact apply_effect.
  - intros; repeat split.
Qed.

End SessionFacts.

(** A fresh session after one edit. *)
Example session_history_invariant_witness :
  EditSessionMachine.invariant
    (EditSessionMachine.apply "D"%string
       (EditSessionMachine.create "s1"%string "A"%string "t0"%string)).
Proof.
  apply (proj1 (session_history_invariant string)).
  apply EditSessionMachine.reach_apply, EditSessionMachine.reach_create.
Defined.

(** A session of three versions after two undos, and the edit applied to
    it. *)
Example apply_truncates_appends_witness :
  let s := EditSessionMachine.mkEditSession "s1"%string "A"%string
             ["A"; "B"; "C"]%string 0 "t0"%string in
  EditSessionMachine.invariant s /\
  EditSessionMachine.history (EditSessionMachine.apply "D"%string s)
    = ["A"; "D"]%string /\
  EditSessionMachine.canRedo (EditSessionMachine.apply "D"%string s) = false.
Proof.
  intro s.
  assert (H : EditSessionMachine.invariant s).
  { unfold EditSessionMachine.invariant, EditSessionMachine.len,
      EditSessionMachine.MAX_HISTORY_STEPS; simpl; lia. }
  split; [exact H|].
  destruct (proj1 (apply_truncates_appends string) s "D"%string H)
    as (Hnoevict & _ & _ & _ & Hredo).
  split; [|exact Hredo].
  apply Hnoevict. unfold EditSessionMachine.MAX_HISTORY_STEPS; simpl; lia.
Defined.


(* ===================================================================== *)
(** * Properties of the edit page *)
(* ===================================================================== *)

Section EditViewFacts.

Import JsString Dom EditApi ProductPhotoEditView.

(** What a failed apply does, in full. *)
Lemma handleApplyEdit_failed reply info (v : View) sid :
  activeSession v = Some sid ->
  canApplyEdit v = true ->
  editFailed reply ->
  handleApplyEdit reply info v =
    (set_isProcessing false v,
     [Call (applyEditWithMaskCanvas sid (instruction v)
              (if hasMask v
               then match imageEditorRef v with
                    | Some ed => ImageEditor.getMaskCanvas ed
                    | None => None
                    end
               else None));
      ConsoleError logApplyFailed (failureShown msgEditFailed reply);
      Alert (alertText msgEditFailed (failureShown msgEditFailed reply))]).
Proof.
  intros Hsid Hcan Hfail. unfold handleApplyEdit.
  rewrite Hsid, Hcan. simpl negb. cbv iota.
  destruct reply as [result | e]; simpl in Hfail.
  - rewrite Hfail. reflexivity.
  - reflexivity.
Qed.

(** C4. When the external edit call of handleApplyEdit fails (the request
    is rejected or the reply reports failure), nothing of the apply is
    committed on the client: the session summary with its [can_undo],
    [can_redo], [history_count] and [history_index], the instruction text,
    the mask surface with what is drawn on it and the mask flag are what
    they were before the call. The apply request is issued once, and it is
    followed by an alert that shows the failure. *)
Theorem failed_apply_changes_nothing reply info (v : View) sid :
  activeSession v = Some sid ->
  canApplyEdit v = true ->
  editFailed reply ->
  let v' := fst (handleApplyEdit reply info v) in
  let effects := snd (handleApplyEdit reply info v) in
  session v' = session v /\
  canUndo v' = canUndo v /\ canRedo v' = canRedo v /\
  historyCount v' = historyCount v /\ historyIndex v' = historyIndex v /\
  instruction v' = instruction v /\
  imageEditorRef v' = imageEditorRef v /\
  hasMask v' = hasMask v /\
  hasChanges v' = hasChanges v /\
  isProcessing v' = false /\
  (exists request e,
     effects = [Call request; ConsoleError logApplyFailed e;
                Alert (alertText msgEditFailed e)]
     /\ url request = sessionUrl sid "/apply").
Proof.
  intros Hsid Hcan Hfail v' effects. subst v' effects.
  rewrite (handleApplyEdit_failed reply info v Hsid Hcan Hfail).
  simpl. repeat split.
  eexists _, _. split; reflexivity.
Qed.

(** C5. When the instruction is empty after trimming white space,
    handleApplyEdit returns at once: the view is unchanged and nothing is
    requested. So a request made by handleApplyEdit implies an instruction
    that is non-empty after trimming. *)
Theorem blank_instruction_no_apply :
  (forall reply info (v : View),
     trim (instruction v) = [] ->
     canApplyEdit v = false /\
     handleApplyEdit reply info v = (v, [])) /\
  (forall reply info (v : View) request,
     In (Call request) (snd (handleApplyEdit reply info v)) ->
     trim (instruction v) <> []).
Proof.
  assert (H : forall reply info (v : View),
             trim (instruction v) = [] ->
             canApplyEdit v = false /\ handleApplyEdit reply info v = (v, [])).
  { intros reply info v Hblank.
    assert (Hcan : canApplyEdit v = false)
      by (unfold canApplyEdit; rewrite Hblank; reflexivity).
    split; [exact Hcan|].
    unfold handleApplyEdit. rewrite Hcan.
    destruct (activeSession v); reflexivity. }
  split; [exact H|].
  intros reply info v request Hin Hblank.
  destruct (H reply info v Hblank) as [_ Heq].
  rewrite Heq in Hin. exact Hin.
Qed.

End EditViewFacts.

(** C6. On the session, [undo()] fails with IllegalTransition when
    [canUndo] is false and otherwise moves the cursor one entry back and
    returns the image there; [redo()] fails with IllegalTransition when
    [canRedo] is false and otherwise moves the cursor one entry forward.
    On the edit page, handleUndo with [canUndo] false, and handleRedo with
    [canRedo] false, request nothing and leave the view unchanged. *)
Theorem undo_redo_guarded :
  (forall (Image : Type) (s : EditSessionMachine.EditSession Image),
     let M := @EditSessionMachine.moveCursor Image in
     (EditSessionMachine.canUndo s = false ->
        EditSessionMachine.undo s
        = EditSessionMachine.Err EditSessionMachine.IllegalTransition) /\
     (EditSessionMachine.canUndo s = true ->
        EditSessionMachine.undo s
        = EditSessionMachine.Ok
            (M (-1) s, EditSessionMachine.currentImage (M (-1) s))
        /\ EditSessionMachine.cursor (M (-1) s) = EditSessionMachine.cursor s - 1) /\
     (EditSessionMachine.canRedo s = false ->
        EditSessionMachine.redo s
        = EditSessionMachine.Err EditSessionMachine.IllegalTransition) /\
     (EditSessionMachine.canRedo s = true ->
        EditSessionMachine.redo s
        = EditSessionMachine.Ok
            (M 1 s, EditSessionMachine.currentImage (M 1 s))
        /\ EditSessionMachine.cursor (M 1 s) = EditSessionMachine.cursor s + 1)) /\
  (forall reply info (v : ProductPhotoEditView.View),
     (ProductPhotoEditView.canUndo v = false ->
        ProductPhotoEditView.handleUndo reply info v = (v, [])) /\
     (ProductPhotoEditView.canRedo v = false ->
        ProductPhotoEditView.handleRedo reply info v = (v, []))).
Proof.
  split.
  - intros Image s M. subst M.
    unfold EditSessionMachine.undo, EditSessionMachine.redo.
    split; [intros H; rewrite H; reflexivity|].
    split; [intros H; rewrite H; split; reflexivity|].
    split; [intros H; rewrite H; reflexivity|].
    intros H; rewrite H; split; reflexivity.
  - intros reply info v.
    unfold ProductPhotoEditView.handleUndo, ProductPhotoEditView.handleRedo.
    split; intros H; rewrite H;
      destruct (ProductPhotoEditView.activeSession v); reflexivity.
Qed.

(* ===================================================================== *)
(** * Properties of binary64 arithmetic *)
(* ===================================================================== *)

Section NumberFacts.

Import JsNumber.

Lemma pow2_pos (k : Z) : (0 < pow2 k)%Q.
Proof. unfold pow2. apply Qpower_0_lt. reflexivity. Qed.

Lemma pow2_plus (a b : Z) : (pow2 (a + b) == pow2 a * pow2 b)%Q.
Proof. unfold pow2. apply Qpower_plus. discriminate. Qed.

Lemma pow2_nonneg (k : Z) : 0 <= k -> (pow2 k == inject_Z (2 ^ k))%Q.
Proof. intros H. unfold pow2. now rewrite (Zpower_Qpower 2 k H). Qed.

Lemma pow2_le (a b : Z) : a <= b -> (pow2 a <= pow2 b)%Q.
Proof. intros H. unfold pow2. apply Qpower_le_compat_l; [exact H | discriminate]. Qed.

(** [log2floor a] is the integer part of the binary logarithm of [a]:
    2^(log2floor a) <= a < 2^(log2floor a + 1). *)
Lemma log2floor_le (a : Q) : (0 < a)%Q -> (pow2 (log2floor a) <= a)%Q.
Proof.
  intros Ha. unfold log2floor.
  set (n := Qnum a). set (d := Z.pos (Qden a)).
  set (k := Z.log2 n - Z.log2 d).
  destruct (Qle_bool (pow2 k) a) eqn:E; [now apply Qle_bool_iff|].
  assert (Hn : 0 < n) by (unfold n; destruct a as [[|p|p] q]; easy).
  assert (Hd : 0 < d) by (unfold d; lia).
  pose proof (Z.log2_spec n Hn) as [Ln _].
  pose proof (Z.log2_spec d Hd) as [_ Ld].
  pose proof (Z.log2_nonneg n) as Nn. pose proof (Z.log2_nonneg d) as Nd.
  replace (k - 1) with (Z.log2 n + - Z.succ (Z.log2 d)) by (unfold k; lia).
  rewrite pow2_plus. unfold pow2 at 2. rewrite Qpower_opp.
  fold (pow2 (Z.succ (Z.log2 d))).
  rewrite !pow2_nonneg by lia.
  set (A := 2 ^ Z.log2 n) in *. set (B := 2 ^ Z.succ (Z.log2 d)) in *.
  assert (HB : 0 < B) by lia.
  apply Qle_shift_div_r; [change 0%Q with (inject_Z 0); rewrite <- Zlt_Qlt; lia|].
  destruct a as [an ad]. unfold n, d in *. simpl in *.
  unfold Qle, Qmult, inject_Z. simpl. nia.
Qed.

Lemma log2floor_lt (a : Q) : (0 < a)%Q -> (a < pow2 (log2floor a + 1))%Q.
Proof.
  intros Ha. unfold log2floor.
  set (n := Qnum a). set (d := Z.pos (Qden a)).
  set (k := Z.log2 n - Z.log2 d).
  destruct (Qle_bool (pow2 k) a) eqn:E.
  2:{ replace (k - 1 + 1) with k by lia.
      apply Qnot_le_lt. intros L. apply Qle_bool_iff in L. congruence. }
  assert (Hn : 0 < n) by (unfold n; destruct a as [[|p|p] q]; easy).
  assert (Hd : 0 < d) by (unfold d; lia).
  pose proof (Z.log2_spec n Hn) as [_ Ln].
  pose proof (Z.log2_spec d Hd) as [Ld _].
  pose proof (Z.log2_nonneg n) as Nn. pose proof (Z.log2_nonneg d) as Nd.
  replace (k + 1) with (Z.succ (Z.log2 n) + - Z.log2 d) by (unfold k; lia).
  rewrite pow2_plus. unfold pow2 at 2. rewrite Qpower_opp.
  fold (pow2 (Z.log2 d)).
  rewrite !pow2_nonneg by lia.
  set (A := 2 ^ Z.succ (Z.log2 n)) in *. set (B := 2 ^ Z.log2 d) in *.
  assert (HB : 0 < B) by lia.
  apply Qlt_shift_div_l; [change 0%Q with (inject_Z 0); rewrite <- Zlt_Qlt; lia|].
  destruct a as [an ad]. unfold n, d in *. simpl in *.
  unfold Qlt, Qmult, inject_Z. simpl. nia.
Qed.

(** Rounding to the nearest integer moves a number by at most one half. *)
Lemma roundHalfEven_near (q : Q) :
  (q - (1 # 2) <= inject_Z (roundHalfEven q) <= q + (1 # 2))%Q.
Proof.
  unfold roundHalfEven.
  pose proof (Qfloor_le q) as L. pose proof (Qlt_floor q) as U.
  rewrite inject_Z_plus in U. change (inject_Z 1) with 1%Q in U.
  assert (P : (inject_Z (Qfloor q + 1) == inject_Z (Qfloor q) + 1)%Q)
    by (rewrite inject_Z_plus; reflexivity).
  destruct (q - inject_Z (Qfloor q) ?= 1 # 2)%Q eqn:E.
  - apply Qeq_alt in E. destruct (Z.even (Qfloor q)); rewrite ?P; lra.
  - apply Qlt_alt in E. lra.
  - apply Qgt_alt in E. rewrite P. lra.
Qed.

(** The relative error of rounding in the normal range is at most 2^-53. *)
Lemma nearest_near (a : Q) :
  (pow2 (-1022) <= a)%Q -> near a (nearest a).
Proof.
  intros Hmin. unfold near.
  assert (Ha : (0 < a)%Q)
    by (eapply Qlt_le_trans; [apply (pow2_pos (-1022)) | exact Hmin]).
  unfold nearest.
  set (e := Z.max (log2floor a) (-1022)).
  assert (He : (pow2 e <= a)%Q).
  { unfold e. destruct (Z.max_spec (log2floor a) (-1022)) as [[_ ->]|[_ ->]];
      [exact Hmin | now apply log2floor_le]. }
  set (U := pow2 (e - 52)).
  assert (HU : (0 < U)%Q) by apply pow2_pos.
  rewrite Qred_correct.
  pose proof (roundHalfEven_near (a / U)) as [L R].
  set (m := inject_Z (roundHalfEven (a / U))) in *.
  assert (Hhalf : (U * (1 # 2) <= a * u)%Q).
  { assert (E : (U * (1 # 2) == pow2 e * u)%Q).
    { unfold U. change u with (pow2 (-53)).
      replace (e - 52) with (e + -53 + 1) by lia.
      rewrite !pow2_plus. change (pow2 1) with 2%Q. field. }
    rewrite E. apply Qmult_le_compat_r; [exact He | discriminate]. }
  assert (Em : (a == a / U * U)%Q) by (field; lra).
  split.
  - assert (X : ((a / U - (1 # 2)) * U <= m * U)%Q)
      by (apply Qmult_le_compat_r; [exact L | lra]).
    lra.
  - assert (X : (m * U <= (a / U + (1 # 2)) * U)%Q)
      by (apply Qmult_le_compat_r; [exact R | lra]).
    lra.
Qed.

(** Equal rationals have the same Number value. *)
Lemma round64_eq (x y : Q) : (x == y)%Q -> round64 x = round64 y.
Proof.
  intros E. unfold round64.
  rewrite (Qred_complete _ _ E).
  assert (E' : (- x == - y)%Q) by now rewrite E.
  rewrite (Qred_complete _ _ E').
  assert (C : (x ?= 0)%Q = (y ?= 0)%Q) by now rewrite E.
  now rewrite C.
Qed.

(** A positive number of moderate size rounds to a finite double near it. *)
Lemma round64_near (a : Q) :
  (pow2 (-1022) <= a <= pow2 1000)%Q ->
  exists r, round64 a = Finite r /\ near a r /\ (0 < r)%Q.
Proof.
  intros [Hmin Hmax].
  assert (Ha : (0 < a)%Q)
    by (eapply Qlt_le_trans; [apply (pow2_pos (-1022)) | exact Hmin]).
  unfold round64.
  assert (C : (a ?= 0)%Q = Gt) by now apply Qgt_alt.
  rewrite C.
  assert (Hmin' : (pow2 (-1022) <= Qred a)%Q) by now rewrite Qred_correct.
  pose proof (nearest_near Hmin') as [L R].
  pose proof (Qred_correct a) as E.
  set (b := Qred a) in *. set (n := nearest b) in *.
  assert (L' : (a * (1 - u) <= n)%Q) by (rewrite <- E; exact L).
  assert (R' : (n <= a * (1 + u))%Q) by (rewrite <- E; exact R).
  assert (Hu : (0 < 1 - u)%Q) by reflexivity.
  assert (O : Qle_bool (pow2 1024) n = false).
  { destruct (Qle_bool (pow2 1024) n) eqn:O; [|reflexivity].
    apply Qle_bool_iff in O. exfalso.
    assert (T : (pow2 1000 * (1 + u) < pow2 1024)%Q) by reflexivity.
    assert (T2 : (a * (1 + u) <= pow2 1000 * (1 + u))%Q)
      by (apply Qmult_le_compat_r; [exact Hmax | discriminate]).
    apply (Qlt_irrefl (pow2 1024)).
    eapply Qle_lt_trans; [exact O|]. eapply Qle_lt_trans; [exact R'|].
    eapply Qle_lt_trans; [exact T2 | exact T]. }
  rewrite O. exists n. split; [reflexivity|]. split; [split; assumption|].
  eapply Qlt_le_trans; [|exact L']. apply Qmult_lt_0_compat; assumption.
Qed.

Lemma within_pos (k : Z) (q : Q) : within k q -> (0 < q)%Q.
Proof.
  intros [L _]. eapply Qlt_le_trans; [apply (pow2_pos (- k)) | exact L].
Qed.

(** The integers the DOM hands out. *)
Lemma within_int (n : Z) : 0 < n < 2 ^ 32 -> within 32 (inject_Z n).
Proof.
  intros [L R]. unfold within. split.
  - apply Qle_trans with 1%Q; [discriminate|].
    change 1%Q with (inject_Z 1). rewrite <- Zle_Qle. lia.
  - rewrite (@pow2_nonneg 32) by lia. rewrite <- Zle_Qle. lia.
Qed.

Lemma round64_within (a : Q) (k : Z) :
  0 <= k -> k < 1000 -> within k a ->
  exists r, round64 a = Finite r /\ near a r /\ within (k + 1) r /\ (0 < r)%Q.
Proof.
  intros K0 K1 [L R].
  assert (Hr : (pow2 (-1022) <= a <= pow2 1000)%Q).
  { split; [eapply Qle_trans; [|exact L] | eapply Qle_trans; [exact R|]];
      apply pow2_le; lia. }
  destruct (round64_near Hr) as (r & E & [N1 N2] & P).
  exists r. split; [exact E|]. split; [split; assumption|]. split; [|exact P].
  assert (A1 : (pow2 (- (k + 1)) * 2 == pow2 (- k))%Q).
  { replace (- k) with (- (k + 1) + 1) by lia. now rewrite pow2_plus. }
  assert (A2 : (pow2 (k + 1) == pow2 k * 2)%Q) by now rewrite pow2_plus.
  assert (U1 : (0 < u)%Q) by reflexivity.
  assert (U2 : (u < 1 # 2)%Q) by reflexivity.
  assert (Ha : (0 < a)%Q) by (eapply within_pos; split; eassumption).
  unfold within. set (lo := pow2 (- (k + 1))) in *. set (hi := pow2 (k + 1)) in *.
  set (lo' := pow2 (- k)) in *. set (hi' := pow2 k) in *.
  assert (M1 : (a * u <= a * (1 # 2))%Q)
    by (apply Qmult_le_l; [exact Ha | now apply Qlt_le_weak]).
  split; lra.
Qed.

(** [x / y] and [x * y] on positive numbers of moderate size. *)
Lemma div_near (x y : Q) (j k : Z) :
  0 <= j -> 0 <= k -> j + k < 1000 -> within j x -> within k y ->
  exists r, div (Finite x) (Finite y) = Finite r /\ near (x / y) r /\
            within (j + k + 1) r /\ (0 < r)%Q.
Proof.
  intros J K JK Hx Hy.
  pose proof (within_pos Hx) as Px. pose proof (within_pos Hy) as Py.
  destruct Hx as [Lx Rx]. destruct Hy as [Ly Ry].
  assert (Z0 : isZero y = false).
  { unfold isZero. destruct (Qeq_bool y 0) eqn:E; [|reflexivity].
    apply Qeq_bool_iff in E. lra. }
  unfold div. rewrite Z0.
  apply round64_within; [lia | lia|]. split.
  - apply Qle_shift_div_l; [exact Py|].
    apply Qle_trans with (pow2 (- (j + k)) * pow2 k)%Q.
    + apply Qmult_le_l; [apply pow2_pos | exact Ry].
    + rewrite <- pow2_plus. replace (- (j + k) + k) with (- j) by lia. exact Lx.
  - apply Qle_shift_div_r; [exact Py|].
    apply Qle_trans with (pow2 (j + k) * pow2 (- k))%Q.
    + rewrite <- pow2_plus. replace (j + k + - k) with j by lia. exact Rx.
    + apply Qmult_le_l; [apply pow2_pos | exact Ly].
Qed.

Lemma mul_near (x y : Q) (j k : Z) :
  0 <= j -> 0 <= k -> j + k < 1000 -> within j x -> within k y ->
  exists r, mul (Finite x) (Finite y) = Finite r /\ near (x * y) r /\
            within (j + k + 1) r /\ (0 < r)%Q.
Proof.
  intros J K JK Hx Hy.
  pose proof (within_pos Hx) as Px. pose proof (within_pos Hy) as Py.
  destruct Hx as [Lx Rx]. destruct Hy as [Ly Ry].
  unfold mul.
  apply round64_within; [lia | lia|]. split.
  - replace (- (j + k)) with (- j + - k) by lia. rewrite pow2_plus.
    apply Qle_trans with (x * pow2 (- k))%Q.
    + apply Qmult_le_compat_r; [exact Lx | apply Qlt_le_weak, pow2_pos].
    + apply Qmult_le_l; [exact Px | exact Ly].
  - rewrite pow2_plus.
    apply Qle_trans with (x * pow2 k)%Q.
    + apply Qmult_le_l; [exact Px | exact Ry].
    + apply Qmult_le_compat_r; [exact Rx | apply Qlt_le_weak, pow2_pos].
Qed.

End NumberFacts.

(* ===================================================================== *)
(** * Properties of the mask authoring surface *)
(* ===================================================================== *)

Section MaskSurfaceFacts.

Import JsString JsNumber Dom ImageEditor.

Lemma covers_resized (dw dh : Q) (c : Canvas) :
  covers 0 0 dw dh (setHeight dh (setWidth dw c)) = true.
Proof.
  unfold covers, setHeight, setWidth, toLength; simpl.
  assert (H : forall q, Qle_bool (inject_Z (Qfloor q)) (0 + q) = true).
  { intro q. apply Qle_bool_iff. rewrite Qplus_0_l. apply Qfloor_le. }
  rewrite !H. reflexivity.
Qed.

Lemma covers_whole (c : Canvas) :
  covers 0 0 (inject_Z (width c)) (inject_Z (height c)) c = true.
Proof.
  unfold covers; simpl.
  assert (H : forall z, Qle_bool (inject_Z z) (0 + inject_Z z) = true).
  { intro z. apply Qle_bool_iff. rewrite Qplus_0_l. apply Qle_refl. }
  rewrite !H. reflexivity.
Qed.

(** setupCanvases on a mounted component, field by field. *)
Lemma setupCanvases_ready (w h : Z) (s : State) ic mc ct :
  imageCanvasRef s = Some ic ->
  maskCanvasRef s = Some mc ->
  canvasContainerRef s = Some ct ->
  let d := displaySize w h (clientWidth ct) (fitHeight ct) in
  let s' := setupCanvases w h s in
  imageWidth s' = w /\ imageHeight s' = h /\
  canvasScale s' = div (ofInt w) (fst d) /\
  maskCanvasRef s' =
    Some (mkCanvas (toLength (dimension (fst d))) (toLength (dimension (snd d)))
            (rectLeft mc) (rectTop mc) []) /\
  imageCanvasRef s' =
    Some (mkCanvas (toLength (dimension (fst d))) (toLength (dimension (snd d)))
            (rectLeft ic) (rectTop ic)
            (if context2d s && isFinite (fst d) && isFinite (snd d)
             then [DrawImage (imageUrl (props s)) 0 0
                     (dimension (fst d)) (dimension (snd d))]
             else [])) /\
  canvasContainerRef s' = Some ct /\
  hasMask s' = hasMask s /\ loading s' = loading s /\
  loadError s' = loadError s /\ props s' = props s /\
  context2d s' = context2d s.
Proof.
  intros Hi Hm Hc d s'. subst s'. unfold setupCanvases.
  rewrite Hi, Hm, Hc. fold (fitHeight ct). fold d.
  destruct d as [dw dh]. cbn [fst snd].
  destruct (context2d s && isFinite dw && isFinite dh);
    unfold clearRect; rewrite ?covers_resized; simpl;
    repeat split; try reflexivity; assumption.
Qed.

Lemma ready_refs (s : State) :
  ready s = true ->
  exists ic mc ct,
    imageCanvasRef s = Some ic /\ maskCanvasRef s = Some mc /\
    canvasContainerRef s = Some ct.
Proof.
  unfold ready.
  destruct (imageCanvasRef s) as [ic|], (maskCanvasRef s) as [mc|],
    (canvasContainerRef s) as [ct|]; try discriminate.
  intros _. now exists ic, mc, ct.
Qed.

(** A successful loadImage on a mounted component. *)
Lemma loadImage_loaded (w h : Z) (s : State) :
  ready s = true ->
  truthy (imageUrl (props s)) = true ->
  loadImage (Loaded w h) s
  = (set_loading false
       (setupCanvases w h (set_loadError false (set_loading true s))), []).
Proof.
  intros Hr Hu. unfold loadImage. rewrite Hu. simpl negb. cbv iota.
  destruct (ready_refs s Hr) as (ic & mc & ct & Hi & Hm & Hc).
  rewrite Hi. reflexivity.
Qed.

(** A failed loadImage on a mounted component. *)
Lemma loadImage_failed (s : State) :
  ready s = true ->
  truthy (imageUrl (props s)) = true ->
  fst (loadImage LoadFailed s)
  = set_loading false (set_loadError true (set_loadError false (set_loading true s))).
Proof.
  intros Hr Hu. unfold loadImage. rewrite Hu. simpl negb. cbv iota.
  destruct (ready_refs s Hr) as (ic & mc & ct & Hi & Hm & Hc).
  rewrite Hi. reflexivity.
Qed.

(** After a successful load the mask canvas is blank and both canvases have
    the fitted size; the mask flag is not touched. *)
Lemma loadImage_loaded_fields (w h : Z) (s : State) ic mc ct :
  imageCanvasRef s = Some ic ->
  maskCanvasRef s = Some mc ->
  canvasContainerRef s = Some ct ->
  truthy (imageUrl (props s)) = true ->
  let d := displaySize w h (clientWidth ct) (fitHeight ct) in
  let s' := fst (loadImage (Loaded w h) s) in
  imageWidth s' = w /\ imageHeight s' = h /\
  canvasScale s' = div (ofInt w) (fst d) /\
  maskCanvasRef s' =
    Some (mkCanvas (toLength (dimension (fst d))) (toLength (dimension (snd d)))
            (rectLeft mc) (rectTop mc) []) /\
  imageCanvasRef s' =
    Some (mkCanvas (toLength (dimension (fst d))) (toLength (dimension (snd d)))
            (rectLeft ic) (rectTop ic)
            (if context2d s && isFinite (fst d) && isFinite (snd d)
             then [DrawImage (imageUrl (props s)) 0 0
                     (dimension (fst d)) (dimension (snd d))]
             else [])) /\
  hasMask s' = hasMask s /\ loading s' = false /\ loadError s' = false.
Proof.
  intros Hi Hm Hc Hu d s'. subst s'.
  assert (Hr : ready s = true) by (unfold ready; now rewrite Hi, Hm, Hc).
  rewrite (loadImage_loaded w h s Hr Hu). simpl fst.
  set (s1 := set_loadError false (set_loading true s)).
  destruct (setupCanvases_ready w h s1 (ic:=ic) (mc:=mc) (ct:=ct))
    as (H1 & H2 & H3 & H4 & H5 & H6 & H7 & H8 & H9 & H10 & H11);
    try assumption.
  fold d in H3, H4, H5.
  simpl. repeat split; assumption.
Qed.

(** What a reload does do. When the imageUrl prop changes to a new
    non-empty URL on a mounted editor, the image is loaded: if the load
    succeeds the mask canvas is blank afterwards, whatever was painted on
    it, and no error is shown; if the load fails the editor is left with
    [loadError] set and [loading] cleared, which renders the error overlay
    whose retry button runs loadImage again, and a retry that succeeds
    clears the error and gives a blank mask canvas at the size of the
    image. The mask flag is another matter: see [loadImage_keeps]. *)
Lemma reload_resets_mask_or_reports (s : State) (url : jsstring) (r : ImageLoad) :
  ready s = true ->
  truthy url = true ->
  url <> imageUrl (props s) ->
  let s' := fst (onImageUrlChange url r s) in
  imageUrl (props s') = url /\
  match r with
  | Loaded w h =>
      maskBitmap s' = [] /\ loadError s' = false /\ loading s' = false /\
      imageWidth s' = w /\ imageHeight s' = h
  | LoadFailed =>
      loadError s' = true /\ loading s' = false /\
      errorOverlayVisible s' = true /\
      (forall r', clickRetry r' s' = Some (loadImage r' s')) /\
      (forall w h,
         let s'' := fst (loadImage (Loaded w h) s') in
         loadError s'' = false /\ errorOverlayVisible s'' = false /\
         maskBitmap s'' = [] /\ imageWidth s'' = w /\ imageHeight s'' = h)
  end.
Proof.
  intros Hr Hu Hne s'. subst s'. unfold onImageUrlChange.
  destruct (list_eq_dec N.eq_dec url (imageUrl (props s))) as [E|_];
    [contradiction|].
  rewrite Hu.
  set (s1 := set_props _ s).
  assert (Hr1 : ready s1 = true) by exact Hr.
  assert (Hu1 : truthy (imageUrl (props s1)) = true) by exact Hu.
  destruct (ready_refs s1 Hr1) as (ic & mc & ct & Hi & Hm & Hc).
  destruct r as [w h|].
  - destruct (loadImage_loaded_fields w h s1 Hi Hm Hc Hu1)
      as (H1 & H2 & _ & H4 & _ & _ & H7 & H8).
    split.
    + rewrite (loadImage_loaded w h s1 Hr1 Hu1). simpl fst.
      destruct (setupCanvases_ready w h (set_loadError false (set_loading true s1))
                  (ic:=ic) (mc:=mc) (ct:=ct) Hi Hm Hc)
        as (_ & _ & _ & _ & _ & _ & _ & _ & _ & Hp & _).
      change (imageUrl (props (setupCanvases w h
                (set_loadError false (set_loading true s1)))) = url).
      rewrite Hp. reflexivity.
    + unfold maskBitmap. rewrite H4. simpl. auto.
  - rewrite (loadImage_failed s1 Hr1 Hu1).
    set (s2 := set_loading false _).
    split; [reflexivity|].
    split; [reflexivity|]. split; [reflexivity|]. split; [reflexivity|].
    split; [intros r'; reflexivity|].
    intros w h.
    assert (Hi2 : imageCanvasRef s2 = Some ic) by exact Hi.
    assert (Hm2 : maskCanvasRef s2 = Some mc) by exact Hm.
    assert (Hc2 : canvasContainerRef s2 = Some ct) by exact Hc.
    assert (Hu2 : truthy (imageUrl (props s2)) = true) by exact Hu.
    destruct (loadImage_loaded_fields w h s2 Hi2 Hm2 Hc2 Hu2)
      as (H1 & H2 & _ & H4 & _ & _ & H7 & H8).
    unfold errorOverlayVisible, maskBitmap. rewrite H4. simpl. auto.
Qed.


Lemma inject_Z_pos (z : Z) : 0 < z -> (0 < inject_Z z)%Q.
Proof. intro H. change 0%Q with (inject_Z 0). now rewrite <- Zlt_Qlt. Qed.

Lemma Qpos_nonzero (q : Q) : (0 < q)%Q -> ~ (q == 0)%Q.
Proof. intros H Z0. rewrite Z0 in H. now apply Qlt_irrefl in H. Qed.

Lemma within_weaken (j k : Z) (q : Q) : j <= k -> within j q -> within k q.
Proof.
  intros H [L R]. split.
  - eapply Qle_trans; [|exact L]. apply pow2_le. lia.
  - eapply Qle_trans; [exact R|]. apply pow2_le. lia.
Qed.

Lemma int_bounds (n : Z) :
  0 < n < 2 ^ 32 -> (1 <= inject_Z n <= 4294967296)%Q.
Proof.
  intros [L R]. split.
  - change 1%Q with (inject_Z 1). rewrite <- Zle_Qle. lia.
  - change 4294967296%Q with (inject_Z 4294967296). rewrite <- Zle_Qle. lia.
Qed.

(** The fitted display size, in binary64: both sides are positive finite
    numbers; the size assigned to the canvas (the integer part) lies inside
    the container; one side is the container's, exactly, and the other is
    the side that keeps the aspect ratio of the image, up to three
    roundings. *)
Lemma displaySize_fits (w h cw ch : Z) :
  0 < w < 2 ^ 32 -> 0 < h < 2 ^ 32 -> 0 < cw < 2 ^ 32 -> 0 < ch < 2 ^ 32 ->
  exists dw dh : Q,
    displaySize w h cw ch = (Finite dw, Finite dh) /\
    (0 < dw)%Q /\ (0 < dh)%Q /\
    (dw < inject_Z cw + 1)%Q /\ (dh < inject_Z ch + 1)%Q /\
    ((dw = inject_Z cw /\
      near3 (inject_Z cw * inject_Z h / inject_Z w) dh) \/
     (dh = inject_Z ch /\
      near3 (inject_Z ch * inject_Z w / inject_Z h) dw)) /\
    within 98 dw.
Proof.
  intros Hw Hh Hcw Hch.
  pose proof (within_int Hw) as Ww. pose proof (within_int Hh) as Wh.
  pose proof (within_int Hcw) as Wcw. pose proof (within_int Hch) as Wch.
  pose proof (int_bounds Hw) as [Bw1 Bw2]. pose proof (int_bounds Hh) as [Bh1 Bh2].
  pose proof (int_bounds Hcw) as [Bcw1 Bcw2].
  pose proof (int_bounds Hch) as [Bch1 Bch2].
  set (W := inject_Z w) in *. set (H := inject_Z h) in *.
  set (CW := inject_Z cw) in *. set (CH := inject_Z ch) in *.
  destruct (@div_near W H 32 32) as (ri & Eri & [Ri1 Ri2] & Wri & Pri);
    try assumption; try lia.
  destruct (@div_near CW CH 32 32) as (rc & Erc & [Rc1 Rc2] & Wrc & Prc);
    try assumption; try lia.
  unfold displaySize, ofInt. fold W H CW CH. rewrite Eri, Erc.
  cbn [gt].
  assert (U0 : (0 < u)%Q) by reflexivity.
  destruct (Qle_bool ri rc) eqn:Cmp; cbn [negb].
  - (* the image is not wider than the container: the height is taken *)
    apply Qle_bool_iff in Cmp.
    destruct (@mul_near CH ri 32 65) as (dw & Edw & [D1 D2] & Wdw & Pdw);
      try assumption; try lia.
    rewrite Edw. exists dw, CH.
    set (x := (CH * W / H)%Q). set (z := (CH * ri)%Q) in *.
    assert (F1 : (x * (1 - u) <= z)%Q).
    { setoid_replace (x * (1 - u))%Q with (CH * (W / H * (1 - u)))%Q
        by (unfold x; field; lra).
      apply Qmult_le_l; [lra | exact Ri1]. }
    assert (F2 : (z <= x * (1 + u))%Q).
    { setoid_replace (x * (1 + u))%Q with (CH * (W / H * (1 + u)))%Q
        by (unfold x; field; lra).
      apply Qmult_le_l; [lra | exact Ri2]. }
    assert (F3 : (z <= CW * (1 + u))%Q).
    { setoid_replace (CW * (1 + u))%Q with (CH * (CW / CH * (1 + u)))%Q
        by (field; lra).
      apply Qmult_le_l; [lra|]. lra. }
    assert (Pz : (0 < z)%Q) by (apply Qmult_lt_0_compat; lra).
    assert (Px : (0 < x)%Q).
    { unfold x. apply Qlt_shift_div_l; [lra|]. rewrite Qmult_0_l.
      apply Qmult_lt_0_compat; lra. }
    unfold near3, u in *.
    split; [reflexivity|]. split; [exact Pdw|]. split; [lra|].
    split; [lra|]. split; [lra|]. split; [|exact Wdw].
    right. split; [reflexivity|]. split; lra.
  - (* the image is wider: the width is taken *)
    assert (Gt : (rc < ri)%Q).
    { apply Qnot_le_lt. intros L. apply Qle_bool_iff in L. congruence. }
    destruct (@div_near CW ri 32 65) as (dh & Edh & [D1 D2] & Wdh & Pdh);
      try assumption; try lia.
    rewrite Edh. exists CW, dh.
    set (x := (CW * H / W)%Q). set (y := (CW / ri)%Q) in *.
    set (rho := (W / H)%Q) in *. set (kappa := (CW / CH)%Q) in *.
    assert (Prho : (0 < rho)%Q)
      by (unfold rho; apply Qlt_shift_div_l; lra).
    assert (Pkappa : (0 < kappa)%Q)
      by (unfold kappa; apply Qlt_shift_div_l; lra).
    assert (Py : (0 < y)%Q) by (unfold y; apply Qlt_shift_div_l; lra).
    assert (Ey : (y * ri == CW)%Q) by (unfold y; field; lra).
    assert (Ek : (kappa * CH == CW)%Q) by (unfold kappa; field; lra).
    assert (Ex : (x * rho == CW)%Q) by (unfold x, rho; field; lra).
    assert (F1 : (y * (1 - u) < CH)%Q).
    { apply (Qmult_lt_l _ _ kappa Pkappa).
      rewrite Ek, <- Ey.
      setoid_replace (kappa * (y * (1 - u)))%Q with (y * (kappa * (1 - u)))%Q
        by ring.
      apply Qmult_lt_l; [exact Py|]. lra. }
    assert (F2 : (y * (1 - u) <= x)%Q).
    { apply (Qmult_le_l _ _ rho Prho).
      rewrite (Qmult_comm rho x), Ex, <- Ey.
      setoid_replace (rho * (y * (1 - u)))%Q with (y * (rho * (1 - u)))%Q
        by ring.
      apply Qmult_le_l; [exact Py | exact Ri1]. }
    assert (F3 : (x <= y * (1 + u))%Q).
    { apply (Qmult_le_l _ _ rho Prho).
      rewrite (Qmult_comm rho x), Ex, <- Ey.
      setoid_replace (rho * (y * (1 + u)))%Q with (y * (rho * (1 + u)))%Q
        by ring.
      apply Qmult_le_l; [exact Py | exact Ri2]. }
    unfold near3, u in *.
    split; [reflexivity|]. split; [lra|]. split; [exact Pdh|].
    split; [lra|]. split; [lra|]. split; [|now apply (@within_weaken 32 98)].
    left. split; [reflexivity|]. split; lra.
Qed.

Lemma fitHeight_pos (c : Container) : 0 <= clientHeight c -> 0 < fitHeight c.
Proof.
  unfold fitHeight. destruct (clientHeight c =? 0) eqn:E; [lia|].
  apply Z.eqb_neq in E. lia.
Qed.

Lemma fitHeight_range (c : Container) :
  0 <= clientHeight c < 2 ^ 32 -> 0 < fitHeight c < 2 ^ 32.
Proof.
  unfold fitHeight. destruct (clientHeight c =? 0) eqn:E; [lia|].
  apply Z.eqb_neq in E. lia.
Qed.

(** The integer part of a positive number below [n + 1] lies in [0, n]. *)
Lemma Qfloor_fits (q : Q) (n : Z) :
  (0 < q)%Q -> (q < inject_Z n + 1)%Q -> 0 <= Qfloor q <= n.
Proof.
  intros P L. split.
  - change 0 with (Qfloor 0). apply Qfloor_resp_le. now apply Qlt_le_weak.
  - pose proof (Qfloor_le q) as F.
    assert (X : (inject_Z (Qfloor q) < inject_Z (n + 1))%Q).
    { rewrite inject_Z_plus. change (inject_Z 1) with 1%Q. lra. }
    rewrite <- Zlt_Qlt in X. lia.
Qed.


(** No load touches the mask flag or the 2D capability, and a mounted
    editor stays mounted. *)
Lemma loadImage_keeps (r : ImageLoad) (s : State) :
  hasMask (fst (loadImage r s)) = hasMask s /\
  context2d (fst (loadImage r s)) = context2d s /\
  (ready s = true -> ready (fst (loadImage r s)) = true).
Proof.
  unfold loadImage.
  destruct (truthy (imageUrl (props s))); simpl negb; cbv iota;
    [|now repeat split].
  destruct (imageCanvasRef s) as [ic|] eqn:Hi; [|now repeat split].
  destruct r as [w h|]; simpl fst.
  - destruct (maskCanvasRef s) as [mc|] eqn:Hm;
      [destruct (canvasContainerRef s) as [ct|] eqn:Hc|].
    + destruct (setupCanvases_ready w h (set_loadError false (set_loading true s))
                  (ic:=ic) (mc:=mc) (ct:=ct) Hi Hm Hc)
        as (_ & _ & _ & E4 & E5 & E6 & E7 & _ & _ & _ & E11).
      repeat split.
      * exact E7.
      * exact E11.
      * intros _. unfold ready. simpl. rewrite E4, E5, E6. reflexivity.
    + unfold setupCanvases. simpl. rewrite Hi, Hm, Hc.
      repeat split. unfold ready. now rewrite Hi, Hm, Hc.
    + unfold setupCanvases. simpl. rewrite Hi, Hm.
      repeat split. unfold ready. now rewrite Hi, Hm.
  - repeat split. unfold ready. simpl. now rewrite Hi.
Qed.

(** A paint that reaches the canvas. *)
Lemma drawPoint_ready (x y : Q) (s : State) :
  ready s = true -> context2d s = true ->
  snd (drawPoint x y s) = (if hasMask s then [] else [mask_change true]) /\
  hasMask (fst (drawPoint x y s)) = true /\
  maskBitmap (fst (drawPoint x y s))
  = maskBitmap s ++ [FillArc x y (brushSize (props s) / 2)%Q (brushColor (props s))] /\
  ready (fst (drawPoint x y s)) = true /\
  context2d (fst (drawPoint x y s)) = true.
Proof.
  intros Hr Hx.
  destruct (ready_refs s Hr) as (ic & mc & ct & Hi & Hm & Hc).
  unfold drawPoint, maskBitmap, ready. rewrite Hm, Hx. simpl negb. cbv iota.
  destruct (hasMask s) eqn:E; simpl; rewrite ?E, ?Hi, ?Hc, ?Hx; simpl;
    repeat split; reflexivity.
Qed.

Lemma clearMask_ready (s : State) :
  ready s = true -> context2d s = true ->
  snd (clearMask s) = [mask_change false] /\
  hasMask (fst (clearMask s)) = false /\
  maskBitmap (fst (clearMask s)) = [] /\
  ready (fst (clearMask s)) = true /\
  context2d (fst (clearMask s)) = true.
Proof.
  intros Hr Hx.
  destruct (ready_refs s Hr) as (ic & mc & ct & Hi & Hm & Hc).
  unfold clearMask, maskBitmap, ready, clearRect.
  rewrite Hm, Hx, covers_whole. simpl. rewrite ?Hi, ?Hc, ?Hx.
  repeat split; reflexivity.
Qed.

Lemma run_paint_clear (tr : list Action) :
  forall s : State,
    ready s = true -> context2d s = true ->
    forallb paintOrClear tr = true ->
    snd (run tr s) = maskSignals (hasMask s) tr /\
    hasMask (fst (run tr s)) = paintedSinceReset (hasMask s) tr /\
    ready (fst (run tr s)) = true /\ context2d (fst (run tr s)) = true.
Proof.
  induction tr as [|a tr IH]; intros s Hr Hx Hall.
  - simpl. auto.
  - simpl in Hall. apply andb_true_iff in Hall as [Ha Hall].
    destruct a as [x y| | |]; try discriminate; simpl.
    + destruct (drawPoint_ready x y s Hr Hx) as (E1 & E2 & _ & E4 & E5).
      destruct (drawPoint x y s) as [s1 e1]; simpl in *.
      destruct (IH s1 E4 E5 Hall) as (I1 & I2 & I3 & I4).
      destruct (run tr s1) as [s2 e2]; simpl in *.
      rewrite E2 in I1, I2. subst e1 e2. auto.
    + destruct (clearMask_ready s Hr Hx) as (E1 & E2 & _ & E4 & E5).
      destruct (clearMask s) as [s1 e1]; simpl in *.
      destruct (IH s1 E4 E5 Hall) as (I1 & I2 & I3 & I4).
      destruct (run tr s1) as [s2 e2]; simpl in *.
      rewrite E2 in I1, I2. subst e1 e2. auto.
Qed.

(** The signals over paints and clears. On a mounted editor with a 2D
    context: a paint signals 'mask-change' with [true] exactly when the flag
    was false and leaves the flag set, so a further paint signals nothing;
    clear() blanks the mask, resets the flag and signals 'mask-change' with
    [false]. Hence over any sequence of paints and clears, with no load in
    between, the signals sent are exactly those of [maskSignals]: one [true]
    for the first paint after the start or after a clear, one [false] for
    each clear, and the flag at the end tells whether a paint came after the
    last clear. *)
Lemma mask_change_once_per_paint_session (s : State) :
  ready s = true ->
  context2d s = true ->
  (forall x y,
     snd (drawPoint x y s) = (if hasMask s then [] else [mask_change true]) /\
     hasMask (fst (drawPoint x y s)) = true /\
     (forall x' y', snd (drawPoint x' y' (fst (drawPoint x y s))) = [])) /\
  (snd (clearMask s) = [mask_change false] /\
   hasMask (fst (clearMask s)) = false /\
   maskBitmap (fst (clearMask s)) = [] /\
   (forall x y, snd (drawPoint x y (fst (clearMask s))) = [mask_change true])) /\
  (forall tr,
     forallb paintOrClear tr = true ->
     snd (run tr s) = maskSignals (hasMask s) tr /\
     hasMask (fst (run tr s)) = paintedSinceReset (hasMask s) tr) /\
  (forall p c left top r x y,
     snd (drawPoint x y (fst (onMounted r (mounted p true c left top))))
     = [mask_change true]).
Proof.
  intros Hr Hx. split; [|split; [|split]]; cycle 3.
  { intros p c left top r x y.
    assert (K : hasMask (fst (onMounted r (mounted p true c left top))) = false
                /\ context2d (fst (onMounted r (mounted p true c left top))) = true
                /\ ready (fst (onMounted r (mounted p true c left top))) = true).
    { unfold onMounted.
      destruct (truthy (imageUrl (props (mounted p true c left top))));
        [|now repeat split].
      destruct (loadImage_keeps r (mounted p true c left top)) as (K1 & K2 & K3).
      rewrite K1, K2. repeat split. now apply K3. }
    destruct K as (K1 & K2 & K3).
    destruct (drawPoint_ready x y _ K3 K2) as (F1 & _).
    rewrite F1, K1. reflexivity. }
  - intros x y.
    destruct (drawPoint_ready x y s Hr Hx) as (E1 & E2 & _ & E4 & E5).
    split; [exact E1|]. split; [exact E2|].
    intros x' y'.
    destruct (drawPoint_ready x' y' _ E4 E5) as (F1 & _).
    rewrite F1, E2. reflexivity.
  - destruct (clearMask_ready s Hr Hx) as (E1 & E2 & E3 & E4 & E5).
    split; [exact E1|]. split; [exact E2|]. split; [exact E3|].
    intros x y.
    destruct (drawPoint_ready x y _ E4 E5) as (F1 & _).
    rewrite F1, E2. reflexivity.
  - intros tr Hall.
    destruct (run_paint_clear tr s Hr Hx Hall) as (I1 & I2 & _).
    auto.
Qed.

(** X1. Whenever getMaskCanvas returns a canvas, that canvas has the native
    width and height of the image and holds one thing: the mask canvas
    drawn from its whole display area onto the whole native area. *)
Lemma getMaskCanvas_size (s : State) (c : Canvas) :
  getMaskCanvas s = Some c ->
  width c = imageWidth s /\ height c = imageHeight s /\
  exists m, maskCanvasRef s = Some m /\
    bitmap c = [DrawCanvas (width m) (height m) (bitmap m)
                  0 0 (inject_Z (width m)) (inject_Z (height m))
                  0 0 (inject_Z (imageWidth s)) (inject_Z (imageHeight s))].
Proof.
  unfold getMaskCanvas.
  destruct (hasMask s); [|discriminate].
  destruct (maskCanvasRef s) as [m|]; [|discriminate].
  destruct (context2d s); [|discriminate].
  cbn [negb]. intros E. injection E as <-.
  unfold paint, setHeight, setWidth, toLength, createCanvas.
  cbn [width height bitmap app]. rewrite !Qfloor_Z.
  repeat split. now exists m.
Qed.

(** X2. On a mounted editor with a 2D context and no mask yet, after any
    sequence of paints and clears (no reload in between) getMaskCanvas
    returns [null] exactly when nothing was painted since the last clear. *)
Lemma getMaskCanvas_paint_clear (tr : list Action) (s : State) :
  ready s = true -> context2d s = true -> hasMask s = false ->
  forallb paintOrClear tr = true ->
  (getMaskCanvas (fst (run tr s)) = None <-> paintedSinceReset false tr = false).
Proof.
  intros Hr Hx Hm Hall.
  destruct (run_paint_clear tr s Hr Hx Hall) as (_ & I2 & I3 & I4).
  rewrite Hm in I2. rewrite <- I2.
  destruct (ready_refs _ I3) as (ic & mc & ct & Hi & Hmc & Hc).
  unfold getMaskCanvas. rewrite Hmc, I4.
  destruct (hasMask (fst (run tr s))); simpl; split; congruence.
Qed.

End MaskSurfaceFacts.

Section MaskSurfaceScenarios.

Import JsString Dom ImageEditor.

(** C3 on the code. After a brush stroke and a reload of the image through
    a changed imageUrl, nothing has been painted since the load and the mask
    canvas is blank, yet getMaskCanvas does not return [null]: loadImage
    blanks the canvas without resetting [hasMask], so the export is a
    1600 x 1200 bitmap scaled up from the blank 800 x 600 mask canvas. *)
Theorem export_after_reload_is_not_null :
  let tr := [APaint 10 10; ALoad Scenario.nextImageUrl (Loaded 1600 1200)] in
  let s := fst (run tr Scenario.loadedEditor) in
  paintedSinceReset false tr = false /\
  maskBitmap s = [] /\
  hasMask s = true /\
  getMaskCanvas s
  = Some (mkCanvas 1600 1200 0 0
            [DrawCanvas 800 600 [] 0 0 800 600 0 0 1600 1200]) /\
  getMaskDataUrl s
  = Some (PngOf 1600 1200 [DrawCanvas 800 600 [] 0 0 800 600 0 0 1600 1200]).
Proof. vm_compute. repeat split. Qed.

(** C8 on the code. A paint session that an image load interrupts is not
    started anew. The first brush stroke on the loaded editor signals
    'mask-change' with [true]. The imageUrl prop then changes and the new
    image loads: the mask canvas is blank and nothing has been painted since
    the load, but the load neither resets the flag nor signals anything. The
    next brush stroke, the first one after the load, reaches the canvas and
    signals nothing, so over the whole trace the observers were told [true]
    once, where a first paint after a load is to signal [true] again. *)
Theorem paint_after_reload_signals_nothing :
  let reload := ALoad Scenario.nextImageUrl (Loaded 1600 1200) in
  let s := fst (run [APaint 10 10; reload] Scenario.loadedEditor) in
  hasMask Scenario.loadedEditor = false /\
  snd (run [APaint 10 10; reload] Scenario.loadedEditor) = [mask_change true] /\
  maskBitmap s = [] /\
  paintedSinceReset false [APaint 10 10; reload] = false /\
  hasMask s = true /\
  snd (drawPoint 20 20 s) = [] /\
  maskBitmap (fst (drawPoint 20 20 s))
  = [FillArc 20 20 (30 / 2) (lit "rgba(255, 36, 66, 0.5)")] /\
  snd (run [APaint 10 10; reload; APaint 20 20] Scenario.loadedEditor)
  = [mask_change true].
Proof. vm_compute. repeat split. Qed.

(** C9 on the code. One brush stroke is on the mask canvas and the imageUrl
    prop changes to a new URL. If the new image loads, the mask canvas is
    blanked but the mask is not reset as clear() resets it: the flag stays
    set, no 'mask-change' is sent, and getMaskCanvas still returns a mask,
    the blank canvas scaled to 1600 x 1200. If the load fails, the error
    overlay with its retry button is shown, over canvases that are left as
    they were: the image canvas still shows the previous image, the mask
    canvas still holds the stroke, the flag is set and getMaskCanvas returns
    the old mask, although the editor is now given the new URL. *)
Theorem reload_keeps_flag_and_failed_load_keeps_canvases :
  let s := Scenario.paintedEditor in
  let loaded := onImageUrlChange Scenario.nextImageUrl (Loaded 1600 1200) s in
  let failed := onImageUrlChange Scenario.nextImageUrl LoadFailed s in
  let stroke := FillArc 10 10 (30 / 2) (lit "rgba(255, 36, 66, 0.5)") in
  (maskBitmap s = [stroke] /\ hasMask s = true) /\
  (maskBitmap (fst loaded) = [] /\
   hasMask (fst loaded) = true /\
   snd loaded = [] /\
   getMaskCanvas (fst loaded)
   = Some (mkCanvas 1600 1200 0 0
             [DrawCanvas 800 600 [] 0 0 800 600 0 0 1600 1200])) /\
  (imageUrl (props (fst failed)) = Scenario.nextImageUrl /\
   loadError (fst failed) = true /\
   errorOverlayVisible (fst failed) = true /\
   snd failed = [console_error Gestures.loadFailedLabel] /\
   imageCanvasRef (fst failed)
   = Some (mkCanvas 800 600 0 0
             [DrawImage (imageUrl Scenario.editorProps) 0 0 800 600]) /\
   maskBitmap (fst failed) = [stroke] /\
   hasMask (fst failed) = true /\
   getMaskCanvas (fst failed)
   = Some (mkCanvas 1600 1200 0 0
             [DrawCanvas 800 600 [stroke] 0 0 800 600 0 0 1600 1200])).
Proof. vm_compute. repeat split. Qed.

(** The arithmetic of the fit is the machine's. A 1100 x 1500 image in the
    800 x 600 container: 600 * (1100 / 1500) is the double just below 440,
    so the canvases are 439 pixels wide and the scale factor is the double
    just above 5/2. A 2500 x 1100 image: 800 / (2500 / 1100) is just below
    352 and the canvases are 351 pixels high. An image of height 0 has an
    infinite ratio and a display height of 0; an image of width 0 has a
    scale factor that is not a number. *)
Example displaySize_rounds :
  (let d := displaySize 1100 1500 800 600 in
   toLength (dimension (fst d)) = 439 /\ toLength (dimension (snd d)) = 600 /\
   JsNumber.div (JsNumber.ofInt 1100) (fst d)
   = JsNumber.Finite (5629499534213121 # 2251799813685248)) /\
  (let d := displaySize 2500 1100 800 600 in
   toLength (dimension (fst d)) = 800 /\ toLength (dimension (snd d)) = 351 /\
   JsNumber.div (JsNumber.ofInt 2500) (fst d) = JsNumber.Finite (25 # 8)) /\
  displaySize 800 0 800 600 = (JsNumber.Finite 800, JsNumber.Finite 0) /\
  (let d := displaySize 0 800 800 600 in
   d = (JsNumber.Finite 0, JsNumber.Finite 600) /\
   JsNumber.div (JsNumber.ofInt 0) (fst d) = JsNumber.NaN).
Proof. vm_compute. repeat split. Qed.



Example mask_change_once_per_paint_session_witness :
  snd (run [APaint 1 1; APaint 2 2; AClear; APaint 3 3; APaint 4 4]
         Scenario.loadedEditor)
  = [mask_change true; mask_change false; mask_change true].
Proof.
  exact (proj1 (proj1 (proj2 (proj2
    (@mask_change_once_per_paint_session Scenario.loadedEditor
       eq_refl eq_refl)))
    [APaint 1 1; APaint 2 2; AClear; APaint 3 3; APaint 4 4] eq_refl)).
Defined.

Example reload_resets_mask_or_reports_witness :
  maskBitmap
    (fst (onImageUrlChange Scenario.nextImageUrl (Loaded 1600 1200)
            Scenario.paintedEditor))
  = [].
Proof.
  refine (proj1 (proj2
    (@reload_resets_mask_or_reports Scenario.paintedEditor
       Scenario.nextImageUrl (Loaded 1600 1200) eq_refl eq_refl _))).
  vm_compute. discriminate.
Defined.

End MaskSurfaceScenarios.

Section EditViewScenarios.

Import JsString Dom EditApi ProductPhotoEditView.

Example failed_apply_changes_nothing_witness :
  let v' := fst (handleApplyEdit Scenario.rejection Scenario.infoUnchanged
                   Scenario.editingView) in
  session v' = session Scenario.editingView /\
  instruction v' = instruction Scenario.editingView /\
  imageEditorRef v' = imageEditorRef Scenario.editingView.
Proof.
  destruct (@failed_apply_changes_nothing Scenario.rejection
              Scenario.infoUnchanged Scenario.editingView (lit "s1")
              eq_refl eq_refl eq_refl)
    as (H1 & _ & _ & _ & _ & H6 & H7 & _).
  exact (conj H1 (conj H6 H7)).
Defined.

Example blank_instruction_no_apply_witness :
  handleApplyEdit Scenario.rejection Scenario.infoUnchanged Scenario.idleView
  = (Scenario.idleView, []).
Proof.
  exact (proj2 (proj1 blank_instruction_no_apply Scenario.rejection
                  Scenario.infoUnchanged Scenario.idleView eq_refl)).
Defined.

Example undo_redo_guarded_witness :
  EditSessionMachine.undo
    (EditSessionMachine.create "s1"%string "A"%string "t0"%string)
  = EditSessionMachine.Err EditSessionMachine.IllegalTransition /\
  handleUndo Scenario.rejection Scenario.infoUnchanged Scenario.idleView
  = (Scenario.idleView, []).
Proof.
  split.
  - exact (proj1 (proj1 undo_redo_guarded string
                    (EditSessionMachine.create "s1"%string "A"%string "t0"%string))
             eq_refl).
  - exact (proj1 (proj2 undo_redo_guarded Scenario.rejection
                    Scenario.infoUnchanged Scenario.idleView) eq_refl).
Defined.

End EditViewScenarios.

(* ===================================================================== *)
(** * Properties of the product image uploader *)
(* ===================================================================== *)

Section UploaderFacts.

Import JsString ProductImageUploader.

Lemma eqb_eq (a b : jsstring) : JsString.eqb a b = true <-> a = b.
Proof.
  unfold JsString.eqb. destruct (list_eq_dec N.eq_dec a b); split; congruence.
Qed.

Lemma includes_In (l : list jsstring) (x : jsstring) :
  includes l x = true <-> In x l.
Proof.
  unfold includes. rewrite existsb_exists. split.
  - intros (y & Hy & E). apply eqb_eq in E. now subst.
  - intros H. exists x. split; [exact H|]. now apply eqb_eq.
Qed.

Lemma acceptable_spec (f : File) :
  acceptable f = true <->
  (type f = lit "image/png" \/ type f = lit "image/jpeg"
   \/ type f = lit "image/webp") /\ size f <= 10 * 1024 * 1024.
Proof.
  unfold acceptable. rewrite andb_true_iff, includes_In, Z.leb_le.
  unfold ACCEPTED_FORMATS, maxSize, In.
  intuition congruence.
Qed.

Lemma rejection_acceptable (f : File) :
  (acceptable f = true /\ rejection f = []) \/
  (acceptable f = false /\ exists m, rejection f = [error_event m]).
Proof.
  unfold acceptable, rejection.
  destruct (includes ACCEPTED_FORMATS (type f)); simpl.
  - destruct (maxSize <? size f) eqn:E.
    + right. apply Z.ltb_lt in E. split; [apply Z.leb_gt; lia | eauto].
    + left. apply Z.ltb_ge in E. split; [apply Z.leb_le; lia | reflexivity].
  - right. eauto.
Qed.

Lemma scanFiles_spec (fs : list File) :
  forall acc,
    validFiles (scanFiles fs acc) = validFiles acc ++ filter acceptable fs /\
    emitted (scanFiles fs acc) = emitted acc ++ flat_map rejection fs.
Proof.
  induction fs as [|f fs IH]; intros acc.
  - simpl. now rewrite !app_nil_r.
  - cbn [scanFiles filter flat_map].
    destruct (rejection_acceptable f) as [[Ha Hr] | [Ha [m Hr]]];
      rewrite Ha, Hr; unfold acceptable, rejection in Ha, Hr.
    + destruct (includes ACCEPTED_FORMATS (type f)); [|discriminate].
      cbn [negb andb] in *.
      destruct (maxSize <? size f); [discriminate|].
      destruct (IH (mkScan (validFiles acc ++ [f]) (scanError acc) (emitted acc)))
        as [-> ->]. cbn [validFiles emitted app].
      now rewrite <- app_assoc.
    + destruct (includes ACCEPTED_FORMATS (type f)); cbn [negb andb] in *.
      * destruct (maxSize <? size f); [|discriminate].
        injection Hr as <-.
        destruct (IH (mkScan (validFiles acc) (Some (FileTooLarge (name f)))
                        (emitted acc ++ [error_event (FileTooLarge (name f))])))
          as [-> ->]. cbn [validFiles emitted app].
        now rewrite <- app_assoc.
      * injection Hr as <-.
        destruct (IH (mkScan (validFiles acc) (Some (UnsupportedFormat (name f)))
                        (emitted acc ++ [error_event (UnsupportedFormat (name f))])))
          as [-> ->]. cbn [validFiles emitted app].
        now rewrite <- app_assoc.
Qed.

Lemma newImages_files mint (fs : list File) :
  forall k, map file (newImages mint k fs) = fs.
Proof. induction fs; intros k; simpl; [reflexivity | now rewrite IHfs]. Qed.

Lemma filter_all_or_reject (A : Type) (p : A -> bool) (l : list A) :
  filter p l = l \/ exists x, In x l /\ p x = false.
Proof.
  induction l as [|a l IH]; simpl; [now left|].
  destruct (p a) eqn:E.
  - destruct IH as [-> | (x & Hx & Hp)]; [now left | right; eauto].
  - right; eauto.
Qed.

Lemma filter_length_le (A : Type) (p : A -> bool) (l : list A) :
  (List.length (filter p l) <= List.length l)%nat.
Proof. induction l; simpl; [lia | destruct (p a); simpl; lia]. Qed.

Lemma rejection_emitted (f : File) (fs : list File) :
  In f fs -> acceptable f = false ->
  exists m, In (error_event m) (flat_map rejection fs).
Proof.
  intros Hin Hrej.
  destruct (rejection_acceptable f) as [[E _] | [_ [m Hm]]]; [congruence|].
  exists m. apply in_flat_map. exists f. split; [exact Hin|].
  rewrite Hm. now left.
Qed.

(** What processFiles stores and when it reports. *)
Lemma processFiles_spec (fileList : list File) mint (s : State) :
  let remainingSlots := maxImages s - Z.of_nat (List.length (images s)) in
  let added := filter acceptable (firstn (Z.to_nat remainingSlots) fileList) in
  let s' := fst (processFiles fileList mint s) in
  let out := snd (processFiles fileList mint s) in
  maxImages s' = maxImages s /\
  files s' = files s ++ added /\
  (forall f, In f (firstn (Z.to_nat remainingSlots) fileList) ->
             acceptable f = false ->
             exists m, In (error_event m) out) /\
  (added <> fileList -> exists m, In (error_event m) out).
Proof.
  intros remainingSlots added s' out. subst s' out.
  unfold processFiles. simpl maxImages. simpl images. fold remainingSlots.
  destruct (remainingSlots <=? 0) eqn:E.
  - apply Z.leb_le in E. simpl.
    assert (Hz : Z.to_nat remainingSlots = 0%nat) by lia.
    subst added. rewrite Hz. simpl. rewrite app_nil_r.
    split; [reflexivity|]. split; [reflexivity|]. split.
    + intros f [].
    + intros _. exists (TooManyImages (maxImages s)). now left.
  - apply Z.leb_gt in E.
    set (filesToAdd := firstn (Z.to_nat remainingSlots) fileList) in *.
    destruct (scanFiles_spec filesToAdd (mkScan [] (error (set_error None s)) []))
      as [Hv He]. simpl in Hv, He. fold added in Hv.
    set (scan := scanFiles filesToAdd _) in *.
    assert (Hrej : forall f, In f filesToAdd -> acceptable f = false ->
                   exists m, In (error_event m) (emitted scan)).
    { intros f Hin Hf. rewrite He. eapply rejection_emitted; eauto. }
    assert (Hshort : added <> fileList ->
                     added = filesToAdd ->
                     remainingSlots < Z.of_nat (List.length fileList)).
    { intros Hne Heq. rewrite Heq in Hne. subst filesToAdd.
      destruct (Z_lt_le_dec remainingSlots (Z.of_nat (List.length fileList)))
        as [L|L]; [exact L|].
      exfalso. apply Hne. apply firstn_all2. lia. }
    destruct (validFiles scan) as [|v vs] eqn:V.
    + simpl.
      split; [reflexivity|].
      split; [rewrite <- Hv, app_nil_r; reflexivity|].
      split; [exact Hrej|].
      intros Hne.
      destruct (filter_all_or_reject acceptable filesToAdd)
        as [Hall | (x & Hx & Hp)]; [|eauto].
      fold added in Hall. exfalso.
      pose proof (Hshort Hne Hall) as L.
      assert (Hnil : filesToAdd = []) by congruence.
      subst filesToAdd.
      destruct fileList; [simpl in L; lia|].
      destruct (Z.to_nat remainingSlots) eqn:Z0; [lia | discriminate].
    + rewrite <- V, Hv in *.
      assert (Hfiles :
                files (set_images
                         (images (set_error (scanError scan) (set_error None s))
                          ++ newImages mint 0 added)
                         (set_error (scanError scan) (set_error None s)))
                = files s ++ added).
      { unfold files; simpl. now rewrite map_app, newImages_files. }
      destruct (remainingSlots <? Z.of_nat (List.length fileList)) eqn:L; simpl fst; simpl snd.
      * split; [reflexivity|]. split; [exact Hfiles|]. split.
        -- intros f Hin Hf. destruct (Hrej f Hin Hf) as [m Hm].
           exists m. rewrite !in_app_iff. auto.
        -- intros _. exists (LimitReached remainingSlots).
           rewrite !in_app_iff. right. now left.
      * apply Z.ltb_ge in L.
        split; [reflexivity|]. split; [exact Hfiles|]. split.
        -- intros f Hin Hf. destruct (Hrej f Hin Hf) as [m Hm].
           exists m. rewrite !in_app_iff. auto.
        -- intros Hne.
           destruct (filter_all_or_reject acceptable filesToAdd)
             as [Hall | (x & Hx & Hp)].
           ++ fold added in Hall. pose proof (Hshort Hne Hall). lia.
           ++ destruct (Hrej x Hx Hp) as [m Hm].
              exists m. rewrite !in_app_iff. auto.
Qed.

Lemma processFiles_stored_ok (fileList : list File) mint (s : State) :
  stored_ok s -> stored_ok (fst (processFiles fileList mint s)).
Proof.
  intros [Hlen Hall].
  destruct (processFiles_spec fileList mint s) as (Hmax & Hfiles & _).
  unfold stored_ok. rewrite Hmax, Hfiles. split.
  - assert (Hl : List.length (images (fst (processFiles fileList mint s)))
                 = List.length (files s ++ filter acceptable
                     (firstn (Z.to_nat (maxImages s - Z.of_nat (List.length (images s))))
                        fileList))).
    { rewrite <- Hfiles. unfold files. now rewrite length_map. }
    rewrite Hl, length_app. unfold files. rewrite length_map.
    pose proof (filter_length_le acceptable
                  (firstn (Z.to_nat (maxImages s - Z.of_nat (List.length (images s))))
                     fileList)) as Hf.
    pose proof (firstn_le_length
                  (Z.to_nat (maxImages s - Z.of_nat (List.length (images s))))
                  fileList) as Hn.
    lia.
  - apply Forall_app. split; [exact Hall|].
    apply Forall_forall. intros f Hf. now apply filter_In in Hf.
Qed.

Lemma Forall_remove (A : Type) (P : A -> Prop) (l : list A) (n : nat) :
  Forall P l -> Forall P (firstn n l ++ skipn (S n) l).
Proof.
  intros H. revert n.
  induction H as [|x l Hx Hl IH]; intros n.
  - destruct n; constructor.
  - destruct n as [|n]; simpl.
    + destruct l; [constructor | now inversion Hl].
    + constructor; [exact Hx | apply IH].
Qed.

Lemma removeImage_stored_ok (index : Z) (s : State) :
  stored_ok s -> stored_ok (fst (removeImage index s)).
Proof.
  intros [Hlen Hall]. unfold removeImage.
  destruct (imageAt index s); [|exact (conj Hlen Hall)].
  unfold stored_ok, files.
  cbn [fst set_error set_images images maxImages]. split.
  - rewrite length_app, length_firstn, length_skipn. lia.
  - rewrite map_app, <- firstn_map, <- skipn_map. now apply Forall_remove.
Qed.

Lemma step_stored_ok (a : Action) (s : State) :
  0 <= maxImages s -> stored_ok s ->
  stored_ok (fst (step a s)) /\ maxImages (fst (step a s)) = maxImages s.
Proof.
  intros Hmax Hok. destruct a as [fs mint | fs mint | i | ]; simpl.
  - unfold handleFileSelect. destruct fs; [now split|].
    split; [now apply processFiles_stored_ok|].
    apply (processFiles_spec (f :: fs) mint s).
  - unfold handleZoneDrop. destruct fs as [[|f fs]|]; try (now split).
    split; [now apply (processFiles_stored_ok (f :: fs) mint
                         (s:=set_isZoneDragOver false s))|].
    apply (processFiles_spec (f :: fs) mint (set_isZoneDragOver false s)).
  - split; [now apply removeImage_stored_ok|].
    unfold removeImage. now destruct (imageAt i s).
  - split; [|reflexivity].
    unfold stored_ok; simpl. split; [lia | constructor].
Qed.

(** C10. With a non-negative [maxImages] (10 when the parent gives none),
    after any sequence of file selections, file drops, removals and
    clearAll, the list holds at most [maxImages] images and every stored
    file is a PNG, JPEG or WebP of at most 10 MB. processFiles stores
    exactly the valid files among the first [remainingSlots] of the list it
    is given, in order; a file among them that fails validation causes an
    'error' event, and whenever some file of the list is not stored an
    'error' event is emitted. *)
Theorem uploader_bounded_and_valid :
  (forall (m : option Z) (tr : list Action),
     0 <= maxImages (initial m) ->
     let s := run tr (initial m) in
     maxImages s = maxImages (initial m) /\
     Z.of_nat (List.length (images s)) <= maxImages s /\
     Forall (fun f =>
               (type f = lit "image/png" \/ type f = lit "image/jpeg"
                \/ type f = lit "image/webp") /\ size f <= 10 * 1024 * 1024)
            (files s)) /\
  maxImages (initial None) = 10 /\
  (forall (fileList : list File) mint (s : State),
     let remainingSlots := maxImages s - Z.of_nat (List.length (images s)) in
     let added := filter acceptable (firstn (Z.to_nat remainingSlots) fileList) in
     let s' := fst (processFiles fileList mint s) in
     let out := snd (processFiles fileList mint s) in
     files s' = files s ++ added /\
     (forall f, In f (firstn (Z.to_nat remainingSlots) fileList) ->
                acceptable f = false ->
                exists msg, In (error_event msg) out) /\
     (added <> fileList -> exists msg, In (error_event msg) out)).
Proof.
  split; [|split; [reflexivity|]].
  - intros m tr Hmax s. subst s.
    assert (Hgen : forall tr s0, 0 <= maxImages s0 -> stored_ok s0 ->
                   stored_ok (run tr s0) /\ maxImages (run tr s0) = maxImages s0).
    { clear. induction tr as [|a tr IH]; intros s0 H0 Hok; simpl; [now split|].
      destruct (step_stored_ok a H0 Hok) as [Hok1 Hm1].
      destruct (IH (fst (step a s0))) as [Hok2 Hm2]; [lia | exact Hok1 |].
      split; [exact Hok2 | lia]. }
    destruct (Hgen tr (initial m) Hmax) as [[Hlen Hall] Hm].
    { unfold stored_ok, initial; simpl. split; [exact Hmax | constructor]. }
    split; [exact Hm|]. split; [exact Hlen|].
    eapply Forall_impl; [|exact Hall].
    intros f Hf. now apply acceptable_spec.
  - intros fileList mint s.
    destruct (processFiles_spec fileList mint s) as (_ & H2 & H3 & H4).
    split; [exact H2|]. split; [exact H3 | exact H4].
Qed.

End UploaderFacts.

(** Two selections and a removal: a GIF and an oversized PNG are turned
    away, and the list stays within ten images. *)
Example uploader_bounded_and_valid_witness :
  let tr :=
    [ProductImageUploader.SelectFiles
       [Scenario.png "a.png" 2048; Scenario.gif "b.gif" 2048;
        Scenario.png "c.png" 20971520]
       Scenario.mint;
     ProductImageUploader.DropFiles
       (Some [Scenario.png "d.png" 1024; Scenario.png "e.png" 1024])
       Scenario.mint;
     ProductImageUploader.RemoveImage 1] in
  let s := ProductImageUploader.run tr (ProductImageUploader.initial None) in
  Z.of_nat (List.length (ProductImageUploader.images s))
  <= ProductImageUploader.maxImages s.
Proof.
  intros tr s.
  refine (proj1 (proj2 (proj1 uploader_bounded_and_valid None tr _))).
  vm_compute. discriminate.
Defined.

(* ===================================================================== *)
(** * Properties of the pointer gestures on the mask canvas *)
(* ===================================================================== *)

Section GestureFacts.

Import JsString Dom ImageEditor Gestures.

Lemma sameSurface_refl (s : State) : sameSurface s s.
Proof. repeat split. Qed.

Lemma sameSurface_trans (a b c : State) :
  sameSurface a b -> sameSurface b c -> sameSurface a c.
Proof.
  intros (A1 & A2 & A3 & A4) (B1 & B2 & B3 & B4).
  repeat split; try congruence; intros e; now rewrite B4, A4.
Qed.

Lemma arcAt_sameSurface (s s' : State) (e : PointerEvent) :
  sameSurface s s' -> arcAt s' e = arcAt s e.
Proof. intros (A1 & _ & _ & A4). unfold arcAt. now rewrite A1, A4. Qed.

(** drawPoint on a mounted editor, with everything it does. *)
Lemma drawPoint_full (x y : Q) (s : State) :
  ready s = true -> context2d s = true ->
  let s' := fst (drawPoint x y s) in
  sameSurface s s' /\
  isDrawing s' = isDrawing s /\
  maskBitmap s'
  = maskBitmap s ++ [FillArc x y (brushSize (props s) / 2)%Q (brushColor (props s))] /\
  hasMask s' = true /\
  snd (drawPoint x y s) = (if hasMask s then [] else [mask_change true]).
Proof.
  intros Hr Hx.
  destruct (ready_refs s Hr) as (ic & mc & ct & Hi & Hm & Hc).
  unfold drawPoint, maskBitmap, sameSurface, ready, getCanvasCoordinates.
  rewrite Hm, Hx. simpl negb. cbv iota.
  destruct (hasMask s) eqn:E; simpl; rewrite ?E, ?Hi, ?Hm, ?Hc, ?Hx; simpl;
    repeat split; reflexivity.
Qed.

(** One event, against the expected ink. *)
Lemma dispatch_inked (ev : DomEvent) (s : State) :
  ready s = true -> context2d s = true ->
  let s' := fst (dispatch ev s) in
  let ink := inked (isDrawing s) [ev] in
  sameSurface s s' /\
  isDrawing s' = pressed (isDrawing s) [ev] /\
  maskBitmap s' = maskBitmap s ++ map (arcAt s) ink /\
  hasMask s' = (hasMask s || negb (Nat.eqb (List.length ink) 0))%bool /\
  snd (dispatch ev s)
  = (if (hasMask s || Nat.eqb (List.length ink) 0)%bool
     then [] else [mask_change true]).
Proof.
  intros Hr Hx.
  assert (Paint1 : forall (e : PointerEvent) (s0 : State),
            ready s0 = true -> context2d s0 = true ->
            sameSurface s s0 -> hasMask s0 = hasMask s ->
            maskBitmap s0 = maskBitmap s ->
            let c := getCanvasCoordinates e s0 in
            let s' := fst (drawPoint (fst c) (snd c) s0) in
            sameSurface s s' /\ isDrawing s' = isDrawing s0 /\
            maskBitmap s' = maskBitmap s ++ [arcAt s e] /\
            hasMask s' = (hasMask s || true)%bool /\
            snd (drawPoint (fst c) (snd c) s0)
            = (if (hasMask s || false)%bool then [] else [mask_change true])).
  { intros e s0 Hr0 Hx0 Hs Hh Hb c s'. subst s'.
    destruct (drawPoint_full (fst c) (snd c) s0 Hr0 Hx0)
      as (F1 & F2 & F3 & F4 & F5).
    split; [eapply sameSurface_trans; eauto|].
    split; [exact F2|]. split.
    - rewrite F3, Hb. f_equal. f_equal.
      rewrite <- (arcAt_sameSurface e Hs). reflexivity.
    - split; [rewrite F4; now rewrite orb_true_r|].
      rewrite F5, Hh, orb_false_r. reflexivity. }
  destruct ev as [e | e | | | ts | ts | ]; simpl dispatch; simpl inked;
    simpl pressed.
  - (* mousedown *)
    unfold startDrawing.
    destruct (Paint1 e (set_isDrawing true s) Hr Hx (sameSurface_refl s)
                eq_refl eq_refl) as (P1 & P2 & P3 & P4 & P5).
    simpl in *. repeat split; try assumption; apply P1.
  - (* mousemove *)
    unfold draw.
    set (s1 := set_brushPreview true (getCanvasCoordinates e s) s).
    change (isDrawing s1) with (isDrawing s).
    destruct (isDrawing s) eqn:D; simpl negb; cbv iota.
    + destruct (Paint1 e s1 Hr Hx (sameSurface_refl s) eq_refl eq_refl)
        as (P1 & P2 & P3 & P4 & P5).
      change (getCanvasCoordinates e s1) with (getCanvasCoordinates e s) in *.
      simpl in *. rewrite D in P2.
      repeat split; try assumption; apply P1.
    + simpl. rewrite app_nil_r, !orb_false_r, orb_true_r.
      repeat split; try assumption; now destruct (hasMask s).
  - simpl. rewrite app_nil_r, orb_false_r, orb_true_r. repeat split; try assumption.
  - simpl. rewrite app_nil_r, orb_false_r, orb_true_r. repeat split; try assumption.
  - (* touchstart *)
    destruct ts as [|t [|t' ts]]; simpl.
    + rewrite app_nil_r, orb_false_r, orb_true_r. repeat split; try assumption.
    + unfold handleTouchStart.
      destruct (Paint1 t (set_isDrawing true s) Hr Hx (sameSurface_refl s)
                  eq_refl eq_refl) as (P1 & P2 & P3 & P4 & P5).
      simpl in *. repeat split; try assumption; apply P1.
    + rewrite app_nil_r, orb_false_r, orb_true_r. repeat split; try assumption.
  - (* touchmove *)
    destruct ts as [|t [|t' ts]]; simpl.
    + rewrite app_nil_r, orb_false_r, orb_true_r. repeat split; try assumption.
    + destruct (isDrawing s) eqn:D.
      * destruct (Paint1 t s Hr Hx (sameSurface_refl s) eq_refl eq_refl)
          as (P1 & P2 & P3 & P4 & P5).
        simpl in *. rewrite D in P2.
        repeat split; try assumption; apply P1.
      * simpl. rewrite app_nil_r, orb_false_r, orb_true_r. repeat split; try assumption.
    + rewrite app_nil_r, orb_false_r, orb_true_r. repeat split; try assumption.
  - simpl. rewrite app_nil_r, orb_false_r, orb_true_r. repeat split; try assumption.
Qed.

Lemma inked_cons (d : bool) (ev : DomEvent) (evs : list DomEvent) :
  inked d (ev :: evs) = inked d [ev] ++ inked (pressed d [ev]) evs /\
  pressed d (ev :: evs) = pressed (pressed d [ev]) evs.
Proof.
  destruct ev as [e | e | | | [|t [|t' ts]] | [|t [|t' ts]] | ]; simpl;
    rewrite ?app_nil_r; split; reflexivity.
Qed.

(** A sequence of events, against the expected ink. *)
Lemma dispatchAll_inked (evs : list DomEvent) :
  forall s : State,
    ready s = true -> context2d s = true ->
    let s' := fst (dispatchAll evs s) in
    let ink := inked (isDrawing s) evs in
    sameSurface s s' /\
    isDrawing s' = pressed (isDrawing s) evs /\
    maskBitmap s' = maskBitmap s ++ map (arcAt s) ink /\
    hasMask s' = (hasMask s || negb (Nat.eqb (List.length ink) 0))%bool /\
    snd (dispatchAll evs s)
    = (if (hasMask s || Nat.eqb (List.length ink) 0)%bool
       then [] else [mask_change true]).
Proof.
  induction evs as [|ev evs IH]; intros s Hr Hx.
  - simpl. rewrite app_nil_r, orb_false_r, orb_true_r.
    repeat split.
  - destruct (dispatch_inked ev s Hr Hx) as (S1 & D1 & B1 & M1 & O1).
    destruct (inked_cons (isDrawing s) ev evs) as [Ei Ep].
    cbv zeta. rewrite Ei, Ep.
    simpl dispatchAll.
    destruct (dispatch ev s) as [s1 o1]. simpl fst in *; simpl snd in *.
    assert (Hr1 : ready s1 = true) by (destruct S1 as (_ & _ & R & _); congruence).
    assert (Hx1 : context2d s1 = true) by (destruct S1 as (_ & X & _); congruence).
    destruct (IH s1 Hr1 Hx1) as (S2 & D2 & B2 & M2 & O2).
    destruct (dispatchAll evs s1) as [s2 o2]. simpl fst in *; simpl snd in *.
    rewrite D1 in D2, B2, M2, O2.
    split; [eapply sameSurface_trans; eauto|].
    split; [exact D2|].
    split.
    { rewrite B2, B1, map_app, <- app_assoc. f_equal. f_equal.
      apply map_ext. intros e. now apply arcAt_sameSurface. }
    rewrite length_app.
    split.
    { rewrite M2, M1.
      destruct (hasMask s), (List.length (inked (isDrawing s) [ev])),
        (List.length (inked (pressed (isDrawing s) [ev]) evs)); reflexivity. }
    rewrite O1, O2, M1.
    destruct (hasMask s), (List.length (inked (isDrawing s) [ev])),
      (List.length (inked (pressed (isDrawing s) [ev]) evs)); reflexivity.
Qed.

Lemma inked_moves (d : bool) (es : list PointerEvent) (rest : list DomEvent) :
  inked d (map mousemove es ++ rest)
  = (if d then es else []) ++ inked d rest /\
  pressed d (map mousemove es ++ rest) = pressed d rest.
Proof.
  induction es as [|e es [IH1 IH2]]; simpl.
  - now destruct d.
  - rewrite IH1, IH2. destruct d; simpl; split; reflexivity.
Qed.

(** X3. On a mounted editor with a 2D context, any sequence of mouse and
    touch events puts one brush disc on the mask canvas for every press and
    for every move made while pressed, in the order of the events, and
    nothing else: each disc is centred at the pointer position relative to
    the mask canvas and has radius brushSize / 2. In particular a drag
    (mousedown, moves, mouseup) paints at the press and at every move, and
    moves made with the button up paint nothing and signal nothing. At most
    one 'mask-change' is sent, and only if the mask flag was not yet set. *)
Theorem pointer_events_ink (evs : list DomEvent) (s : State) :
  ready s = true ->
  context2d s = true ->
  let s' := fst (dispatchAll evs s) in
  let ink := inked (isDrawing s) evs in
  (maskBitmap s' = maskBitmap s ++ map (arcAt s) ink /\
   isDrawing s' = pressed (isDrawing s) evs /\
   hasMask s' = (hasMask s || negb (Nat.eqb (List.length ink) 0))%bool /\
   snd (dispatchAll evs s)
   = (if (hasMask s || Nat.eqb (List.length ink) 0)%bool
      then [] else [mask_change true])) /\
  (forall e0 es,
     let drag := mousedown e0 :: map mousemove es ++ [mouseup] in
     maskBitmap (fst (dispatchAll drag s))
     = maskBitmap s ++ map (arcAt s) (e0 :: es) /\
     isDrawing (fst (dispatchAll drag s)) = false) /\
  (forall es,
     isDrawing s = false ->
     maskBitmap (fst (dispatchAll (map mousemove es) s)) = maskBitmap s /\
     hasMask (fst (dispatchAll (map mousemove es) s)) = hasMask s /\
     snd (dispatchAll (map mousemove es) s) = []).
Proof.
  intros Hr Hx s' ink. subst s' ink. split; [|split].
  - destruct (dispatchAll_inked evs s Hr Hx) as (_ & H1 & H2 & H3 & H4).
    auto.
  - intros e0 es drag. subst drag.
    destruct (dispatchAll_inked (mousedown e0 :: map mousemove es ++ [mouseup])
                s Hr Hx) as (_ & H1 & H2 & _).
    cbv zeta in H1, H2. simpl inked in H2. simpl pressed in H1.
    destruct (inked_moves true es [mouseup]) as [I1 I2].
    rewrite I1 in H2. rewrite I2 in H1. simpl in H1, H2.
    rewrite app_nil_r in H2. split; assumption.
  - intros es Hd.
    destruct (dispatchAll_inked (map mousemove es) s Hr Hx)
      as (_ & _ & H2 & H3 & H4).
    cbv zeta in H2, H3, H4.
    destruct (inked_moves (isDrawing s) es []) as [I1 _].
    rewrite app_nil_r in I1. rewrite Hd in I1, H2, H3, H4. simpl in I1.
    rewrite I1 in H2, H3, H4. simpl in H2, H3, H4.
    rewrite app_nil_r in H2. rewrite orb_false_r in H3. rewrite orb_true_r in H4.
    auto.
Qed.

Lemma inked_asMouse (evs : list DomEvent) :
  forall d,
    inked d (flat_map asMouse evs) = inked d evs /\
    pressed d (flat_map asMouse evs) = pressed d evs.
Proof.
  induction evs as [|ev evs IH]; intros d; [now split|].
  destruct (inked_cons d ev evs) as [E1 E2]. rewrite E1, E2.
  destruct ev as [e | e | | | [|t [|t' ts]] | [|t [|t' ts]] | ];
    simpl flat_map; simpl app;
    try (destruct (inked_cons d (mousedown e) (flat_map asMouse evs)) as [F1 F2]);
    simpl; rewrite ?app_nil_r;
    solve [ apply IH
          | destruct (IH true) as [-> ->]; now split
          | destruct (IH false) as [-> ->]; now split
          | destruct (IH d) as [-> ->]; now split ].
Qed.

(** X4. A one-finger touch gesture paints exactly what the corresponding
    mouse gesture paints (touchstart as mousedown, touchmove as mousemove,
    touchend as mouseup): the same discs on the mask canvas, the same mask
    flag, the same pressed state and the same 'mask-change' events. Touch
    events with no finger or with two or more fingers down are ignored. *)
Theorem touch_paints_like_mouse (evs : list DomEvent) (s : State) :
  ready s = true ->
  context2d s = true ->
  let viaTouch := dispatchAll evs s in
  let viaMouse := dispatchAll (flat_map asMouse evs) s in
  maskBitmap (fst viaTouch) = maskBitmap (fst viaMouse) /\
  hasMask (fst viaTouch) = hasMask (fst viaMouse) /\
  isDrawing (fst viaTouch) = isDrawing (fst viaMouse) /\
  snd viaTouch = snd viaMouse /\
  (forall ts, List.length ts <> 1%nat ->
     dispatch (touchstart ts) s = (s, []) /\
     dispatch (touchmove ts) s = (s, [])).
Proof.
  intros Hr Hx viaTouch viaMouse. subst viaTouch viaMouse.
  destruct (dispatchAll_inked evs s Hr Hx) as (_ & A1 & A2 & A3 & A4).
  destruct (dispatchAll_inked (flat_map asMouse evs) s Hr Hx)
    as (_ & B1 & B2 & B3 & B4).
  cbv zeta in *.
  destruct (inked_asMouse evs (isDrawing s)) as [E1 E2].
  rewrite E1 in B2, B3, B4. rewrite E2 in B1.
  repeat split; try congruence;
    destruct ts as [|t [|t' ts]]; simpl in *; congruence.
Qed.

End GestureFacts.

(* ===================================================================== *)
(** * Further properties of the mask authoring surface *)
(* ===================================================================== *)

Section MaskSurfaceMore.

Import JsString Dom ImageEditor Gestures.

(** clearMask on a mounted editor, with what it leaves alone. *)
Lemma clearMask_full (s : State) :
  ready s = true -> context2d s = true ->
  let s' := fst (clearMask s) in
  props s' = props s /\ context2d s' = true /\ ready s' = true /\
  maskBitmap s' = [] /\ hasMask s' = false.
Proof.
  intros Hr Hx.
  destruct (ready_refs s Hr) as (ic & mc & ct & Hi & Hm & Hc).
  unfold clearMask, maskBitmap, ready, clearRect.
  rewrite Hm, Hx, covers_whole. simpl. rewrite ?Hi, ?Hc, ?Hx.
  repeat split; reflexivity.
Qed.

Lemma strokesLeft_run (tr : list Action) :
  forall s : State,
    ready s = true -> context2d s = true ->
    forallb paintOrClear tr = true ->
    maskBitmap (fst (run tr s)) = strokesLeft (props s) (maskBitmap s) tr /\
    ((hasMask s = true <-> maskBitmap s <> []) ->
     (hasMask (fst (run tr s)) = true <-> maskBitmap (fst (run tr s)) <> [])).
Proof.
  induction tr as [|a tr IH]; intros s Hr Hx Hall.
  - simpl. split; [reflexivity | auto].
  - simpl in Hall. apply andb_true_iff in Hall as [Ha Hall].
    destruct a as [x y| | |]; try discriminate; simpl.
    + destruct (drawPoint_full x y s Hr Hx) as ((P & X & R & _) & _ & B & M & _).
      destruct (drawPoint x y s) as [s1 e1]; simpl in *.
      assert (Hr1 : ready s1 = true) by congruence.
      assert (Hx1 : context2d s1 = true) by congruence.
      destruct (IH s1 Hr1 Hx1 Hall) as [I1 I2].
      destruct (run tr s1) as [s2 e2]; simpl in *.
      rewrite P, B in I1. split; [exact I1|].
      intros _. apply I2. rewrite M, B. split; [|reflexivity].
      intros _ E. now destruct (maskBitmap s).
    + destruct (clearMask_full s Hr Hx) as (P & X & R & B & M).
      destruct (clearMask s) as [s1 e1]; simpl in *.
      destruct (IH s1 R X Hall) as [I1 I2].
      destruct (run tr s1) as [s2 e2]; simpl in *.
      rewrite P, B in I1. split; [exact I1|].
      intros _. apply I2. rewrite M, B. split; [discriminate | congruence].
Qed.

(** X5. On a mounted editor with a 2D context, after any sequence of
    paints and clears the mask canvas holds exactly the discs painted since
    the last clear, in the order painted (and before them what the canvas
    held at the start, if no clear came): a paint never removes or reorders
    earlier strokes and a clear removes them all. If the mask flag agreed
    with the canvas at the start (set exactly when the canvas is not blank)
    it still agrees at the end. *)
Theorem strokes_since_last_clear (tr : list Action) (s : State) :
  ready s = true ->
  context2d s = true ->
  forallb paintOrClear tr = true ->
  maskBitmap (fst (run tr s)) = strokesLeft (props s) (maskBitmap s) tr /\
  ((hasMask s = true <-> maskBitmap s <> []) ->
   (hasMask (fst (run tr s)) = true <-> maskBitmap (fst (run tr s)) <> [])).
Proof. intros Hr Hx Hall. now apply strokesLeft_run. Qed.

(** X6. A load that fails on a mounted editor touches neither canvas: the
    image canvas, the mask canvas with what is painted on it, the recorded
    native size and the scale are what they were; the editor ends with
    [loadError] set and [loading] cleared and has logged the failure. No
    load, whatever its outcome, sends 'mask-change' or changes the mask
    flag, and loadImage does nothing at all while the URL is empty or the
    image canvas is not mounted. *)
Theorem failed_load_keeps_canvases (s : State) :
  ready s = true ->
  truthy (imageUrl (props s)) = true ->
  (let s' := fst (loadImage LoadFailed s) in
   imageCanvasRef s' = imageCanvasRef s /\
   maskCanvasRef s' = maskCanvasRef s /\
   imageWidth s' = imageWidth s /\ imageHeight s' = imageHeight s /\
   canvasScale s' = canvasScale s /\
   isDrawing s' = isDrawing s /\
   loadError s' = true /\ loading s' = false /\
   snd (loadImage LoadFailed s) = [console_error loadFailedLabel]) /\
  (forall r,
     hasMask (fst (loadImage r s)) = hasMask s /\
     forall b, ~ In (mask_change b) (snd (loadImage r s))) /\
  (forall r s0,
     truthy (imageUrl (props s0)) = false \/ imageCanvasRef s0 = None ->
     loadImage r s0 = (s0, [])).
Proof.
  intros Hr Hu. split; [|split].
  - destruct (ready_refs s Hr) as (ic & mc & ct & Hi & Hm & Hc).
    unfold loadImage. rewrite Hu, Hi. simpl. repeat split; assumption.
  - intros r. split; [apply loadImage_keeps|].
    intros b. unfold loadImage. rewrite Hu. simpl negb. cbv iota.
    destruct (imageCanvasRef s); [|intros []].
    destruct r; simpl; [intros [] | intros [E|[]]; discriminate].
  - intros r s0 [E|E]; unfold loadImage; rewrite E; simpl.
    + reflexivity.
    + now destruct (negb (truthy (imageUrl (props s0)))).
Qed.

(** X7. After an image has loaded on a mounted editor, the image canvas
    and the mask canvas have the same pixel size, that size lies within the
    container ([clientWidth] by [clientHeight], or by 600 when the client
    height is 0), and it fills the container in at least one direction. The
    display size is the one the code computes in binary64, truncated by the
    canvas; the image sides and the container sides are positive integers
    below 2^32 (the container height may be 0). *)
Theorem canvases_fit_container (s : State) (w h : Z) ct :
  ready s = true ->
  canvasContainerRef s = Some ct ->
  truthy (imageUrl (props s)) = true ->
  0 < w < 2 ^ 32 -> 0 < h < 2 ^ 32 ->
  0 < clientWidth ct < 2 ^ 32 -> 0 <= clientHeight ct < 2 ^ 32 ->
  let s' := fst (loadImage (Loaded w h) s) in
  exists cw ch,
    canvasSize (imageCanvasRef s') = Some (cw, ch) /\
    canvasSize (maskCanvasRef s') = Some (cw, ch) /\
    0 <= cw <= clientWidth ct /\
    0 <= ch <= fitHeight ct /\
    (cw = clientWidth ct \/ ch = fitHeight ct).
Proof.
  intros Hr Hc Hu Hw Hh Hcw Hch s'. subst s'.
  destruct (ready_refs s Hr) as (ic & mc & ct' & Hi & Hm & Hc').
  assert (ct' = ct) by congruence. subst ct'.
  pose proof (fitHeight_range ct Hch) as Hfh.
  destruct (displaySize_fits Hw Hh Hcw Hfh)
    as (dw & dh & Ed & P1 & P2 & L1 & L2 & Side & _).
  destruct (loadImage_loaded_fields w h s Hi Hm Hc Hu)
    as (_ & _ & _ & F4 & F5 & _).
  rewrite Ed in F4, F5. cbn [fst snd dimension] in F4, F5.
  unfold toLength in F4, F5.
  exists (Qfloor dw), (Qfloor dh).
  rewrite F4, F5. simpl canvasSize.
  split; [reflexivity|]. split; [reflexivity|].
  split; [now apply Qfloor_fits|]. split; [now apply Qfloor_fits|].
  destruct Side as [[E _]|[E _]]; [left | right]; rewrite E; apply Qfloor_Z.
Qed.

End MaskSurfaceMore.

(* ===================================================================== *)
(** * Further properties of the edit page *)
(* ===================================================================== *)

Section EditPageFacts.

Import JsString Dom EditApi ProductPhotoEditView EditPage.

(** Delivering the editor's events changes the mask flag only. *)
Lemma deliver_frame (es : list ImageEditor.Effect) (v : View) :
  deliver es v = set_hasMask (hasMask (deliver es v)) v.
Proof.
  revert v. induction es as [|e es IH]; intros v.
  - now destruct v.
  - destruct e as [b|l]; simpl.
    + rewrite IH. now destruct v.
    + apply IH.
Qed.


(** The page's clearMask, field by field. *)
Lemma clearMask_view (v : View) :
  loading (clearMask v) = loading v /\ error (clearMask v) = error v /\
  isProcessing (clearMask v) = isProcessing v /\
  sessionId (clearMask v) = sessionId v /\ session (clearMask v) = session v /\
  instruction (clearMask v) = instruction v /\
  hasChanges (clearMask v) = hasChanges v /\
  hasMask (clearMask v) = false /\
  imageEditorRef (clearMask v)
  = match imageEditorRef v with
    | Some ed => Some (fst (ImageEditor.clearMask ed))
    | None => None
    end.
Proof.
  unfold clearMask.
  destruct (imageEditorRef v) as [ed|] eqn:E.
  - destruct (ImageEditor.clearMask ed) as [ed' es]. rewrite deliver_frame.
    simpl. repeat split.
  - simpl. rewrite E. repeat split.
Qed.

(** X8. When the apply request succeeds, handleApplyEdit commits the edit
    on the page: the instruction box is emptied, the mask is cleared (the
    page's flag is reset and, with a mounted editor, the mask canvas is
    blank and the editor's flag reset), [hasChanges] is set and
    [isProcessing] is cleared. The session summary shown is the one of the
    refresh if it brought one, else the one of the reply, else the previous
    one. Exactly two requests are made: the apply, then the refresh. *)
Theorem successful_apply_commits (result : EditResult) info (v : View) sid :
  activeSession v = Some sid ->
  canApplyEdit v = true ->
  success result = true ->
  let v' := fst (handleApplyEdit (Resolved result) info v) in
  instruction v' = [] /\
  hasChanges v' = true /\
  isProcessing v' = false /\
  hasMask v' = false /\
  session v' = sessionAfter (EditApi.session result) info (session v) /\
  sessionId v' = sessionId v /\
  (forall ed, imageEditorRef v = Some ed ->
     ImageEditor.ready ed = true -> ImageEditor.context2d ed = true ->
     exists ed', imageEditorRef v' = Some ed' /\
                 ImageEditor.maskBitmap ed' = [] /\
                 ImageEditor.hasMask ed' = false) /\
  calls (snd (handleApplyEdit (Resolved result) info v))
  = [applyEditWithMaskCanvas sid (instruction v)
       (if hasMask v
        then match imageEditorRef v with
             | Some ed => ImageEditor.getMaskCanvas ed
             | None => None
             end
        else None);
     getSessionInfo sid].
Proof.
  intros Hsid Hcan Hok v'. subst v'.
  unfold handleApplyEdit. rewrite Hsid, Hcan, Hok. simpl negb. cbv iota.
  set (v2 := match EditApi.session result with
             | Some s => set_session (Some s) (set_isProcessing true v)
             | None => set_isProcessing true v
             end).
  set (v3 := set_instruction [] v2).
  destruct (clearMask_view v3)
    as (C1 & C2 & C3 & C4 & C5 & C6 & C7 & C8 & C9).
  set (v5 := set_hasChanges true (clearMask v3)).
  assert (Hsidf : sessionId v5 = sessionId v).
  { change (sessionId v5) with (sessionId (clearMask v3)). rewrite C4.
    unfold v3, v2. destruct (EditApi.session result); reflexivity. }
  assert (Hsid5 : activeSession v5 = Some sid).
  { unfold activeSession in *. rewrite Hsidf. exact Hsid. }
  assert (Hses5 : session v5
                  = match EditApi.session result with
                    | Some s => Some s
                    | None => session v
                    end).
  { change (session v5) with (session (clearMask v3)). rewrite C5.
    unfold v3, v2. destruct (EditApi.session result); reflexivity. }
  assert (Hed5 : imageEditorRef v5
                 = match imageEditorRef v with
                   | Some ed => Some (fst (ImageEditor.clearMask ed))
                   | None => None
                   end).
  { change (imageEditorRef v5) with (imageEditorRef (clearMask v3)).
    rewrite C9. unfold v3, v2.
    destruct (EditApi.session result); reflexivity. }
  assert (Hins5 : instruction v5 = []).
  { change (instruction v5) with (instruction (clearMask v3)).
    rewrite C6. reflexivity. }
  assert (Hmask5 : hasMask v5 = false) by exact C8.
  assert (Hch5 : hasChanges v5 = true) by reflexivity.
  clearbody v5. clear C1 C2 C3 C4 C5 C6 C7 C8 C9. clearbody v3.
  unfold refreshSession. rewrite Hsid5.
  assert (Hedit : forall w : View,
            imageEditorRef w = imageEditorRef v5 ->
            forall ed, imageEditorRef v = Some ed ->
              ImageEditor.ready ed = true -> ImageEditor.context2d ed = true ->
              exists ed', imageEditorRef w = Some ed' /\
                          ImageEditor.maskBitmap ed' = [] /\
                          ImageEditor.hasMask ed' = false).
  { intros w Hw ed Hed Hr Hx. rewrite Hw, Hed5, Hed.
    destruct (clearMask_ready ed Hr Hx) as (_ & K2 & K3 & _).
    eexists. split; [reflexivity|]. split; assumption. }
  unfold sessionAfter.
  destruct info as [i|e]; simpl fst; simpl snd.
  - destruct (info_success i); [destruct (info_session i)|]; simpl;
      rewrite ?Hins5, ?Hmask5, ?Hses5, ?Hsidf, ?Hch5;
      (repeat split; try reflexivity); apply Hedit; reflexivity.
  - simpl. rewrite ?Hins5, ?Hmask5, ?Hses5, ?Hsidf, ?Hch5.
    (repeat split; try reflexivity); apply Hedit; reflexivity.
Qed.

(** The common body of handleUndo and handleRedo, outcome by outcome. *)
Lemma historyRequest_outcome (request : jsstring -> Request)
    (label fallback : jsstring) reply info sid (v : View) :
  activeSession v = Some sid ->
  let v' := fst (historyRequest request label fallback reply info sid v) in
  let effects := snd (historyRequest request label fallback reply info sid v) in
  instruction v' = instruction v /\
  imageEditorRef v' = imageEditorRef v /\
  hasMask v' = hasMask v /\
  hasChanges v' = hasChanges v /\
  sessionId v' = sessionId v /\
  isProcessing v' = false /\
  (editFailed reply ->
     session v' = session v /\
     effects = [Call (request sid);
                ConsoleError label (failureShown fallback reply);
                Alert (alertText fallback (failureShown fallback reply))]) /\
  (forall result,
     reply = Resolved result -> success result = true ->
     session v' = sessionAfter (EditApi.session result) info (session v) /\
     calls effects = [request sid; getSessionInfo sid]).
Proof.
  intros Hsid v' effects. subst v' effects. unfold historyRequest.
  destruct reply as [result|e].
  - destruct (success result) eqn:Hok; simpl negb; cbv iota.
    + set (v2 := match EditApi.session result with
                 | Some s => set_session (Some s) (set_isProcessing true v)
                 | None => set_isProcessing true v
                 end).
      assert (Hsid2 : activeSession v2 = Some sid)
        by (unfold v2; destruct (EditApi.session result); exact Hsid).
      assert (F : instruction v2 = instruction v /\
                  imageEditorRef v2 = imageEditorRef v /\
                  hasMask v2 = hasMask v /\ hasChanges v2 = hasChanges v /\
                  sessionId v2 = sessionId v /\
                  session v2 = match EditApi.session result with
                               | Some s => Some s
                               | None => session v
                               end)
        by (unfold v2; destruct (EditApi.session result); repeat split).
      destruct F as (F1 & F2 & F3 & F4 & F5 & F6).
      clearbody v2.
      unfold refreshSession. rewrite Hsid2. unfold sessionAfter.
      destruct info as [i|e];
        [destruct (info_success i); [destruct (info_session i)|]|];
        simpl; rewrite ?F1, ?F2, ?F3, ?F4, ?F5, ?F6;
        (repeat split; try reflexivity); intros;
        try (match goal with
             | H : Resolved _ = Resolved _ |- _ => injection H as <-
             end; reflexivity);
        simpl in *; congruence.
    + simpl. repeat split; try reflexivity; intros; simpl in *; congruence.
  - simpl. repeat split; try reflexivity; intros; discriminate.
Qed.

(** X9. handleUndo (with something to undo) and handleRedo (with something
    to redo) make exactly one request to the session's /undo or /redo
    endpoint and, however it settles, leave the instruction text, the mask
    surface, the mask flag, [hasChanges] and the session id as they were
    and clear [isProcessing]. If the request fails the session summary is
    kept and the failure is shown in an alert; if it succeeds the summary
    becomes the one of the refresh, else of the reply, else stays. *)
Theorem undo_redo_outcomes reply info (v : View) sid :
  activeSession v = Some sid ->
  (canUndo v = true ->
   let v' := fst (handleUndo reply info v) in
   let effects := snd (handleUndo reply info v) in
   instruction v' = instruction v /\ imageEditorRef v' = imageEditorRef v /\
   hasMask v' = hasMask v /\ hasChanges v' = hasChanges v /\
   sessionId v' = sessionId v /\ isProcessing v' = false /\
   (editFailed reply ->
      session v' = session v /\
      effects = [Call (undoEdit sid);
                 ConsoleError logUndoFailed (failureShown msgUndoFailed reply);
                 Alert (alertText msgUndoFailed (failureShown msgUndoFailed reply))]) /\
   (forall result,
      reply = Resolved result -> success result = true ->
      session v' = sessionAfter (EditApi.session result) info (session v) /\
      calls effects = [undoEdit sid; getSessionInfo sid])) /\
  (canRedo v = true ->
   let v' := fst (handleRedo reply info v) in
   let effects := snd (handleRedo reply info v) in
   instruction v' = instruction v /\ imageEditorRef v' = imageEditorRef v /\
   hasMask v' = hasMask v /\ hasChanges v' = hasChanges v /\
   sessionId v' = sessionId v /\ isProcessing v' = false /\
   (editFailed reply ->
      session v' = session v /\
      effects = [Call (redoEdit sid);
                 ConsoleError logRedoFailed (failureShown msgRedoFailed reply);
                 Alert (alertText msgRedoFailed (failureShown msgRedoFailed reply))]) /\
   (forall result,
      reply = Resolved result -> success result = true ->
      session v' = sessionAfter (EditApi.session result) info (session v) /\
      calls effects = [redoEdit sid; getSessionInfo sid])).
Proof.
  intros Hsid. split; intros Hcan; unfold handleUndo, handleRedo;
    rewrite Hsid, Hcan; simpl negb; cbv iota;
    apply historyRequest_outcome; exact Hsid.
Qed.







(** X11. handleCancel asks for confirmation exactly when there are changes;
    if the user declines, nothing else happens: no request, no navigation.
    Otherwise the page always navigates back, whether or not the cancel
    request succeeds, after sending one DELETE for the session. The
    onUnmounted hook that runs when the page is left sends the DELETE (once
    more) exactly when there are no changes. *)
Theorem cancel_confirms_then_leaves reply (v : View) sid :
  activeSession v = Some sid ->
  (hasChanges v = true -> handleCancel false reply v = [Confirm msgConfirmCancel]) /\
  (forall confirmed,
     hasChanges v = false \/ confirmed = true ->
     pageCalls (handleCancel confirmed reply v) = [cancelEdit sid] /\
     last (handleCancel confirmed reply v) (Confirm []) = RouterBack /\
     (In (Confirm msgConfirmCancel) (handleCancel confirmed reply v)
      <-> hasChanges v = true)) /\
  pageCalls (onUnmounted v)
  = (if hasChanges v then [] else [cancelEdit sid]).
Proof.
  intros Hsid. unfold handleCancel, onUnmounted. rewrite Hsid.
  split; [|split].
  - intros ->. reflexivity.
  - intros confirmed Hc.
    destruct (hasChanges v) eqn:Hch.
    + destruct Hc as [Hc|Hc]; [discriminate|]. subst confirmed.
      destruct reply; simpl; (split; [reflexivity|]); (split; [reflexivity|]);
        split; auto.
    + destruct reply; simpl; (split; [reflexivity|]); (split; [reflexivity|]);
        split; try discriminate;
        intro Hin; repeat (destruct Hin as [Hin|Hin]; [discriminate|]);
        destruct Hin.
  - now destruct (hasChanges v).
Qed.

(** X12. handleSave makes exactly one request, to the session's /save
    endpoint, changes nothing on the page (isProcessing ends cleared) and
    navigates back exactly when the save succeeded; a rejected request or a
    reply reporting failure keeps the user on the page and shows an
    alert. *)
Theorem save_leaves_only_on_success reply (v : View) sid :
  activeSession v = Some sid ->
  let v' := fst (handleSave reply v) in
  let effects := snd (handleSave reply v) in
  v' = set_isProcessing false v /\
  pageCalls effects = [saveEdit sid] /\
  (In RouterBack effects <-> saved reply = true) /\
  (saved reply = true -> effects = [Did (Call (saveEdit sid)); Did (Alert msgSaved); RouterBack]) /\
  (saved reply = false -> exists msg, In (Did (Alert msg)) effects).
Proof.
  intros Hsid v' effects. subst v' effects. unfold handleSave. rewrite Hsid.
  simpl fst; simpl snd. split; [reflexivity|].
  destruct reply as [result|e]; simpl saved.
  - destruct (save_success result); simpl.
    + split; [reflexivity|].
      split; [split; [reflexivity | intros _; right; right; now left]|].
      split; [reflexivity | discriminate].
    + split; [reflexivity|].
      split; [split; [|discriminate]|].
      { intro Hin; repeat (destruct Hin as [Hin|Hin]; [discriminate|]);
          destruct Hin. }
      split; [discriminate|]. intros _. eexists. right; right; now left.
  - simpl. split; [reflexivity|].
    split; [split; [|discriminate]|].
    { intro Hin; repeat (destruct Hin as [Hin|Hin]; [discriminate|]);
        destruct Hin. }
    split; [discriminate|]. intros _. eexists. right; right; now left.
Qed.

(** X13. initSession on the fresh page always ends with [loading] cleared
    and makes the create request first. If the reply reports success and
    carries a non-empty session id, the page holds that id, shows no error
    and shows the summary of the refresh, else of the reply. Otherwise no
    session id is set and an error is recorded; then handleApplyEdit,
    handleUndo, handleRedo and handleSave do nothing, whatever is typed,
    and leaving the page sends no request. *)
Theorem init_session_outcome taskId imageIndex created info :
  let v' := fst (initSession taskId imageIndex created info initialView) in
  let effects := snd (initSession taskId imageIndex created info initialView) in
  loading v' = false /\
  (exists rest, effects = Call (createEditSession taskId (Some imageIndex)) :: rest) /\
  match startedId created with
  | Some sid =>
      sessionId v' = Some sid /\ activeSession v' = Some sid /\
      error v' = None /\
      (forall result, created = Resolved result ->
         session v' = sessionAfter None info (create_session result)) /\
      calls effects
      = [createEditSession taskId (Some imageIndex); getSessionInfo sid]
  | None =>
      sessionId v' = None /\
      (exists msg, error v' = Some msg) /\
      calls effects = [createEditSession taskId (Some imageIndex)] /\
      (forall text reply info' sreply confirmed creply,
         let w := set_instruction text v' in
         handleApplyEdit reply info' w = (w, []) /\
         handleUndo reply info' w = (w, []) /\
         handleRedo reply info' w = (w, []) /\
         handleSave sreply w = (w, []) /\
         pageCalls (handleCancel confirmed creply w) = [] /\
         onUnmounted w = [])
  end.
Proof.
  intros v' effects. subst v' effects.
  assert (Inert : forall w : View, sessionId w = None ->
            forall text reply info' sreply confirmed creply,
              let w' := set_instruction text w in
              handleApplyEdit reply info' w' = (w', []) /\
              handleUndo reply info' w' = (w', []) /\
              handleRedo reply info' w' = (w', []) /\
              handleSave sreply w' = (w', []) /\
              pageCalls (handleCancel confirmed creply w') = [] /\
              onUnmounted w' = []).
  { intros w Hw text reply info' sreply confirmed creply w'.
    assert (A : activeSession w' = None)
      by (unfold activeSession, w'; simpl; now rewrite Hw).
    unfold handleApplyEdit, handleUndo, handleRedo, handleSave, handleCancel,
      onUnmounted. rewrite A.
    repeat split. destruct (hasChanges w'), confirmed; reflexivity. }
  unfold initSession, startedId.
  destruct created as [result|e].
  - destruct (create_session_id result) as [sid|] eqn:Eid.
    + destruct (create_success result && truthy sid)%bool eqn:Eok.
      * apply andb_true_iff in Eok as [Es Et].
        unfold refreshSession, activeSession. simpl sessionId. rewrite Et.
        unfold sessionAfter.
        destruct info as [i|e];
          [destruct (info_success i); [destruct (info_session i)|]|];
          simpl; rewrite ?Et;
          (split; [reflexivity|]); (split; [eexists; reflexivity|]);
          (split; [reflexivity|]); (split; [reflexivity|]);
          (split; [reflexivity|]); (split; [|reflexivity]);
          intros r Hr; injection Hr as <-;
          destruct (create_session result); reflexivity.
      * simpl. split; [reflexivity|]. split; [eexists; reflexivity|].
        split; [reflexivity|]. split; [eexists; reflexivity|]. split; [reflexivity|].
        apply Inert. reflexivity.
    + simpl. split; [reflexivity|]. split; [eexists; reflexivity|].
      split; [reflexivity|]. split; [eexists; reflexivity|]. split; [reflexivity|].
      apply Inert. reflexivity.
  - simpl. split; [reflexivity|]. split; [eexists; reflexivity|].
    split; [reflexivity|]. split; [eexists; reflexivity|]. split; [reflexivity|].
    apply Inert. reflexivity.
Qed.

End EditPageFacts.

(* ===================================================================== *)
(** * Properties of the edit API client *)
(* ===================================================================== *)

Section EditApiFacts.

Import JsString Dom EditApi EditPage.

Lemma sessionUrl_inj (a b : jsstring) (suffix : string) :
  sessionUrl a suffix = sessionUrl b suffix -> a = b.
Proof.
  unfold sessionUrl. intros H.
  apply app_inv_head in H. apply app_inv_head in H.
  now apply app_inv_tail in H.
Qed.

Lemma sessionUrl_suffix (a : jsstring) (s1 s2 : string) :
  sessionUrl a s1 = sessionUrl a s2 -> lit s1 = lit s2.
Proof.
  unfold sessionUrl. intros H.
  apply app_inv_head in H. apply app_inv_head in H.
  now apply app_inv_head in H.
Qed.

(** X14. The requests api/edit.ts makes about one session (session info,
    apply, undo, redo, save, cancel) are pairwise different in method or
    URL, so no operation can be taken for another; and for each operation,
    as for the URLs of the current and of the original image, different
    session ids give different URLs, so the URL determines the session. *)
Theorem session_endpoints_distinct (sid : jsstring) :
  NoDup (map (fun r => (method r, url r)) (sessionRequests sid)) /\
  getCurrentImageUrl sid <> getOriginalImageUrl sid /\
  (forall sid',
     (url (getSessionInfo sid) = url (getSessionInfo sid') -> sid = sid') /\
     (forall i m i' m',
        url (applyEdit sid i m) = url (applyEdit sid' i' m') -> sid = sid') /\
     (url (undoEdit sid) = url (undoEdit sid') -> sid = sid') /\
     (url (redoEdit sid) = url (redoEdit sid') -> sid = sid') /\
     (url (saveEdit sid) = url (saveEdit sid') -> sid = sid') /\
     (url (cancelEdit sid) = url (cancelEdit sid') -> sid = sid') /\
     (getCurrentImageUrl sid = getCurrentImageUrl sid' -> sid = sid') /\
     (getOriginalImageUrl sid = getOriginalImageUrl sid' -> sid = sid')).
Proof.
  split; [|split].
  - cbv [map sessionRequests getSessionInfo applyEdit undoEdit redoEdit
           saveEdit cancelEdit method url].
    repeat (apply NoDup_cons;
            [ unfold In; intro Hin;
              repeat (destruct Hin as [Hin|Hin];
                      [ apply pair_equal_spec in Hin;
                        destruct Hin as [Hm Hu];
                        try discriminate Hm;
                        apply sessionUrl_suffix in Hu;
                        vm_compute in Hu; discriminate Hu
                      | ]);
              destruct Hin
            | ]).
    apply NoDup_nil.
  - intro H. apply sessionUrl_suffix in H. vm_compute in H. congruence.
  - intros sid'.
    split; [exact (@sessionUrl_inj sid sid' "")|].
    split; [intros i m i' m'; exact (@sessionUrl_inj sid sid' "/apply")|].
    split; [exact (@sessionUrl_inj sid sid' "/undo")|].
    split; [exact (@sessionUrl_inj sid sid' "/redo")|].
    split; [exact (@sessionUrl_inj sid sid' "/save")|].
    split; [exact (@sessionUrl_inj sid sid' "")|].
    split; [exact (@sessionUrl_inj sid sid' "/current")|].
    exact (@sessionUrl_inj sid sid' "/original").
Qed.

End EditApiFacts.

(* ===================================================================== *)
(** * Further properties of the product image uploader *)
(* ===================================================================== *)

Section UploaderMore.

Import JsString ProductImageUploader UploaderDrag.

Lemma nth_error_without (A : Type) (l : list A) :
  forall n j,
    nth_error (without n l) j
    = if (j <? n)%nat then nth_error l j else nth_error l (S j).
Proof.
  unfold without.
  induction l as [|a l IH]; intros n j.
  - rewrite firstn_nil, skipn_nil. simpl.
    destruct (j <? n)%nat; now destruct j.
  - destruct n as [|n]; simpl.
    + now destruct j.
    + destruct j as [|j]; simpl; [reflexivity|].
      rewrite IH. reflexivity.
Qed.

Lemma without_length (A : Type) (l : list A) (n : nat) :
  (n < List.length l)%nat -> List.length l = S (List.length (without n l)).
Proof.
  intros H. unfold without.
  rewrite length_app, length_firstn, length_skipn. lia.
Qed.

Lemma imageAt_nth (j : Z) (s : State) :
  0 <= j -> imageAt j s = nth_error (images s) (Z.to_nat j).
Proof.
  intros H. unfold imageAt.
  destruct (j <? 0) eqn:E; [apply Z.ltb_lt in E; lia | reflexivity].
Qed.

Lemma imageAt_Some (j : Z) (s : State) (x : ProductImage) :
  imageAt j s = Some x ->
  0 <= j /\ (Z.to_nat j < List.length (images s))%nat /\
  nth_error (images s) (Z.to_nat j) = Some x.
Proof.
  unfold imageAt. destruct (j <? 0) eqn:E; [discriminate|].
  apply Z.ltb_ge in E. intros H. split; [exact E|]. split; [|exact H].
  apply nth_error_Some. congruence.
Qed.

(** X15. removeImage(index) with an image at [index] removes exactly that
    image: the list is one shorter, the images before [index] keep their
    positions and those after it move down by one; the error is cleared and
    'remove' and 'update' are emitted, the latter with the new file list.
    With no image at [index] (negative or past the end) the list is left
    as it is and nothing is emitted; only the error is cleared. *)
Theorem removeImage_removes_exactly (index : Z) (s : State) :
  (forall image,
     imageAt index s = Some image ->
     let s' := fst (removeImage index s) in
     List.length (images s) = S (List.length (images s')) /\
     (forall j, 0 <= j < index -> imageAt j s' = imageAt j s) /\
     (forall j, index <= j -> imageAt j s' = imageAt (j + 1) s) /\
     maxImages s' = maxImages s /\ error s' = None /\
     snd (removeImage index s) = [remove index; update (files s')]) /\
  (imageAt index s = None ->
   removeImage index s = (set_error None s, [])).
Proof.
  split.
  - intros image Hi s'. subst s'.
    destruct (imageAt_Some index s Hi) as (H0 & Hlt & Hn).
    unfold removeImage. rewrite Hi. cbn [fst snd].
    change (firstn (Z.to_nat index) (images s) ++ skipn (S (Z.to_nat index)) (images s))
      with (without (Z.to_nat index) (images s)).
    split; [cbn [images set_error set_images]; now apply without_length|].
    split; [|split; [|repeat split]].
    + intros j Hj. rewrite !imageAt_nth by lia.
      cbn [images set_error set_images]. rewrite nth_error_without.
      replace (Z.to_nat j <? Z.to_nat index)%nat with true
        by (symmetry; apply Nat.ltb_lt; lia).
      reflexivity.
    + intros j Hj. rewrite !imageAt_nth by lia.
      cbn [images set_error set_images]. rewrite nth_error_without.
      replace (Z.to_nat j <? Z.to_nat index)%nat with false
        by (symmetry; apply Nat.ltb_ge; lia).
      f_equal. lia.
  - intros Hn. unfold removeImage. now rewrite Hn.
Qed.

Lemma without_insert (A : Type) (x : A) (w : list A) (k : nat) :
  (k <= List.length w)%nat ->
  without k (firstn k w ++ x :: skipn k w) = w /\
  nth_error (firstn k w ++ x :: skipn k w) k = Some x.
Proof.
  revert k. induction w as [|a w IH]; intros k Hk.
  - assert (k = 0%nat) by (simpl in Hk; lia). subst. now split.
  - destruct k as [|k].
    + now split.
    + simpl in Hk. destruct (IH k) as [I1 I2]; [lia|].
      unfold without in *. cbn [firstn skipn app nth_error].
      split; [f_equal; exact I1 | exact I2].
Qed.

Lemma insert_without (A : Type) (x : A) (l : list A) (n : nat) :
  nth_error l n = Some x ->
  firstn n (without n l) ++ x :: skipn n (without n l) = l /\
  Permutation l (x :: without n l).
Proof.
  revert n. induction l as [|a l IH]; intros n H.
  - now destruct n.
  - destruct n as [|n]; simpl in H.
    + injection H as ->. unfold without. simpl. now split.
    + destruct (IH n H) as [I1 I2]. unfold without in *.
      cbn [firstn skipn app].
      split; [f_equal; exact I1|].
      rewrite perm_swap. now constructor.
Qed.

Lemma spliceStart_in_range (len i : Z) :
  0 <= i <= len -> spliceStart len i = i.
Proof.
  intros H. unfold spliceStart.
  destruct (i <? 0) eqn:E; [apply Z.ltb_lt in E; lia | lia].
Qed.

(** A drop of the image at [from] on the place [to], both inside the
    list. *)
Lemma handleItemDrop_moves (from to : Z) (d : Drag) (s : State) :
  dragIndex d = Some from ->
  0 <= from < Z.of_nat (List.length (images s)) ->
  0 <= to < Z.of_nat (List.length (images s)) ->
  from <> to ->
  exists moved s',
    imageAt from s = Some moved /\
    handleItemDrop to d s
    = Some (s', noDrag, [reorder from to; plain (update (files s'))]) /\
    images s'
    = firstn (Z.to_nat to) (without (Z.to_nat from) (images s))
      ++ moved :: skipn (Z.to_nat to) (without (Z.to_nat from) (images s)) /\
    maxImages s' = maxImages s.
Proof.
  intros Hd Hf Ht Hne.
  destruct (nth_error (images s) (Z.to_nat from)) as [moved|] eqn:Hn;
    [|apply nth_error_None in Hn; lia].
  exists moved. eexists. split; [rewrite imageAt_nth by lia; exact Hn|].
  unfold handleItemDrop, spliceOut, spliceIn. rewrite Hd.
  replace (from =? to) with false by (symmetry; now apply Z.eqb_neq).
  rewrite spliceStart_in_range by lia. rewrite Hn.
  fold (without (Z.to_nat from) (images s)).
  pose proof (@without_length _ (images s) (Z.to_nat from)) as Hl.
  rewrite spliceStart_in_range by lia.
  repeat split.
Qed.

(** X16. Dropping a dragged image on another place of the list moves that
    one image there: the list keeps its length and its images (it is a
    permutation), the moved image is at the target index, the other images
    keep their relative order, the bound and the validity of the stored
    files are kept, 'reorder' and 'update' are emitted and the drag state is
    reset. Dragging the image back to where it came from restores the
    original list. A drop with no drag in progress, or on the dragged image
    itself, changes nothing and emits nothing. *)
Theorem drop_moves_one_image (from to : Z) (d : Drag) (s : State) :
  dragIndex d = Some from ->
  0 <= from < Z.of_nat (List.length (images s)) ->
  0 <= to < Z.of_nat (List.length (images s)) ->
  from <> to ->
  exists s',
    handleItemDrop to d s
    = Some (s', noDrag, [reorder from to; plain (update (files s'))]) /\
    Permutation (images s) (images s') /\
    List.length (images s') = List.length (images s) /\
    imageAt to s' = imageAt from s /\
    without (Z.to_nat to) (images s') = without (Z.to_nat from) (images s) /\
    maxImages s' = maxImages s /\
    (stored_ok s -> stored_ok s') /\
    (exists s'',
       handleItemDrop from (handleDragStart to noDrag) s'
       = Some (s'', noDrag, [reorder to from; plain (update (files s''))]) /\
       images s'' = images s) /\
    handleItemDrop to noDrag s = Some (s, noDrag, []) /\
    handleItemDrop to (handleDragStart to noDrag) s = Some (s, noDrag, []).
Proof.
  intros Hd Hf Ht Hne.
  destruct (handleItemDrop_moves d s Hd Hf Ht Hne)
    as (moved & s' & Hm & Hdrop & Himg & Hmax).
  exists s'. split; [exact Hdrop|].
  destruct (imageAt_Some from s Hm) as (_ & Hlt & Hn).
  destruct (insert_without _ _ Hn) as [Hback Hperm].
  pose proof (without_length (images s) Hlt) as Hlen.
  set (w := without (Z.to_nat from) (images s)) in *.
  assert (Hk : (Z.to_nat to <= List.length w)%nat) by lia.
  destruct (without_insert moved w Hk) as [Hw Hnth].
  assert (Hperm' : Permutation (images s) (images s')).
  { rewrite Himg. etransitivity; [exact Hperm|].
    rewrite <- (firstn_skipn (Z.to_nat to) w) at 1.
    apply Permutation_middle. }
  assert (Hlen' : List.length (images s') = List.length (images s))
    by (symmetry; now apply Permutation_length).
  split; [exact Hperm'|]. split; [exact Hlen'|].
  split; [rewrite imageAt_nth by lia; rewrite Himg; congruence|].
  split; [rewrite Himg; exact Hw|].
  split; [exact Hmax|].
  split.
  { intros [Hb Hv]. split; [rewrite Hlen', Hmax; exact Hb|].
    unfold files in *. rewrite Forall_map in *. rewrite Forall_forall in *.
    intros x Hx. apply Hv. eapply Permutation_in; [symmetry; exact Hperm'|exact Hx]. }
  split.
  { assert (Hne' : to <> from) by congruence.
    assert (Hf' : 0 <= from < Z.of_nat (List.length (images s'))) by lia.
    assert (Ht' : 0 <= to < Z.of_nat (List.length (images s'))) by lia.
    destruct (@handleItemDrop_moves to from (handleDragStart to noDrag) s'
                eq_refl Ht' Hf' Hne')
      as (moved' & s'' & Hm' & Hdrop' & Himg' & _).
    exists s''. split; [exact Hdrop'|].
    rewrite Himg'.
    assert (moved' = moved).
    { rewrite imageAt_nth in Hm' by lia. rewrite Himg in Hm'. congruence. }
    subst moved'.
    replace (without (Z.to_nat to) (images s')) with w
      by (rewrite Himg; symmetry; exact Hw).
    exact Hback. }
  split; [reflexivity|].
  unfold handleItemDrop, handleDragStart. simpl.
  now rewrite Z.eqb_refl.
Qed.

Lemma lastErrorFrom_app (i : option Message) (a b : list Emit) :
  lastErrorFrom i (a ++ b) = lastErrorFrom (lastErrorFrom i a) b.
Proof.
  revert i. induction a as [|e a IH]; intros i; [reflexivity|].
  destruct e; simpl; apply IH.
Qed.

Lemma lastErrorFrom_rejection (i : option Message) (f : File) :
  lastErrorFrom i (rejection f)
  = if negb (includes ACCEPTED_FORMATS (type f))
    then Some (UnsupportedFormat (name f))
    else if maxSize <? size f then Some (FileTooLarge (name f)) else i.
Proof.
  unfold rejection.
  destruct (negb (includes ACCEPTED_FORMATS (type f))); [reflexivity|].
  now destruct (maxSize <? size f).
Qed.

Lemma scanFiles_error (fs : list File) :
  forall acc,
    scanError (scanFiles fs acc)
    = lastErrorFrom (scanError acc) (flat_map rejection fs).
Proof.
  induction fs as [|f fs IH]; intros acc; [reflexivity|].
  cbn [scanFiles flat_map]. rewrite lastErrorFrom_app, lastErrorFrom_rejection.
  destruct (negb (includes ACCEPTED_FORMATS (type f))); [now rewrite IH|].
  destruct (maxSize <? size f); now rewrite IH.
Qed.

(** X17. The error processFiles leaves on display is the message of the
    last 'error' event it emitted, and no error when it emitted none: an
    error shown before the call never survives it. removeImage and clearAll
    clear the error and emit no 'error' event. *)
Theorem shown_error_is_last_emitted (s : State) :
  (forall fileList mint,
     error (fst (processFiles fileList mint s))
     = lastErrorFrom None (snd (processFiles fileList mint s))) /\
  (forall index,
     error (fst (removeImage index s)) = None /\
     lastErrorFrom None (snd (removeImage index s)) = None) /\
  error (fst (clearAll s)) = None /\
  lastErrorFrom None (snd (clearAll s)) = None.
Proof.
  split; [|split; [|split; reflexivity]].
  - intros fileList mint. unfold processFiles.
    cbn [maxImages images set_error error].
    set (remainingSlots := maxImages s - Z.of_nat (List.length (images s))).
    destruct (remainingSlots <=? 0); [reflexivity|].
    set (filesToAdd := firstn (Z.to_nat remainingSlots) fileList).
    pose proof (scanFiles_error filesToAdd (mkScan [] None [])) as He.
    destruct (scanFiles_spec filesToAdd (mkScan [] None [])) as [_ Hm].
    cbn [scanError emitted app] in He, Hm.
    set (scan := scanFiles filesToAdd (mkScan [] None [])) in *.
    destruct (validFiles scan) as [|v vs].
    + cbn [fst snd set_error error]. rewrite He, Hm. reflexivity.
    + destruct (remainingSlots <? Z.of_nat (List.length fileList));
        cbn [fst snd set_error set_images error];
        rewrite !lastErrorFrom_app, Hm, <- He; reflexivity.
  - intros index. unfold removeImage.
    destruct (imageAt index s); split; reflexivity.
Qed.

Lemma newImages_previews mint (fs : list File) :
  forall k,
    map preview (newImages mint k fs)
    = map (fun i => snd (mint i)) (seq k (List.length fs)).
Proof.
  induction fs as [|f fs IH]; intros k; [reflexivity|].
  simpl. now rewrite IH.
Qed.

(** The images processFiles stores, with the object URLs it created. *)
Lemma processFiles_images (fileList : list File) mint (s : State) :
  map preview (images (fst (processFiles fileList mint s)))
  = map preview (images s) ++ mintedUrls fileList mint s.
Proof.
  unfold processFiles, mintedUrls.
  cbn [maxImages images set_error error].
  set (remainingSlots := maxImages s - Z.of_nat (List.length (images s))).
  destruct (remainingSlots <=? 0); [cbn; now rewrite app_nil_r|].
  set (scan := scanFiles _ (mkScan [] None [])).
  destruct (validFiles scan) as [|v vs] eqn:V.
  - cbn. now rewrite app_nil_r.
  - rewrite <- V.
    destruct (remainingSlots <? Z.of_nat (List.length fileList));
      cbn [fst set_error set_images images];
      now rewrite map_app, newImages_previews.
Qed.

Lemma step_urls (a : Action) (s : State) :
  Permutation (map preview (images s) ++ created a s)
              (map preview (images (fst (step a s))) ++ revoked a s).
Proof.
  destruct a as [fs mint | fs mint | i | ]; cbn [step created revoked].
  - unfold handleFileSelect. destruct fs as [|f fs]; [reflexivity|].
    rewrite processFiles_images, app_nil_r. reflexivity.
  - unfold handleZoneDrop. destruct fs as [[|f fs]|]; try reflexivity.
    rewrite processFiles_images, app_nil_r. reflexivity.
  - rewrite app_nil_r. unfold removeImage.
    destruct (imageAt i s) as [image|] eqn:E.
    + destruct (imageAt_Some i s E) as (_ & _ & Hn).
      destruct (insert_without _ _ Hn) as [_ Hp].
      cbn [fst set_error set_images images].
      fold (without (Z.to_nat i) (images s)).
      rewrite (Permutation_map preview Hp). cbn [map].
      apply Permutation_cons_append.
    + cbn. now rewrite app_nil_r.
  - cbn. now rewrite app_nil_r.
Qed.

(** X18. Object URLs are neither leaked nor revoked twice. Along any
    sequence of selections, drops, removals and clearAll, from the empty
    list, the object URLs created for previews are, counted with
    multiplicity, exactly the previews of the images still in the list
    together with the URLs revoked so far. Hence once the onUnmounted hook
    has run, every URL created has been revoked exactly once. *)
Theorem object_urls_balanced (m : option Z) (tr : list Action) :
  let s := run tr (initial m) in
  Permutation (createdAlong tr (initial m))
              (map preview (images s) ++ revokedAlong tr (initial m)) /\
  Permutation (createdAlong tr (initial m))
              (revokedAlong tr (initial m) ++ onUnmounted s).
Proof.
  intros s. subst s.
  assert (G : forall tr s0,
            Permutation (map preview (images s0) ++ createdAlong tr s0)
                        (map preview (images (run tr s0)) ++ revokedAlong tr s0)).
  { clear. induction tr as [|a tr IH]; intros s0; [reflexivity|].
    cbn [createdAlong revokedAlong run].
    rewrite app_assoc, (step_urls a s0), <- app_assoc.
    rewrite (Permutation_app_comm (revoked a s0)), app_assoc.
    rewrite (IH (fst (step a s0))), <- app_assoc.
    apply Permutation_app_head, Permutation_app_comm. }
  pose proof (G tr (initial m)) as H. cbn [initial images map app] in H.
  split; [exact H|].
  rewrite H. apply Permutation_app_comm.
Qed.

End UploaderMore.

(* ===================================================================== *)
(** * Instances *)
(* ===================================================================== *)

Section MoreInstances.

Import JsString Dom.

Example getMaskCanvas_size_witness :
  Dom.width (mkCanvas 1600 1200 0 0
               [DrawCanvas 800 600 (ImageEditor.maskBitmap Scenario.paintedEditor)
                  0 0 800 600 0 0 1600 1200])
  = ImageEditor.imageWidth Scenario.paintedEditor.
Proof.
  exact (proj1 (@getMaskCanvas_size Scenario.paintedEditor _ eq_refl)).
Defined.

Example getMaskCanvas_paint_clear_witness :
  ImageEditor.getMaskCanvas
    (fst (ImageEditor.run
            [ImageEditor.APaint 1 1; ImageEditor.AClear] Scenario.loadedEditor))
  = None.
Proof.
  exact (proj2 (@getMaskCanvas_paint_clear
                  [ImageEditor.APaint 1 1; ImageEditor.AClear]
                  Scenario.loadedEditor eq_refl eq_refl eq_refl eq_refl)
           eq_refl).
Defined.

Example pointer_events_ink_witness :
  ImageEditor.maskBitmap
    (fst (Gestures.dispatchAll Scenario2.dragGesture Scenario.loadedEditor))
  = ImageEditor.maskBitmap Scenario.loadedEditor
    ++ map (Gestures.arcAt Scenario.loadedEditor)
         [Scenario2.at_ 5 5; Scenario2.at_ 6 5; Scenario2.at_ 7 6].
Proof.
  exact (proj1 (proj1 (@pointer_events_ink Scenario2.dragGesture
                         Scenario.loadedEditor eq_refl eq_refl))).
Defined.

Example touch_paints_like_mouse_witness :
  ImageEditor.maskBitmap
    (fst (Gestures.dispatchAll Scenario2.touchGesture Scenario.loadedEditor))
  = ImageEditor.maskBitmap
      (fst (Gestures.dispatchAll
              (flat_map Gestures.asMouse Scenario2.touchGesture)
              Scenario.loadedEditor)).
Proof.
  exact (proj1 (@touch_paints_like_mouse Scenario2.touchGesture
                  Scenario.loadedEditor eq_refl eq_refl)).
Defined.

Example strokes_since_last_clear_witness :
  ImageEditor.maskBitmap
    (fst (ImageEditor.run
            [ImageEditor.APaint 1 1; ImageEditor.AClear; ImageEditor.APaint 2 2]
            Scenario.paintedEditor))
  = Gestures.strokesLeft (ImageEditor.props Scenario.paintedEditor)
      (ImageEditor.maskBitmap Scenario.paintedEditor)
      [ImageEditor.APaint 1 1; ImageEditor.AClear; ImageEditor.APaint 2 2].
Proof.
  exact (proj1 (@strokes_since_last_clear
                  [ImageEditor.APaint 1 1; ImageEditor.AClear; ImageEditor.APaint 2 2]
                  Scenario.paintedEditor eq_refl eq_refl eq_refl)).
Defined.

Example failed_load_keeps_canvases_witness :
  ImageEditor.maskCanvasRef
    (fst (ImageEditor.loadImage ImageEditor.LoadFailed Scenario.paintedEditor))
  = ImageEditor.maskCanvasRef Scenario.paintedEditor.
Proof.
  exact (proj1 (proj2 (proj1 (@failed_load_keeps_canvases
                                Scenario.paintedEditor eq_refl eq_refl)))).
Defined.

Example canvases_fit_container_witness :
  exists cw ch,
    Gestures.canvasSize
      (ImageEditor.imageCanvasRef
         (fst (ImageEditor.loadImage (ImageEditor.Loaded 1000 3000)
                 Scenario.mountedEditor)))
    = Some (cw, ch) /\
    Gestures.canvasSize
      (ImageEditor.maskCanvasRef
         (fst (ImageEditor.loadImage (ImageEditor.Loaded 1000 3000)
                 Scenario.mountedEditor)))
    = Some (cw, ch) /\
    0 <= cw <= 800 /\ 0 <= ch <= 600 /\ (cw = 800 \/ ch = 600).
Proof.
  apply (@canvases_fit_container Scenario.mountedEditor 1000 3000
           Scenario.viewport);
    vm_compute; repeat split; (reflexivity || discriminate).
Defined.

Example successful_apply_commits_witness :
  ProductPhotoEditView.instruction
    (fst (ProductPhotoEditView.handleApplyEdit
            (EditApi.Resolved Scenario2.applied) Scenario.infoUnchanged
            Scenario.editingView))
  = [].
Proof.
  exact (proj1 (@successful_apply_commits Scenario2.applied
                  Scenario.infoUnchanged Scenario.editingView (lit "s1")
                  eq_refl eq_refl eq_refl)).
Defined.

Example undo_redo_outcomes_witness :
  ProductPhotoEditView.hasChanges
    (fst (ProductPhotoEditView.handleUndo (EditApi.Resolved Scenario2.applied)
            Scenario.infoUnchanged Scenario2.midHistoryView))
  = true.
Proof.
  exact (proj1 (proj2 (proj2 (proj2
           (proj1 (@undo_redo_outcomes (EditApi.Resolved Scenario2.applied)
                     Scenario.infoUnchanged Scenario2.midHistoryView (lit "s1")
                     eq_refl) eq_refl))))).
Defined.


Example cancel_confirms_then_leaves_witness :
  EditPage.handleCancel false Scenario2.cancelOk Scenario.editingView
  = [EditPage.Confirm EditPage.msgConfirmCancel].
Proof.
  exact (proj1 (@cancel_confirms_then_leaves Scenario2.cancelOk
                  Scenario.editingView (lit "s1") eq_refl) eq_refl).
Defined.

Example save_leaves_only_on_success_witness :
  EditPage.pageCalls (snd (EditPage.handleSave Scenario2.saveOk Scenario.editingView))
  = [EditApi.saveEdit (lit "s1")].
Proof.
  exact (proj1 (proj2 (@save_leaves_only_on_success Scenario2.saveOk
                         Scenario.editingView (lit "s1") eq_refl))).
Defined.

Example drop_moves_one_image_witness :
  exists s',
    UploaderDrag.handleItemDrop 0
      (UploaderDrag.handleDragStart 2 UploaderDrag.noDrag) Scenario2.threeImages
    = Some (s', UploaderDrag.noDrag,
            [UploaderDrag.reorder 2 0;
             UploaderDrag.plain
               (ProductImageUploader.update (ProductImageUploader.files s'))]) /\
    ProductImageUploader.imageAt 0 s'
    = ProductImageUploader.imageAt 2 Scenario2.threeImages.
Proof.
  destruct (@drop_moves_one_image 2 0
              (UploaderDrag.handleDragStart 2 UploaderDrag.noDrag)
              Scenario2.threeImages eq_refl)
    as (s' & H1 & _ & _ & H4 & _);
    [vm_compute; split; [discriminate | reflexivity]
    |vm_compute; split; [discriminate | reflexivity]
    |discriminate|].
  exists s'. split; assumption.
Defined.

End MoreInstances.


(* ===================================================================== *)
(** * Properties of the product photo store *)
(* ===================================================================== *)

Section StoreFacts.

Import JsString ProductPhotoStore.

Lemma markDone_index u img : index (markDone u img) = index img.
Proof. reflexivity. Qed.

Lemma markFailed_index e img : index (markFailed e img) = index img.
Proof. reflexivity. Qed.

Lemma markGenerating_index img : index (markGenerating img) = index img.
Proof. unfold markGenerating. now destruct (status img). Qed.

Lemma markRetrying_index img : index (markRetrying img) = index img.
Proof. reflexivity. Qed.

(** With pairwise different indices, changing the image [find] returns
    changes every image with that index: there is only one. *)
Lemma updateFound_map (i : Z) f (l : list GeneratedProductImage) :
  NoDup (map index l) ->
  updateFound i f l = map (fun img => if i =? index img then f img else img) l.
Proof.
  induction l as [|img l IH]; intros H; [reflexivity|].
  simpl in H. apply NoDup_cons_iff in H. destruct H as [Hn Hd].
  simpl. rewrite (Z.eqb_sym i). destruct (index img =? i) eqn:E.
  - f_equal. apply Z.eqb_eq in E.
    rewrite <- (map_id l) at 1. apply map_ext_in. intros x Hx.
    destruct (i =? index x) eqn:E'; [|reflexivity].
    apply Z.eqb_eq in E'. exfalso. apply Hn. rewrite E, E'.
    now apply in_map.
  - f_equal. now apply IH.
Qed.

Lemma updateFound_length i f l : List.length (updateFound i f l) = List.length l.
Proof.
  induction l as [|img l IH]; [reflexivity|].
  simpl. destruct (index img =? i); simpl; congruence.
Qed.

Lemma updateFound_indices i f l :
  (forall img, index (f img) = index img) ->
  map index (updateFound i f l) = map index l.
Proof.
  intros Hf. induction l as [|img l IH]; [reflexivity|].
  simpl. destruct (index img =? i); simpl; [now rewrite Hf | now rewrite IH].
Qed.

Lemma updateAt_indices k f l :
  (forall img, index (f img) = index img) ->
  map index (updateAt k f l) = map index l.
Proof.
  intros Hf. revert k. induction l as [|img l IH]; intros k; [now destruct k|].
  destruct k; simpl; [now rewrite Hf | now rewrite IH].
Qed.

(** On a list numbered from [a], the image at position [k] is the only one
    with index [a + k]. *)
Lemma updateAt_map f (l : list GeneratedProductImage) :
  forall (a k : nat),
    map index l = map Z.of_nat (seq a (List.length l)) ->
    (k < List.length l)%nat ->
    updateAt k f l
    = map (fun img => if Z.of_nat (a + k) =? index img then f img else img) l.
Proof.
  induction l as [|img l IH]; intros a k Hn Hk; [simpl in Hk; lia|].
  simpl in Hn. injection Hn as Hi Hn.
  assert (Hrange : forall x, In x l -> Z.of_nat a < index x).
  { intros x Hx. apply (in_map index) in Hx. rewrite Hn in Hx.
    apply in_map_iff in Hx. destruct Hx as (n & <- & Hin).
    apply in_seq in Hin. lia. }
  destruct k as [|k]; simpl.
  - rewrite Nat.add_0_r, Hi, Z.eqb_refl. f_equal.
    rewrite <- (map_id l) at 1. apply map_ext_in. intros x Hx.
    specialize (Hrange x Hx).
    destruct (Z.of_nat a =? index x) eqn:E; [|reflexivity].
    apply Z.eqb_eq in E. lia.
  - replace (Z.of_nat (a + S k) =? index img) with false
      by (symmetry; apply Z.eqb_neq; lia).
    f_equal. simpl in Hk.
    rewrite (IH (S a) k Hn ltac:(lia)).
    apply map_ext. intros x. now replace (S a + k)%nat with (a + S k)%nat by lia.
Qed.

Lemma numbered_NoDup l : numbered l -> NoDup (map index l).
Proof.
  unfold numbered. intros ->.
  apply Finite.Injective_map_NoDup; [|apply seq_NoDup].
  intros x y. apply Nat2Z.inj.
Qed.

Lemma numbered_range l x : numbered l -> In x l ->
  0 <= index x < Z.of_nat (List.length l).
Proof.
  unfold numbered. intros Hn Hx. apply (in_map index) in Hx. rewrite Hn in Hx.
  apply in_map_iff in Hx. destruct Hx as (n & <- & Hin).
  apply in_seq in Hin. lia.
Qed.

Lemma numbered_fresh n : numbered (freshImages n).
Proof.
  unfold numbered, freshImages. rewrite length_map, length_seq, map_map.
  reflexivity.
Qed.

(** One event of a generation acts on each slot of a numbered list on its
    own. *)
Lemma onEvent_slots (ev : SseEvent) (st : Store) :
  numbered (images st) ->
  images (onEvent ev st) = map (slotStep ev) (images st).
Proof.
  intros Hn. pose proof (numbered_NoDup Hn) as Hd.
  destruct ev as [t m|cur tot m|i u|[i|] e|b]; simpl.
  - now rewrite map_id.
  - destruct ((0 <? cur) && (cur <=? Z.of_nat (List.length (images st)))) eqn:E;
      simpl.
    + apply andb_true_iff in E. destruct E as [E1 E2].
      apply Z.ltb_lt in E1. apply Z.leb_le in E2.
      rewrite (@updateAt_map markGenerating (images st) 0 (Z.to_nat (cur - 1)) Hn)
        by lia.
      apply map_ext. intros x. simpl.
      now replace (Z.of_nat (Z.to_nat (cur - 1))) with (cur - 1) by lia.
    + rewrite <- (map_id (images st)) at 1. apply map_ext_in. intros x Hx.
      pose proof (@numbered_range _ x Hn Hx) as Hr. cbn [slotStep].
      destruct (cur - 1 =? index x) eqn:E'; [|reflexivity].
      apply Z.eqb_eq in E'. exfalso.
      apply andb_false_iff in E. destruct E as [E|E];
        [apply Z.ltb_ge in E | apply Z.leb_gt in E]; lia.
  - now apply updateFound_map.
  - now apply updateFound_map.
  - now rewrite map_id.
  - now rewrite map_id.
Qed.

Lemma slotStep_index ev img : index (slotStep ev img) = index img.
Proof.
  destruct ev as [t m|cur tot m|i u|[i|] e|b]; simpl; try reflexivity.
  - destruct (cur - 1 =? index img); [apply markGenerating_index | reflexivity].
  - now destruct (i =? index img).
  - now destruct (i =? index img).
Qed.

Lemma numbered_map f l :
  (forall img, index (f img) = index img) -> numbered l -> numbered (map f l).
Proof.
  unfold numbered. intros Hf Hn. rewrite length_map, map_map, <- Hn.
  apply map_ext. intros x. apply Hf.
Qed.

Lemma events_slots (evs : list SseEvent) :
  forall st, numbered (images st) ->
    images (fold_left (fun s ev => onEvent ev s) evs st)
    = map (slotAfter evs) (images st).
Proof.
  induction evs as [|ev evs IH]; intros st Hn; simpl.
  - unfold slotAfter. simpl. now rewrite map_id.
  - rewrite IH.
    + rewrite (@onEvent_slots ev st Hn), map_map. reflexivity.
    + rewrite (@onEvent_slots ev st Hn).
      apply numbered_map; [apply slotStep_index | exact Hn].
Qed.

Lemma slotAfter_index evs : forall img, index (slotAfter evs img) = index img.
Proof.
  unfold slotAfter. induction evs as [|ev evs IH]; intros img; simpl;
    [reflexivity|]. now rewrite IH, slotStep_index.
Qed.

Lemma deliverStream_images_generation (r : Stream) (st : Store) :
  images (deliverStream onEvent onStreamError r st)
  = images (fold_left (fun s ev => onEvent ev s) (events r) st).
Proof. unfold deliverStream. now destruct (streamError r). Qed.

(** X19. The image slots of a generation evolve independently. After
    startGeneration, whatever events the stream delivers and whether or not
    it fails, [images] holds exactly one slot per requested variation,
    numbered 0, 1, ... in order, and the slot with index [i] is the fresh
    pending slot driven only by the events that name [i] ('complete' and
    'error' with that index, 'progress' with [current = i + 1]): events for
    other slots, events that name no slot of the list and a stream error do
    not touch it. *)
Theorem generation_slots_independent (r : Stream) (st : Store) :
  canGenerate st = true ->
  let st' := fst (startGeneration r st) in
  images st'
  = map (fun i => slotAfter (events r) (freshImage i))
      (seq 0 (Z.to_nat (variations st))) /\
  numbered (images st') /\
  List.length (images st') = Z.to_nat (variations st) /\
  (forall k img, nth_error (images st') k = Some img ->
     img = slotAfter (events r) (freshImage k)).
Proof.
  intros Hc st'.
  assert (E : images st'
              = map (slotAfter (events r)) (freshImages (variations st))).
  { unfold st', startGeneration. unfold canGenerate in Hc.
    destruct (modelImage st) as [model|] eqn:Em; [|discriminate].
    unfold canGenerate. rewrite Em, Hc. cbn [fst].
    rewrite deliverStream_images_generation.
    apply events_slots. simpl. apply numbered_fresh. }
  assert (E' : images st'
               = map (fun i => slotAfter (events r) (freshImage i))
                   (seq 0 (Z.to_nat (variations st)))).
  { rewrite E. unfold freshImages. now rewrite map_map. }
  split; [exact E'|]. split; [|split].
  - rewrite E. apply numbered_map; [apply slotAfter_index | apply numbered_fresh].
  - rewrite E'. now rewrite length_map, length_seq.
  - intros k img Hk. rewrite E' in Hk.
    rewrite nth_error_map in Hk.
    destruct (nth_error (seq 0 (Z.to_nat (variations st))) k) as [j|] eqn:Ej;
      [|discriminate].
    simpl in Hk. injection Hk as <-.
    assert (Hlt : (k < Z.to_nat (variations st))%nat).
    { rewrite <- (length_seq (Z.to_nat (variations st)) 0).
      apply nth_error_Some. rewrite Ej. discriminate. }
    rewrite (nth_error_nth' _ 0%nat) in Ej by now rewrite length_seq.
    rewrite seq_nth in Ej by exact Hlt. injection Ej as <-. reflexivity.
Qed.


Lemma lastFinish_snoc evs ev :
  lastFinish (evs ++ [ev])
  = match ev with ev_finish b => Some b | _ => lastFinish evs end.
Proof. unfold lastFinish. rewrite fold_left_app. reflexivity. Qed.

Lemma existsb_isFinish_snoc evs ev :
  existsb isFinish (evs ++ [ev]) = existsb isFinish evs || isFinish ev.
Proof. rewrite existsb_app. simpl. now rewrite orb_false_r. Qed.

(** What the events of a generation leave of the stage, of the progress
    status and of the inputs. *)
Lemma events_outcome (evs : list SseEvent) (st : Store) :
  let st' := fold_left (fun s ev => onEvent ev s) evs st in
  stage st' = (if existsb isFinish evs then stage_result else stage st) /\
  pstatus (progress st')
  = match lastFinish evs with
    | Some true => p_done
    | Some false => p_error
    | None => pstatus (progress st)
    end /\
  modelImage st' = modelImage st /\
  productImages st' = productImages st /\
  variations st' = variations st.
Proof.
  induction evs as [|ev evs IH] using rev_ind; [now repeat split|].
  cbn zeta in *. rewrite fold_left_app, lastFinish_snoc, existsb_isFinish_snoc.
  cbn [fold_left].
  set (s1 := fold_left (fun s ev => onEvent ev s) evs st) in *.
  destruct IH as (I1 & I2 & I3 & I4 & I5).
  destruct ev as [t m|cur tot m|i u|[i|] e|b]; cbn [isFinish];
    rewrite ?orb_false_r, ?orb_true_r.
  - simpl. now repeat split.
  - cbn [onEvent].
    destruct ((0 <? cur) && (cur <=? Z.of_nat (List.length (images _))));
      simpl; simpl in I1, I2; now repeat split.
  - simpl. now repeat split.
  - simpl. now repeat split.
  - simpl. now repeat split.
  - simpl. destruct b; now repeat split.
Qed.

(** X20. startGeneration without a model image or without product images
    only records an error and sends nothing. Otherwise it sends one
    generation request for the stored model image, product images and
    number of variations, and when the stream is over the stage is 'result'
    exactly when a 'finish' event arrived: a stream that fails or ends
    without 'finish' leaves the page on the 'generating' stage. The
    progress status is 'error' after a stream error, else it reports the
    last 'finish' event ('done' on success, 'error' otherwise), else it is
    still 'generating'. The model image, the product images and the number
    of variations are not touched. *)
Theorem generation_outcome (r : Stream) (st : Store) :
  (canGenerate st = false ->
     startGeneration r st = (set_error (Some msgUploadFirst) st, [])) /\
  (canGenerate st = true ->
     let st' := fst (startGeneration r st) in
     (exists model,
        modelImage st = Some model /\ productImages st <> [] /\
        snd (startGeneration r st)
        = [generate model (productImages st) (variations st)]) /\
     stage st'
     = (if existsb isFinish (events r) then stage_result else stage_generating) /\
     pstatus (progress st')
     = match streamError r, lastFinish (events r) with
       | Some _, _ => p_error
       | None, Some true => p_done
       | None, Some false => p_error
       | None, None => p_generating
       end /\
     (forall e, streamError r = Some e -> error st' = Some e) /\
     modelImage st' = modelImage st /\
     productImages st' = productImages st /\
     variations st' = variations st).
Proof.
  split.
  - intros Hc. unfold startGeneration. rewrite Hc. now destruct (modelImage st).
  - intros Hc st'. unfold st', startGeneration.
    assert (Hm : exists model, modelImage st = Some model /\ productImages st <> []).
    { unfold canGenerate in Hc. destruct (modelImage st) as [model|];
        [|discriminate].
      exists model. split; [reflexivity|].
      destruct (productImages st); [discriminate | discriminate]. }
    destruct Hm as (model & Em & Hp). rewrite Em, Hc. cbn [fst snd].
    split; [exists model; now repeat split|].
    set (s1 := set_images _ _).
    destruct (events_outcome (events r) s1) as (I1 & I2 & I3 & I4 & I5).
    unfold deliverStream.
    destruct (streamError r) as [e|].
    + unfold onStreamError. cbn [stage pstatus progress set_progress set_error
        error modelImage productImages variations].
      rewrite I1, I3, I4, I5. unfold s1. simpl.
      repeat split; try assumption.
      intros e' E. now injection E as <-.
    + rewrite I1, I2, I3, I4, I5. unfold s1. simpl.
      repeat split; try assumption; try discriminate.
Qed.

Lemma find_spec (i : Z) (l : list GeneratedProductImage) (img : GeneratedProductImage) :
  find i l = Some img -> In img l /\ index img = i.
Proof.
  unfold find. revert img.
  induction l as [|x l IH]; intros img; [discriminate|].
  simpl. destruct (index x =? i) eqn:E.
  - simpl. intros H. injection H as <-. apply Z.eqb_eq in E. auto.
  - destruct (findIndex i l) as [k|]; simpl; [|discriminate].
    intros H. destruct (IH img H) as [H1 H2]. auto.
Qed.

Lemma retryEvents_taskId (evs : list SseEvent) :
  forall st,
    taskId (fold_left (fun s ev => onRetryEvent ev s) evs st) = taskId st.
Proof.
  induction evs as [|ev evs IH]; intros st; [reflexivity|].
  simpl. rewrite IH.
  destruct ev as [t m|cur tot [[|c m]|]|i u|[i|] e|b]; try reflexivity.
  simpl. now destruct (hasFailedImages st).
Qed.

Lemma retryFailedImage_taskId (i : Z) (r : Stream) (st : Store) :
  taskId (fst (retryFailedImage i r st)) = taskId st.
Proof.
  unfold retryFailedImage.
  destruct (taskId st) as [[|c t]|] eqn:Et; try (simpl; exact Et).
  destruct (find i (images st)) as [img|]; [|simpl; exact Et].
  destruct (status_eqb (status img) failed); [|simpl; exact Et].
  cbn [fst]. unfold deliverStream.
  destruct (streamError r); [unfold onRetryStreamError; cbn [taskId set_images]|];
    rewrite retryEvents_taskId; exact Et.
Qed.

Lemma status_eqb_eq a b : status_eqb a b = true <-> a = b.
Proof. destruct a, b; simpl; split; congruence. Qed.

Lemma retryFailedImage_request (i : Z) (r : Stream) (st : Store) :
  (snd (retryFailedImage i r st) = [] /\
   images (fst (retryFailedImage i r st)) = images st /\
   progress (fst (retryFailedImage i r st)) = progress st /\
   stage (fst (retryFailedImage i r st)) = stage st) \/
  (exists c t img,
     taskId st = Some (c :: t) /\ find i (images st) = Some img /\
     status img = failed /\
     snd (retryFailedImage i r st) = [retry (c :: t) i]).
Proof.
  unfold retryFailedImage.
  destruct (taskId st) as [[|c t]|] eqn:Et; try (left; now repeat split).
  destruct (find i (images st)) as [img|] eqn:Ef; [|left; now repeat split].
  destruct (status_eqb (status img) failed) eqn:Es; [|left; now repeat split].
  right. exists c, t, img. apply status_eqb_eq in Es. now repeat split.
Qed.

(** X21. retryFailedImage(index) sends a retry request only for an image
    that is in the 'error' state, and only when the store holds a task id:
    with no task id it records an error; with no image of that index, or
    one that is not in error, it does nothing. In both cases nothing is
    sent and the images, the progress and the stage are left as they are.
    When it does send, it is one request, for that task and that index.
    retryAllFailed therefore sends at most one request per image that was
    failed when it started, each for the task of the store and for the
    index of one of those images. *)
Theorem retry_only_failed_images (i : Z) (r : Stream) (st : Store) :
  (snd (retryFailedImage i r st) <> [] <->
   (exists c t, taskId st = Some (c :: t)) /\
   (exists img, find i (images st) = Some img /\ status img = failed)) /\
  (taskId st = None \/ taskId st = Some [] ->
   retryFailedImage i r st = (set_error (Some msgNoTask) st, [])) /\
  (forall c t, taskId st = Some (c :: t) ->
     (forall img, find i (images st) = Some img -> status img <> failed) ->
     retryFailedImage i r st = (st, [])) /\
  (snd (retryFailedImage i r st) = [] ->
   images (fst (retryFailedImage i r st)) = images st /\
   progress (fst (retryFailedImage i r st)) = progress st /\
   stage (fst (retryFailedImage i r st)) = stage st) /\
  (forall q, In q (snd (retryFailedImage i r st)) ->
     requestIndex q = Some i /\ requestTask q = taskId st /\
     snd (retryFailedImage i r st) = [q]) /\
  (forall reply,
     let reqs := snd (retryAllFailed reply st) in
     (List.length reqs <= List.length (failedImages st))%nat /\
     forall q, In q reqs ->
       requestTask q = taskId st /\
       exists img, In img (images st) /\ status img = failed /\
                   requestIndex q = Some (index img)).
Proof.
  split; [|split; [|split; [|split; [|split]]]].
  3:{ intros c t Et Hn. unfold retryFailedImage. rewrite Et.
      destruct (find i (images st)) as [img|] eqn:Ef; [|reflexivity].
      destruct (status_eqb (status img) failed) eqn:Es; [|reflexivity].
      apply status_eqb_eq in Es. now destruct (Hn img eq_refl). }
  2:{ unfold retryFailedImage. now intros [-> | ->]. }
  - destruct (retryFailedImage_request i r st)
      as [(E & _)|(c & t & img & Et & Ef & Es & E)]; rewrite E.
    + split; [congruence|].
      intros [(c & t & Et) (img & Ef & Es)]. exfalso.
      revert E. unfold retryFailedImage. rewrite Et, Ef.
      apply status_eqb_eq in Es. rewrite Es. discriminate.
    + split; [|discriminate]. intros _. split; eauto.
  - destruct (retryFailedImage_request i r st)
      as [(E & I)|(c & t & img & Et & Ef & Es & E)]; rewrite E;
      [intros _; exact I | discriminate].
  - intros q Hq.
    destruct (retryFailedImage_request i r st)
      as [(E & _)|(c & t & img & Et & Ef & Es & E)]; rewrite E in Hq |- *.
    + destruct Hq.
    + destruct Hq as [<-|[]]. simpl. rewrite Et. now repeat split.
  - intros reply. unfold retryAllFailed.
    assert (G : forall (idxs : list Z) st0 reqs0,
              taskId st0 = taskId st ->
              let out := fold_left
                (fun acc i =>
                   let '(st', reqs) := acc in
                   let '(st'', reqs') := retryFailedImage i (reply i) st' in
                   (st'', reqs ++ reqs'))
                idxs (st0, reqs0) in
              (List.length (snd out) <= List.length reqs0 + List.length idxs)%nat /\
              forall q, In q (snd out) ->
                In q reqs0 \/
                (requestTask q = taskId st /\
                 exists j, In j idxs /\ requestIndex q = Some j)).
    { induction idxs as [|j idxs IH]; intros st0 reqs0 Ht; cbn zeta.
      - simpl. split; [lia | auto].
      - cbn [fold_left].
        destruct (retryFailedImage j (reply j) st0) as [st1 reqs1] eqn:Er.
        assert (Ht1 : taskId st1 = taskId st).
        { rewrite <- Ht. change st1 with (fst (st1, reqs1)). rewrite <- Er.
          apply retryFailedImage_taskId. }
        destruct (IH st1 (reqs0 ++ reqs1) Ht1) as [L Q]. cbn zeta in L, Q.
        assert (Hreqs1 : forall q, In q reqs1 ->
                  requestIndex q = Some j /\ requestTask q = taskId st /\
                  reqs1 = [q]).
        { intros q Hq.
          destruct (retryFailedImage_request j (reply j) st0)
            as [(E & _)|(c & t & img & Et & Ef & Es & E)];
            rewrite Er in E; simpl in E; subst reqs1.
          - destruct Hq.
          - destruct Hq as [<-|[]]. simpl. rewrite <- Ht, Et. now repeat split. }
        split.
        + rewrite length_app in L. simpl.
          assert (List.length reqs1 <= 1)%nat.
          { destruct reqs1 as [|q reqs1]; [simpl; lia|].
            destruct (Hreqs1 q (or_introl eq_refl)) as (_ & _ & E).
            injection E as ->. simpl. lia. }
          lia.
        + intros q Hq. destruct (Q q Hq) as [Hin|(T & k & Hk & Ek)].
          * apply in_app_or in Hin. destruct Hin as [Hin|Hin]; [now left|].
            right. destruct (Hreqs1 q Hin) as (E1 & E2 & _).
            split; [exact E2|]. exists j. split; [now left | exact E1].
          * right. split; [exact T|]. exists k. split; [now right | exact Ek]. }
    destruct (G (map index (failedImages st)) st [] eq_refl) as [L Q].
    cbn zeta in L, Q. split.
    + rewrite length_map in L. simpl in L. exact L.
    + intros q Hq. destruct (Q q Hq) as [[]|(T & j & Hj & Ej)].
      split; [exact T|].
      apply in_map_iff in Hj. destruct Hj as (img & <- & Himg).
      unfold failedImages in Himg. apply filter_In in Himg.
      destruct Himg as [H1 H2]. apply status_eqb_eq in H2.
      exists img. now repeat split.
Qed.

Lemma startsWith_app p s : startsWith p (p ++ s) = true.
Proof. induction p as [|a p IH]; [reflexivity|]. simpl. now rewrite N.eqb_refl. Qed.

(** X22. getImageUrl never returns a relative URL: the result is empty, or
    starts with "http", or starts with "/". A stored URL that already
    starts with "http" or "/" is returned as it is; any other stored name
    is turned into the path of the image endpoint for the task. The result
    is empty exactly when there is no image of that index, or the image has
    no URL yet, or the store holds no task id. *)
Theorem image_url_never_relative (i : Z) (thumbnail : bool) (st : Store) :
  let u := getImageUrl i thumbnail st in
  (u = [] \/ startsWith (lit "http") u = true \/ startsWith (lit "/") u = true) /\
  (u = [] <->
   find i (images st) = None \/
   (exists img, find i (images st) = Some img /\ url img = []) \/
   taskId st = None \/ taskId st = Some []) /\
  (forall img c t,
     find i (images st) = Some img -> taskId st = Some (c :: t) ->
     (startsWith (lit "http") (url img) || startsWith (lit "/") (url img) = true ->
      u = url img) /\
     (url img <> [] ->
      startsWith (lit "http") (url img) || startsWith (lit "/") (url img) = false ->
      u = getProductPhotoImageUrl (c :: t) (url img) thumbnail)).
Proof.
  cbn zeta. unfold getImageUrl.
  destruct (find i (images st)) as [img|] eqn:Ef.
  2:{ split; [now left|]. split; [split; auto|]. intros; discriminate. }
  destruct (taskId st) as [[|c t]|] eqn:Et.
  1,3: (split; [now left|]; split; [split; auto|]; intros; discriminate).
  destruct (url img) as [|a u] eqn:Eu.
  { split; [now left|]. split.
    - split; [|reflexivity]. intros _. right. left. now exists img.
    - intros img' c' t' E1 E2. injection E1 as <-. rewrite Eu.
      split; [reflexivity | congruence]. }
  destruct (startsWith (lit "http") (a :: u) || startsWith (lit "/") (a :: u))
    eqn:Es.
  - split; [right; now apply orb_true_iff in Es|]. split.
    + split; [discriminate|].
      intros [H|[(img' & H1 & H2)|[H|H]]]; try discriminate.
      injection H1 as <-. congruence.
    + intros img' c' t' E1 E2. injection E1 as <-. rewrite Eu.
      split; [reflexivity | congruence].
  - split.
    + right. right. unfold getProductPhotoImageUrl. reflexivity.
    + split.
      * split; [unfold getProductPhotoImageUrl; discriminate|].
        intros [H|[(img' & H1 & H2)|[H|H]]]; try discriminate.
        injection H1 as <-. congruence.
      * intros img' c' t' E1 E2. injection E1 as <-. injection E2 as <- <-.
        rewrite Eu, Es. split; [discriminate | reflexivity].
Qed.

End StoreFacts.


(* ===================================================================== *)
(** * Properties of the product photo page *)
(* ===================================================================== *)

Section ProductPhotoViewFacts.

Import JsString ProductImageUploader UploaderDrag ProductPhotoStore
  ProductPhotoView.

Lemma addProductImages_images (fs : list File) :
  forall st, productImages (addProductImages fs st) = productImages st ++ fs.
Proof.
  unfold addProductImages.
  induction fs as [|f fs IH]; intros st; simpl; [now rewrite app_nil_r|].
  rewrite IH. simpl. now rewrite <- app_assoc.
Qed.

Lemma onUploaderEvents_app (es1 es2 : list DragEmit) :
  forall st,
    onUploaderEvents (es1 ++ es2) st
    = match onUploaderEvents es1 st with
      | Some st' => onUploaderEvents es2 st'
      | None => None
      end.
Proof.
  induction es1 as [|e es1 IH]; intros st; simpl; [reflexivity|].
  destruct (onUploaderEvent e st); [apply IH | reflexivity].
Qed.

Lemma onlyErrors_rejections (fs : list File) : onlyErrors (flat_map rejection fs).
Proof.
  unfold onlyErrors. induction fs as [|f fs IH]; simpl; [constructor|].
  apply Forall_app. split; [|exact IH].
  unfold rejection.
  destruct (negb (includes ACCEPTED_FORMATS (type f)));
    [repeat constructor; eauto|].
  destruct (maxSize <? size f); repeat constructor; eauto.
Qed.

Lemma onlyErrors_ignored (es : list Emit) (st : Store) :
  onlyErrors es ->
  onUploaderEvents (map plain es) st = Some st /\
  filter incremental (map plain es) = map plain es.
Proof.
  unfold onlyErrors. induction 1 as [|e es (m & ->) _ IH]; simpl; [auto|].
  destruct IH as [I1 I2]. now rewrite I1, I2.
Qed.

Lemma spliceOut_map (A B : Type) (f : A -> B) (start : Z) (a : list A) :
  spliceOut start (map f a)
  = (option_map f (fst (spliceOut start a)), map f (snd (spliceOut start a))).
Proof.
  unfold spliceOut. cbn [fst snd].
  now rewrite length_map, nth_error_map, map_app, firstn_map, skipn_map.
Qed.

Lemma spliceIn_map (A B : Type) (f : A -> B) (start : Z) (x : A) (a : list A) :
  spliceIn start (f x) (map f a) = map f (spliceIn start x a).
Proof.
  unfold spliceIn.
  now rewrite length_map, map_app, firstn_map; cbn [map]; rewrite skipn_map.
Qed.

(** The events of processFiles, delivered to the page. *)
Lemma processFiles_delivered (fileList : list File) mint (s : State) (st : Store) :
  productImages st = files s ->
  let out := processFiles fileList mint s in
  (exists st', onUploaderEvents (map plain (snd out)) st = Some st' /\
               productImages st' = files (fst out)) /\
  (exists st', onUploaderEvents (filter incremental (map plain (snd out))) st
               = Some st' /\
               productImages st' = files (fst out)).
Proof.
  intros Hs. cbn zeta. unfold processFiles.
  set (s0 := ProductImageUploader.set_error None s).
  set (slots := maxImages s0
                - Z.of_nat (List.length (ProductImageUploader.images s0))).
  destruct (slots <=? 0).
  { cbn [fst snd map filter incremental onUploaderEvents onUploaderEvent].
    split; exists st; split; auto. }
  set (scan := scanFiles (firstn (Z.to_nat slots) fileList)
                 (mkScan [] (ProductImageUploader.error s0) [])).
  assert (He : onlyErrors (emitted scan)).
  { unfold scan.
    destruct (scanFiles_spec (firstn (Z.to_nat slots) fileList)
                (mkScan [] (ProductImageUploader.error s0) [])) as [_ E].
    rewrite E. simpl. apply onlyErrors_rejections. }
  destruct (onlyErrors_ignored st He) as [E1 E2].
  destruct (validFiles scan) as [|v vs] eqn:Ev.
  { cbn [fst snd]. rewrite E2, E1. split; exists st; split; auto. }
  set (s2 := ProductImageUploader.set_images _ _).
  assert (Hf : files s2 = files s ++ v :: vs).
  { unfold s2, files. cbn [ProductImageUploader.images
      ProductImageUploader.set_images ProductImageUploader.set_error s0].
    now rewrite map_app, newImages_files. }
  assert (Hfull : forall tail s3,
            files s3 = files s2 -> onlyErrors tail ->
            (exists st', onUploaderEvents
                           (map plain ((emitted scan ++ [add (v :: vs); update (files s2)])
                                       ++ tail)) st = Some st' /\
                         productImages st' = files s3) /\
            (exists st', onUploaderEvents
                           (filter incremental
                              (map plain ((emitted scan
                                           ++ [add (v :: vs); update (files s2)])
                                          ++ tail))) st = Some st' /\
                         productImages st' = files s3)).
  { intros tail s3 H3 Ht. rewrite !map_app, !filter_app, E2.
    rewrite <- !app_assoc, !onUploaderEvents_app, E1.
    cbn [map filter incremental app onUploaderEvents onUploaderEvent].
    destruct (onlyErrors_ignored (set_productImages (files s2) (addProductImages (v :: vs) st)) Ht)
      as [T1 _].
    destruct (onlyErrors_ignored (addProductImages (v :: vs) st) Ht) as [T2 T3].
    rewrite T1, T3, T2. split; eexists; (split; [reflexivity|]).
    - rewrite H3. reflexivity.
    - rewrite addProductImages_images, Hs, H3, Hf. reflexivity. }
  destruct (slots <? Z.of_nat (List.length fileList)); cbn [fst snd].
  - apply Hfull; [reflexivity|]. repeat constructor. eauto.
  - specialize (Hfull [] s2 eq_refl (Forall_nil _)).
    rewrite app_nil_r in Hfull. exact Hfull.
Qed.

(** X23. The page's copy of the product images follows the uploader. If
    the store's [productImages] equals the uploader's file list, then
    after any one action on the uploader (a selection or a drop of files, a
    removal, clearAll, or the drop that ends a drag) the events it emits,
    handled in order by the page's listeners, leave [productImages] equal
    to the uploader's new file list. Except for clearAll, which emits only
    the 'update' snapshot, the incremental events alone ('add', 'remove',
    'reorder') already produce that list: the snapshot that follows them
    never changes the store. *)
Theorem store_follows_uploader (a : UploaderAction) (d : Drag)
    (s s' : State) (es : list DragEmit) (st : Store) :
  productImages st = files s ->
  uploaderStep a d s = Some (s', es) ->
  (exists st', onUploaderEvents es st = Some st' /\
               productImages st' = files s') /\
  (a <> Listed ClearAll ->
   exists st', onUploaderEvents (filter incremental es) st = Some st' /\
               productImages st' = files s').
Proof.
  intros Hs Hstep.
  assert (Hsame : forall st0, productImages st0 = files s' ->
            (exists st', onUploaderEvents [] st0 = Some st' /\
                         productImages st' = files s') /\
            (a <> Listed ClearAll ->
             exists st', onUploaderEvents (filter incremental []) st0 = Some st' /\
                         productImages st' = files s')).
  { intros st0 H0. split; [|intros _]; exists st0; simpl; auto. }
  destruct a as [a|toIndex]; unfold uploaderStep in Hstep.
  - destruct (step a s) as [s1 es1] eqn:Ea. injection Hstep as <- <-.
    assert (Hproc : forall fl mint s0, files s0 = files s ->
              step a s = processFiles fl mint s0 ->
              (exists st', onUploaderEvents (map plain es1) st = Some st' /\
                           productImages st' = files s1) /\
              (Listed a <> Listed ClearAll ->
               exists st', onUploaderEvents (filter incremental (map plain es1)) st
                           = Some st' /\
                           productImages st' = files s1)).
    { intros fl mint s0 H0 E. rewrite Ea in E.
      assert (Hs0 : productImages st = files s0) by congruence.
      destruct (processFiles_delivered fl mint s0 st Hs0) as [P1 P2].
      cbn zeta in P1, P2. rewrite <- E in P1, P2. cbn [fst snd] in P1, P2.
      split; [exact P1 | intros _; exact P2]. }
    destruct a as [fs mint|fs mint|i|]; cbn [step] in Ea, Hproc.
    + unfold handleFileSelect in Ea, Hproc. destruct fs as [|f fs].
      * injection Ea as <- <-. now apply Hsame.
      * now apply (Hproc (f :: fs) mint s).
    + unfold handleZoneDrop in Ea, Hproc. destruct fs as [[|f fs]|].
      * injection Ea as <- <-. now apply Hsame.
      * now apply (Hproc (f :: fs) mint (set_isZoneDragOver false s)).
      * injection Ea as <- <-. now apply Hsame.
    + unfold removeImage in Ea.
      destruct (imageAt i s) as [x|] eqn:Ei.
      2:{ injection Ea as <- <-. now apply Hsame. }
      injection Ea as <- <-.
      destruct (imageAt_Some i s Ei) as (H0 & Hlt & _).
      set (s1 := ProductImageUploader.set_images _ s).
      assert (Hrm : productImages (removeProductImage i st) = files s1).
      { unfold removeProductImage, spliceOut. cbn [snd productImages
          ProductPhotoStore.set_productImages].
        rewrite Hs. unfold files. rewrite length_map.
        rewrite spliceStart_in_range by lia.
        unfold s1. cbn [ProductImageUploader.images
          ProductImageUploader.set_images].
        rewrite map_app, firstn_map. f_equal.
        exact (@skipn_map _ _ file (S (Z.to_nat i))
                 (ProductImageUploader.images s)). }
      cbn [map filter incremental onUploaderEvents onUploaderEvent].
      split; [|intros _]; eexists; (split; [reflexivity|]);
        [reflexivity | exact Hrm].
    + injection Ea as <- <-. split; [|congruence].
      eexists. split; [reflexivity|]. reflexivity.
  - destruct (handleItemDrop toIndex d s) as [[[s1 d1] es1]|] eqn:Ed;
      [|discriminate].
    injection Hstep as <- <-. unfold handleItemDrop in Ed.
    destruct (dragIndex d) as [fromIndex|].
    2:{ injection Ed as <- _ <-. now apply Hsame. }
    destruct (fromIndex =? toIndex).
    { injection Ed as <- _ <-. now apply Hsame. }
    destruct (spliceOut fromIndex (ProductImageUploader.images s))
      as [[moved|] rest] eqn:Eo; [|discriminate].
    injection Ed as <- _ <-.
    set (s1 := ProductImageUploader.set_images _ s).
    assert (Hre : exists st', reorderProductImages fromIndex toIndex st = Some st'
                              /\ productImages st' = files s1).
    { unfold reorderProductImages. rewrite Hs. unfold files at 1.
      rewrite spliceOut_map, Eo. cbn [fst snd option_map].
      eexists. split; [reflexivity|].
      cbn [productImages ProductPhotoStore.set_productImages].
      rewrite spliceIn_map. reflexivity. }
    destruct Hre as (st1 & R1 & R2).
    cbn [map filter incremental onUploaderEvents onUploaderEvent].
    rewrite R1. split; [|intros _]; eexists; (split; [reflexivity|]);
      [reflexivity | exact R2].
Qed.

Lemma ratio_unit (c t : Z) :
  0 < t -> 0 <= c <= t -> (0 <= inject_Z c / inject_Z t <= 1)%Q.
Proof.
  intros Ht Hc.
  assert (Tq : (0 < inject_Z t)%Q)
    by (change 0%Q with (inject_Z 0); rewrite <- Zlt_Qlt; lia).
  split.
  - apply Qle_shift_div_l; [exact Tq|]. rewrite Qmult_0_l.
    change 0%Q with (inject_Z 0). rewrite <- Zle_Qle. lia.
  - apply Qle_shift_div_r; [exact Tq|]. rewrite Qmult_1_l.
    rewrite <- Zle_Qle. lia.
Qed.

Lemma div_by_nonzero (x y : Q) :
  ~ (y == 0)%Q ->
  JsNumber.div (JsNumber.Finite x) (JsNumber.Finite y)
  = JsNumber.round64 (x / y).
Proof.
  intros Hy. unfold JsNumber.div, JsNumber.isZero.
  destruct (Qeq_bool y 0) eqn:E; [|reflexivity].
  apply Qeq_bool_eq in E. contradiction.
Qed.

(** X24. While the reported progress satisfies 0 <= current <= total, with
    total below 2^32, the percentage shown is an integer between 0 and 100.
    It is computed in binary64 (quotient, product with 100, Math.round) and
    differs from the exact percentage by less than 1. It is 0 when nothing
    is reported yet (total 0, or current 0) and 100 when current has reached
    a positive total. *)
Theorem progress_percent_bounds (st : Store) :
  0 <= current (progress st) <= total (progress st) ->
  total (progress st) < 2 ^ 32 ->
  (exists p : Z,
     progressPercent st = JsNumber.ofInt p /\ 0 <= p <= 100 /\
     (0 < total (progress st) ->
      (inject_Z p - 1
       < inject_Z (current (progress st)) / inject_Z (total (progress st)) * 100
       < inject_Z p + 1)%Q)) /\
  (current (progress st) = 0 -> progressPercent st = JsNumber.ofInt 0) /\
  (0 < total (progress st) -> current (progress st) = total (progress st) ->
   progressPercent st = JsNumber.ofInt 100).
Proof.
  intros H Hlt. unfold progressPercent.
  destruct (total (progress st) =? 0) eqn:E.
  { apply Z.eqb_eq in E. split; [|split].
    - exists 0. split; [reflexivity|]. split; [lia|]. intros; lia.
    - reflexivity.
    - intros; lia. }
  apply Z.eqb_neq in E.
  set (c := current (progress st)) in *. set (t := total (progress st)) in *.
  assert (Ht : 0 < t) by lia.
  assert (Tq : (0 < inject_Z t)%Q) by now apply inject_Z_pos.
  assert (Z0 : c = 0 ->
               JsNumber.round
                 (JsNumber.mul
                    (JsNumber.div (JsNumber.ofInt c) (JsNumber.ofInt t))
                    (JsNumber.ofInt 100))
               = JsNumber.ofInt 0).
  { intros ->. unfold JsNumber.ofInt.
    rewrite div_by_nonzero by now apply Qpos_nonzero.
    rewrite (@round64_eq (inject_Z 0 / inject_Z t) 0).
    - reflexivity.
    - change (inject_Z 0) with 0%Q. unfold Qdiv. apply Qmult_0_l. }
  split; [|split].
  - destruct (Z.eq_dec c 0) as [C0|C0].
    { exists 0. split; [now apply Z0|]. split; [lia|]. intros _.
      rewrite C0. change (inject_Z 0) with 0%Q.
      assert (X0 : (0 / inject_Z t * 100 == 0)%Q)
        by (unfold Qdiv; now rewrite !Qmult_0_l).
      rewrite X0. split; reflexivity. }
    assert (Hc : 0 < c < 2 ^ 32) by lia.
    assert (Ht' : 0 < t < 2 ^ 32) by lia.
    destruct (ratio_unit Ht H) as [X1 X2].
    destruct (@div_near (inject_Z c) (inject_Z t) 32 32)
      as (q & Eq & [Q1 Q2] & Wq & Pq); try lia; try now apply within_int.
    assert (W100 : JsNumber.within 7 (inject_Z 100))
      by (split; discriminate).
    destruct (@mul_near q (inject_Z 100) 65 7)
      as (P & EP & [P1 P2] & _ & PP); try lia; try assumption.
    unfold JsNumber.ofInt. rewrite Eq, EP. cbn [JsNumber.round].
    exists (Qfloor (P + (1 # 2))).
    split; [reflexivity|].
    pose proof (Qfloor_le (P + (1 # 2))) as F1.
    pose proof (Qlt_floor (P + (1 # 2))) as F2.
    rewrite inject_Z_plus in F2. change (inject_Z 1) with 1%Q in F2.
    change (inject_Z 100) with 100%Q in *.
    set (f := Qfloor (P + (1 # 2))) in *.
    set (X := (inject_Z c / inject_Z t)%Q) in *.
    unfold JsNumber.u in *.
    split.
    + assert (A : (inject_Z (-1) < inject_Z f)%Q)
        by (change (inject_Z (-1)) with (-1)%Q; lra).
      assert (B : (inject_Z f < inject_Z 101)%Q)
        by (change (inject_Z 101) with 101%Q; lra).
      rewrite <- Zlt_Qlt in A, B. lia.
    + intros _. split; lra.
  - exact Z0.
  - intros _ Ec. rewrite Ec. unfold JsNumber.ofInt.
    rewrite div_by_nonzero by now apply Qpos_nonzero.
    rewrite (@round64_eq (inject_Z t / inject_Z t) 1).
    + reflexivity.
    + field. now apply Qpos_nonzero.
Qed.

End ProductPhotoViewFacts.


(* ===================================================================== *)
(** * Properties of the event stream reader *)
(* ===================================================================== *)

Section ProductPhotoApiFacts.

Import JsString ProductPhotoApi.

Variable Data : Type.
Variable JSON_parse : jsstring -> option Data.

Lemma consHead_nonempty c l : consHead c l <> [].
Proof. destruct l; discriminate. Qed.

Lemma split2LF_eq (c : N) (t : jsstring) :
  split2LF (c :: t)
  = if ((c =? LF)%N && startsLF t)%bool then [] :: split2LF (tl t)
    else consHead c (split2LF t).
Proof. destruct t; simpl; [now rewrite andb_false_r | reflexivity]. Qed.

Lemma split2LF_nonempty (s : jsstring) : split2LF s <> [].
Proof.
  destruct s as [|c t]; [discriminate|]. rewrite split2LF_eq.
  destruct ((c =? LF)%N && startsLF t)%bool;
    [discriminate | apply consHead_nonempty].
Qed.

Lemma last_app_nonempty (A : Type) (l l' : list A) (d : A) :
  l' <> [] -> last (l ++ l') d = last l' d.
Proof.
  intros H. induction l as [|x l IH]; [reflexivity|].
  simpl. rewrite IH. destruct (l ++ l') eqn:E; [|reflexivity].
  apply app_eq_nil in E. destruct E. congruence.
Qed.

(** Splitting a text that grows: the pieces already closed stay, and the
    open last piece goes on with the new text. *)
Lemma split2LF_app (b : jsstring) :
  forall (n : nat) (a : jsstring), (List.length a <= n)%nat ->
    split2LF (a ++ b)
    = removelast (split2LF a) ++ split2LF (last (split2LF a) [] ++ b).
Proof.
  induction n as [|n IH]; intros a Hn.
  { destruct a; [reflexivity | simpl in Hn; lia]. }
  destruct a as [|c t]; [reflexivity|].
  simpl in Hn. rewrite <- app_comm_cons.
  rewrite (split2LF_eq c (t ++ b)), (split2LF_eq c t).
  destruct t as [|c' t'].
  - rewrite andb_false_r. cbn [app]. rewrite <- (split2LF_eq c b).
    reflexivity.
  - cbn [startsLF app tl].
    destruct ((c =? LF)%N && (c' =? LF)%N)%bool eqn:E.
    + rewrite (IH t') by (simpl in Hn; lia).
      pose proof (split2LF_nonempty t') as Hne.
      destruct (split2LF t') as [|p ps]; [congruence | reflexivity].
    + rewrite app_comm_cons. rewrite (IH (c' :: t')) by lia.
      pose proof (split2LF_nonempty (c' :: t')) as Hne.
      destruct (split2LF (c' :: t')) as [|p [|q qs]] eqn:EX; [congruence| |].
      * cbn [removelast last consHead app].
        rewrite (split2LF_eq c (p ++ b)).
        replace ((c =? LF)%N && startsLF (p ++ b))%bool with false;
          [reflexivity|].
        symmetry. destruct (c =? LF)%N; [|reflexivity].
        cbn [andb] in E |- *.
        rewrite split2LF_eq, E in EX. cbn [andb] in EX.
        destruct (split2LF t') as [|p' ps']; cbn [consHead] in EX;
          injection EX as <-; try (intros; subst); simpl; exact E.
      * reflexivity.
Qed.

Lemma readLoop_spec (chunks : list jsstring) :
  forall text : jsstring,
    let buffer := last (split2LF text) [] in
    fst (readLoop JSON_parse chunks buffer)
    = last (split2LF (text ++ List.concat chunks)) [] /\
    flat_map (handleLine JSON_parse) (removelast (split2LF text))
    ++ snd (readLoop JSON_parse chunks buffer)
    = flat_map (handleLine JSON_parse)
        (removelast (split2LF (text ++ List.concat chunks))).
Proof.
  induction chunks as [|chunk chunks IH]; intros text; cbn zeta.
  { simpl. now rewrite !app_nil_r. }
  cbn [readLoop List.concat]. unfold readChunk.
  pose proof (@split2LF_app chunk (List.length text) text (le_n _)) as E.
  pose proof (split2LF_nonempty (last (split2LF text) [] ++ chunk)) as Hne.
  specialize (IH (text ++ chunk)). cbn zeta in IH.
  rewrite E, (last_app_nonempty _ _ Hne), (removelast_app _ Hne) in IH.
  rewrite <- app_assoc in IH.
  destruct (readLoop JSON_parse chunks
              (last (split2LF (last (split2LF text) [] ++ chunk)) []))
    as [buffer2 out2].
  cbn [fst snd] in *. destruct IH as [I1 I2]. split; [exact I1|].
  rewrite <- I2, flat_map_app, <- !app_assoc. reflexivity.
Qed.

(** X25. How the response is cut into chunks does not matter. The read
    loop handles the blocks of the whole text that are closed by a blank
    line ("\n\n"), in order, and keeps what follows the last blank line in
    its buffer: text that is not followed by a blank line when the stream
    ends is never handled. Two responses with the same text make
    generateProductPhoto and retryGeneration call the same callbacks. *)
Theorem chunking_irrelevant (chunks : list jsstring) :
  readLoop JSON_parse chunks []
  = (last (split2LF (List.concat chunks)) [],
     flat_map (handleLine JSON_parse)
       (removelast (split2LF (List.concat chunks)))) /\
  (forall chunks' failure,
     List.concat chunks' = List.concat chunks ->
     generateProductPhoto JSON_parse (Streamed chunks' failure)
     = generateProductPhoto JSON_parse (Streamed chunks failure) /\
     retryGeneration JSON_parse (Streamed chunks' failure)
     = retryGeneration JSON_parse (Streamed chunks failure)).
Proof.
  assert (R : forall cs,
            readLoop JSON_parse cs []
            = (last (split2LF (List.concat cs)) [],
               flat_map (handleLine JSON_parse)
                 (removelast (split2LF (List.concat cs))))).
  { intros cs. destruct (readLoop_spec cs []) as [I1 I2].
    cbn [split2LF last removelast flat_map app] in I1, I2.
    rewrite <- I1, <- I2. now destruct (readLoop JSON_parse cs []). }
  split; [apply R|].
  intros chunks' failure E.
  unfold retryGeneration, generateProductPhoto. now rewrite !R, E.
Qed.

Lemma isLineTerminator_LF (c : N) :
  isLineTerminator c = false -> (c =? LF)%N = false.
Proof.
  unfold isLineTerminator. cbn [existsb]. intros H.
  now apply orb_false_iff in H.
Qed.

Lemma stripPrefix_app (p s : jsstring) : stripPrefix p (p ++ s) = Some s.
Proof.
  induction p as [|a p IH]; [now destruct s|].
  simpl. now rewrite N.eqb_refl.
Qed.

Lemma capture_app (p s : jsstring) : s <> [] -> capture p (p ++ s) = Some s.
Proof.
  intros H. unfold capture. rewrite stripPrefix_app.
  destruct s; [congruence | reflexivity].
Qed.

Lemma linesOf_one (a : jsstring) : noTerminator a = true -> linesOf a = [a].
Proof.
  induction a as [|c a IH]; [reflexivity|].
  unfold noTerminator. simpl. intros H. apply andb_true_iff in H.
  destruct H as [H1 H2]. apply negb_true_iff in H1.
  rewrite H1, (IH H2). reflexivity.
Qed.

Lemma linesOf_LF (a t : jsstring) :
  noTerminator a = true -> linesOf (a ++ LF :: t) = a :: linesOf t.
Proof.
  induction a as [|c a IH]; [reflexivity|].
  unfold noTerminator. simpl. intros H. apply andb_true_iff in H.
  destruct H as [H1 H2]. apply negb_true_iff in H1.
  rewrite H1, (IH H2). reflexivity.
Qed.

Lemma noTerminator_app (a b : jsstring) :
  noTerminator a = true -> noTerminator b = true ->
  noTerminator (a ++ b) = true.
Proof.
  unfold noTerminator. intros Ha Hb. now rewrite forallb_app, Ha, Hb.
Qed.

Lemma trimStart_nil (s : jsstring) :
  trimStart s = [] -> forall c, In c s -> isWhiteSpace c = true.
Proof.
  induction s as [|a s IH]; intros H c Hc; [destruct Hc|].
  simpl in H. destruct (isWhiteSpace a) eqn:E; [|discriminate].
  destruct Hc as [<-|Hc]; [exact E | now apply IH].
Qed.

Lemma trim_nonblank (c : N) (r : jsstring) :
  isWhiteSpace c = false -> trim (c :: r) <> [].
Proof.
  intros Hc H. unfold trim in H. simpl in H. rewrite Hc in H.
  unfold trimEnd in H.
  assert (E : trimStart (rev (c :: r)) = []).
  { rewrite <- (rev_involutive (trimStart _)), H. reflexivity. }
  assert (W : isWhiteSpace c = true).
  { apply (trimStart_nil _ E). apply in_rev. rewrite rev_involutive. now left. }
  congruence.
Qed.

(** The lines and the two fields of a well-formed frame. *)
Lemma frame_fields (T D : jsstring) :
  oneLine T -> oneLine D ->
  matchField (lit "event: ") (frame T D) = Some T /\
  matchField (lit "data: ") (frame T D) = Some D /\
  trim (frame T D) <> [].
Proof.
  intros [T1 T2] [D1 D2].
  assert (L : linesOf (frame T D) = [lit "event: " ++ T; lit "data: " ++ D]).
  { unfold frame. rewrite app_assoc.
    rewrite linesOf_LF by (apply noTerminator_app; [reflexivity | exact T2]).
    rewrite linesOf_one by (apply noTerminator_app; [reflexivity | exact D2]).
    reflexivity. }
  unfold matchField. rewrite L. cbn [firstCapture].
  rewrite (capture_app _ T1).
  replace (capture (lit "data: ") (lit "event: " ++ T)) with (@None jsstring)
    by reflexivity.
  rewrite (capture_app _ D1).
  repeat split. apply trim_nonblank. reflexivity.
Qed.

Lemma handleLine_frame (T D : jsstring) :
  oneLine T -> oneLine D ->
  handleLine JSON_parse (frame T D) = delivered JSON_parse (T, D).
Proof.
  intros HT HD. destruct (frame_fields HT HD) as (E1 & E2 & E3).
  unfold handleLine, delivered. rewrite E1, E2. cbn [fst snd].
  destruct (trim (frame T D)); [congruence | reflexivity].
Qed.

(** X26. A block with an "event: T" line and a "data: D" line, in either
    order, where T and D are not empty and hold no line terminator, makes
    the reader parse D (trimmed) as JSON and call the one callback that
    the trimmed T names ('start', 'progress', 'complete', 'error' or
    'finish') with the parsed value; any other event name calls nothing,
    and data that does not parse is only logged. A block with only one of
    the two lines calls nothing. *)
Theorem frame_dispatch (T D : jsstring) :
  oneLine T -> oneLine D ->
  handleLine JSON_parse (frame T D) = delivered JSON_parse (T, D) /\
  handleLine JSON_parse (lit "data: " ++ D ++ LF :: lit "event: " ++ T)
  = delivered JSON_parse (T, D) /\
  handleLine JSON_parse (lit "event: " ++ T) = [] /\
  handleLine JSON_parse (lit "data: " ++ D) = [] /\
  (forall data, JSON_parse (trim D) = Some data ->
     (trim T = lit "start" -> delivered JSON_parse (T, D) = [onStart data]) /\
     (trim T = lit "progress" -> delivered JSON_parse (T, D) = [onProgress data]) /\
     (trim T = lit "complete" -> delivered JSON_parse (T, D) = [onComplete data]) /\
     (trim T = lit "error" -> delivered JSON_parse (T, D) = [onError data]) /\
     (trim T = lit "finish" -> delivered JSON_parse (T, D) = [onFinish data]) /\
     (~ In (trim T) (map lit ["start"; "progress"; "complete"; "error"; "finish"]%string) ->
      delivered JSON_parse (T, D) = [])) /\
  (JSON_parse (trim D) = None ->
   delivered JSON_parse (T, D) = [consoleError (trim D)]).
Proof.
  intros HT HD. pose proof HT as [T1 T2]. pose proof HD as [D1 D2].
  split; [now apply handleLine_frame|]. split; [|split; [|split; [|split]]].
  - assert (L : linesOf (lit "data: " ++ D ++ LF :: lit "event: " ++ T)
                = [lit "data: " ++ D; lit "event: " ++ T]).
    { rewrite app_assoc.
      rewrite linesOf_LF by (apply noTerminator_app; [reflexivity | exact D2]).
      rewrite linesOf_one by (apply noTerminator_app; [reflexivity | exact T2]).
      reflexivity. }
    unfold handleLine, delivered, matchField. rewrite L. cbn [firstCapture fst snd].
    replace (capture (lit "event: ") (lit "data: " ++ D)) with (@None jsstring)
      by reflexivity.
    rewrite (capture_app _ T1), (capture_app _ D1).
    destruct (trim (lit "data: " ++ D ++ LF :: lit "event: " ++ T)) eqn:E;
      [|reflexivity].
    exfalso. revert E. apply trim_nonblank. reflexivity.
  - unfold handleLine, matchField.
    rewrite linesOf_one by (apply noTerminator_app; [reflexivity | exact T2]).
    cbn [firstCapture].
    replace (capture (lit "data: ") (lit "event: " ++ T)) with (@None jsstring)
      by reflexivity.
    destruct (trim _); [reflexivity|]. now destruct (capture _ _).
  - unfold handleLine, matchField.
    rewrite linesOf_one by (apply noTerminator_app; [reflexivity | exact D2]).
    cbn [firstCapture].
    replace (capture (lit "event: ") (lit "data: " ++ D)) with (@None jsstring)
      by reflexivity.
    now destruct (trim _).
  - intros data E. unfold delivered. cbn [fst snd]. rewrite E.
    unfold dispatch.
    repeat split; try (intros ->; reflexivity).
    intros Hn.
    repeat match goal with
    | |- context [eqb ?a ?b] =>
        let Q := fresh "Q" in
        destruct (eqb a b) eqn:Q;
          [exfalso; apply Hn; unfold eqb in Q;
           destruct (list_eq_dec N.eq_dec a b) as [->|]; [|discriminate];
           simpl; tauto|]
    end.
    reflexivity.
  - intros E. unfold delivered. cbn [fst snd]. now rewrite E.
Qed.

Lemma split2LF_noLF (x t : jsstring) :
  noTerminator x = true ->
  split2LF (x ++ t)
  = match split2LF t with
    | p :: ps => (x ++ p) :: ps
    | [] => [x]
    end.
Proof.
  induction x as [|c x IH]; intros H.
  - simpl. pose proof (split2LF_nonempty t). now destruct (split2LF t).
  - unfold noTerminator in H. simpl in H. apply andb_true_iff in H.
    destruct H as [H1 H2]. apply negb_true_iff in H1.
    apply isLineTerminator_LF in H1.
    rewrite <- app_comm_cons, split2LF_eq, H1. cbn [andb].
    rewrite (IH H2). pose proof (split2LF_nonempty t).
    now destruct (split2LF t).
Qed.

(** A well-formed frame followed by the blank line is one block. *)
Lemma split2LF_frame (T D rest : jsstring) :
  oneLine T -> oneLine D ->
  split2LF ((frame T D ++ [LF; LF]) ++ rest) = frame T D :: split2LF rest.
Proof.
  intros [T1 T2] [D1 D2]. unfold frame.
  replace (((lit "event: " ++ T ++ LF :: lit "data: " ++ D) ++ [LF; LF]) ++ rest)
    with ((lit "event: " ++ T)
          ++ LF :: (lit "data: " ++ D) ++ LF :: LF :: rest)
    by (rewrite <- !app_assoc; simpl; rewrite <- ?app_assoc; reflexivity).
  rewrite split2LF_noLF by (apply noTerminator_app; [reflexivity | exact T2]).
  rewrite split2LF_eq.
  replace (startsLF ((lit "data: " ++ D) ++ LF :: LF :: rest)) with false
    by reflexivity.
  rewrite andb_false_r.
  rewrite split2LF_noLF by (apply noTerminator_app; [reflexivity | exact D2]).
  rewrite split2LF_eq. cbn [LF N.eqb Pos.eqb startsLF andb tl consHead].
  rewrite app_nil_r, <- !app_assoc. reflexivity.
Qed.

(** An unfinished well-formed frame is one open block. *)
Lemma split2LF_open_frame (T D : jsstring) :
  oneLine T -> oneLine D -> split2LF (frame T D) = [frame T D].
Proof.
  intros [T1 T2] [D1 D2]. unfold frame. rewrite app_assoc.
  rewrite split2LF_noLF by (apply noTerminator_app; [reflexivity | exact T2]).
  rewrite split2LF_eq.
  replace (startsLF (lit "data: " ++ D)) with false by reflexivity.
  rewrite andb_false_r.
  rewrite <- (app_nil_r (lit "data: " ++ D)).
  rewrite split2LF_noLF by (apply noTerminator_app; [reflexivity | exact D2]).
  cbn [split2LF consHead]. now rewrite !app_nil_r.
Qed.

Lemma split2LF_stream (frames : list (jsstring * jsstring)) (rest : jsstring) :
  Forall (fun f => oneLine (fst f) /\ oneLine (snd f)) frames ->
  split2LF (streamText frames ++ rest)
  = map (fun f => frame (fst f) (snd f)) frames ++ split2LF rest.
Proof.
  induction 1 as [|f frames [H1 H2] _ IH]; [reflexivity|].
  unfold streamText in *. cbn [map List.concat].
  rewrite <- app_assoc, (split2LF_frame _ H1 H2), IH. reflexivity.
Qed.

(** X27. A stream of well-formed frames, each ended by a blank line, is
    delivered frame by frame in order, however the text is cut into
    chunks: every frame makes the call its event name and data stand for,
    and a failure of the stream is reported after them. A well-formed last
    frame that is not yet followed by a blank line when the stream ends is
    not delivered. *)
Theorem stream_of_frames_delivered (frames : list (jsstring * jsstring))
    (chunks : list jsstring) (failure : option jsstring) :
  Forall (fun f => oneLine (fst f) /\ oneLine (snd f)) frames ->
  (List.concat chunks = streamText frames ->
   generateProductPhoto JSON_parse (Streamed chunks failure)
   = flat_map (delivered JSON_parse) frames
     ++ match failure with Some m => [onStreamError m] | None => [] end) /\
  (forall T D, oneLine T -> oneLine D ->
     List.concat chunks = streamText frames ++ frame T D ->
     generateProductPhoto JSON_parse (Streamed chunks failure)
     = flat_map (delivered JSON_parse) frames
       ++ match failure with Some m => [onStreamError m] | None => [] end).
Proof.
  intros Hf.
  assert (R : snd (readLoop JSON_parse chunks [])
              = flat_map (handleLine JSON_parse)
                  (removelast (split2LF (List.concat chunks)))).
  { destruct (readLoop_spec chunks []) as [_ I2].
    cbn [split2LF last removelast flat_map app] in I2. exact I2. }
  assert (M : flat_map (handleLine JSON_parse)
                (map (fun f => frame (fst f) (snd f)) frames)
              = flat_map (delivered JSON_parse) frames).
  { induction Hf as [|f frames [H1 H2] _ IH]; [reflexivity|].
    cbn [map flat_map]. rewrite IH, (handleLine_frame H1 H2).
    now destruct f. }
  split.
  - intros E. unfold generateProductPhoto. rewrite R, E.
    rewrite <- (app_nil_r (streamText frames)), (split2LF_stream [] Hf).
    cbn [split2LF]. rewrite removelast_last, M. reflexivity.
  - intros T D HT HD E. unfold generateProductPhoto. rewrite R, E.
    rewrite (split2LF_stream _ Hf), (split2LF_open_frame HT HD).
    rewrite removelast_last, M. reflexivity.
Qed.

End ProductPhotoApiFacts.


Section StoreInstances.

Import JsString.

Example generation_slots_independent_witness :
  map ProductPhotoStore.status
    (ProductPhotoStore.images
       (fst (ProductPhotoStore.startGeneration Scenario3.mixedStream
               Scenario3.readyStore)))
  = [ProductPhotoStore.done; ProductPhotoStore.failed; ProductPhotoStore.pending].
Proof.
  rewrite (proj1 (@generation_slots_independent Scenario3.mixedStream
                    Scenario3.readyStore eq_refl)).
  reflexivity.
Defined.

Example generation_outcome_witness :
  ProductPhotoStore.stage
    (fst (ProductPhotoStore.startGeneration Scenario3.mixedStream
            Scenario3.readyStore))
  = ProductPhotoStore.stage_result.
Proof.
  exact (proj1 (proj2 (proj2 (generation_outcome Scenario3.mixedStream
                                Scenario3.readyStore) eq_refl))).
Defined.

Example store_follows_uploader_witness :
  exists st',
    ProductPhotoView.onUploaderEvents
      (filter ProductPhotoView.incremental (snd Scenario3.draggedToFront))
      Scenario3.readyStore = Some st' /\
    ProductPhotoStore.productImages st'
    = ProductImageUploader.files (fst Scenario3.draggedToFront).
Proof.
  refine (proj2 (@store_follows_uploader (ProductPhotoView.Dropped 0)
                   (UploaderDrag.handleDragStart 2 UploaderDrag.noDrag)
                   Scenario2.threeImages (fst Scenario3.draggedToFront)
                   (snd Scenario3.draggedToFront) Scenario3.readyStore
                   eq_refl eq_refl) _).
  discriminate.
Defined.

(** The percentage is rounded as the machine rounds it: 23 of 40 is shown
    as 57 (the product 0.575 * 100 is just below 57.5) and 29 of 200 as
    14. *)
Example progressPercent_rounds :
  let at_ c t :=
    ProductPhotoView.progressPercent
      (ProductPhotoStore.set_progress
         (ProductPhotoStore.mkProgress c t ProductPhotoStore.p_generating [])
         Scenario3.readyStore) in
  at_ 23 40 = JsNumber.ofInt 57 /\ at_ 29 200 = JsNumber.ofInt 14 /\
  at_ 1 3 = JsNumber.ofInt 33 /\ at_ 0 0 = JsNumber.ofInt 0.
Proof. vm_compute. repeat split. Qed.

Example progress_percent_bounds_witness :
  exists p : Z,
    ProductPhotoView.progressPercent Scenario3.oneOfThree = JsNumber.ofInt p /\
    0 <= p <= 100 /\
    (0 < 3 ->
     (inject_Z p - 1 < inject_Z 1 / inject_Z 3 * 100 < inject_Z p + 1)%Q).
Proof.
  refine (proj1 (@progress_percent_bounds Scenario3.oneOfThree _ _));
    vm_compute; repeat split; (reflexivity || discriminate).
Defined.

Example frame_dispatch_witness :
  ProductPhotoApi.handleLine Scenario3.parseObject
    (ProductPhotoApi.frame (lit "complete") (lit "{}"))
  = ProductPhotoApi.delivered Scenario3.parseObject (lit "complete", lit "{}").
Proof.
  refine (proj1 (@frame_dispatch jsstring Scenario3.parseObject
                   (lit "complete") (lit "{}") _ _));
    (split; [discriminate | reflexivity]).
Defined.

Example stream_of_frames_delivered_witness :
  ProductPhotoApi.generateProductPhoto Scenario3.parseObject
    (ProductPhotoApi.Streamed Scenario3.twoFramesCut None)
  = flat_map (ProductPhotoApi.delivered Scenario3.parseObject)
      Scenario3.twoFrames ++ [].
Proof.
  refine (proj1 (@stream_of_frames_delivered jsstring Scenario3.parseObject
                   Scenario3.twoFrames Scenario3.twoFramesCut None _) _).
  - repeat constructor; discriminate.
  - reflexivity.
Defined.

End StoreInstances.


(* ===================================================================== *)
(** * Properties of the template store *)
(* ===================================================================== *)

Section TemplateStoreFacts.

Import JsString TemplateStore.

Lemma eqb_refl_true (a : jsstring) : eqb a a = true.
Proof. now apply eqb_eq. Qed.

Lemma eqb_neq (a b : jsstring) : a <> b -> eqb a b = false.
Proof.
  intros H. destruct (eqb a b) eqn:E; [|reflexivity].
  apply eqb_eq in E. contradiction.
Qed.

(** While the store is loading, loadTemplates returns at once. *)
Lemma loadTemplates_busy (reply : EditApi.Reply ListResult) (st : TemplateState) :
  loading st = true -> loadTemplates reply st = (st, []).
Proof. unfold loadTemplates. now intros ->. Qed.

(** X28. saveNewTemplate never refreshes the list. It sets [loading]
    before it awaits the save, so the refreshTemplates it calls after a
    successful save runs into the guard of loadTemplates and returns at
    once: the only request made is the save, whatever the replies, and the
    list of templates and the selection are what they were. After a
    successful save the new id is returned, no error is shown and [loaded]
    is left false; after a failed one nothing is returned, an error is
    shown and [loaded] keeps its value. [loading] always ends false. The
    same list reply, given to loadTemplates on an idle store, is adopted. *)
Theorem save_never_refreshes (templateName : jsstring)
    (saved : EditApi.Reply SaveResult) (listed : EditApi.Reply ListResult)
    (st : TemplateState) :
  let out := saveNewTemplate templateName saved listed st in
  let st' := fst (fst out) in
  calls (snd (fst out)) = [saveTemplate templateName] /\
  templates st' = templates st /\
  selectedTemplateId st' = selectedTemplateId st /\
  loading st' = false /\
  (forall result c tid,
     saved = EditApi.Resolved result -> save_success result = true ->
     template_id result = Some (c :: tid) ->
     snd out = Some (c :: tid) /\ loaded st' = false /\ error st' = None) /\
  (snd out = None -> loaded st' = loaded st /\ exists m, error st' = Some m) /\
  (forall ts e,
     listed = EditApi.Resolved (mkListResult true (Some ts) e) ->
     loading st = false ->
     templates (fst (loadTemplates listed st)) = ts /\
     loaded (fst (loadTemplates listed st)) = true /\
     calls (snd (loadTemplates listed st)) = [listTemplates]).
Proof.
  cbn zeta. unfold saveNewTemplate, refreshTemplates.
  rewrite loadTemplates_busy by reflexivity.
  split; [|split; [|split; [|split; [|split; [|split]]]]].
  - destruct saved as [result|e]; [|reflexivity].
    destruct (save_success result); [|reflexivity].
    now destruct (template_id result) as [[|c tid]|].
  - destruct saved as [result|e]; [|reflexivity].
    destruct (save_success result); [|reflexivity].
    now destruct (template_id result) as [[|c tid]|].
  - destruct saved as [result|e]; [|reflexivity].
    destruct (save_success result); [|reflexivity].
    now destruct (template_id result) as [[|c tid]|].
  - destruct saved as [result|e]; [|reflexivity].
    destruct (save_success result); [|reflexivity].
    now destruct (template_id result) as [[|c tid]|].
  - intros result c tid -> E1 E2. rewrite E1, E2. now repeat split.
  - destruct saved as [result|e].
    + destruct (save_success result).
      * destruct (template_id result) as [[|c tid]|]; simpl;
          try discriminate; intros _; split; eauto.
      * simpl. intros _. split; eauto.
    + simpl. intros _. split; eauto.
  - intros ts e -> Hl. unfold loadTemplates. rewrite Hl. now repeat split.
Qed.

Lemma find_removed (tid : jsstring) (l : list Template) :
  List.find (fun t => eqb (id t) tid)
    (filter (fun t => negb (eqb (id t) tid)) l) = None.
Proof.
  induction l as [|t l IH]; [reflexivity|].
  simpl. destruct (eqb (id t) tid) eqn:E; simpl; [exact IH|].
  now rewrite E.
Qed.

Lemma find_others (tid other : jsstring) (l : list Template) :
  other <> tid ->
  List.find (fun t => eqb (id t) other)
    (filter (fun t => negb (eqb (id t) tid)) l)
  = List.find (fun t => eqb (id t) other) l.
Proof.
  intros Hn. induction l as [|t l IH]; [reflexivity|].
  simpl. destruct (eqb (id t) tid) eqn:E; simpl.
  - apply eqb_eq in E. rewrite eqb_neq by congruence. exact IH.
  - destruct (eqb (id t) other); [reflexivity | exact IH].
Qed.

(** X29. removeTemplate makes one delete request and succeeds exactly when
    the reply reports success. Then the templates with that id are gone
    from the list and the others stay, in order; looking up the removed id
    finds nothing and looking up any other id finds what it found before;
    the selected template is cleared if it was the removed one and is
    otherwise the same template as before. When it fails the list and the
    selection are untouched and an error is shown. [loading] always ends
    false and [loaded] keeps its value. *)
Theorem remove_template_outcome (tid : jsstring)
    (reply : EditApi.Reply DeleteResult) (st : TemplateState) :
  let out := removeTemplate tid reply st in
  let st' := fst (fst out) in
  calls (snd (fst out)) = [deleteTemplate tid] /\
  loading st' = false /\ loaded st' = loaded st /\
  (snd out = true <->
   exists result, reply = EditApi.Resolved result /\ delete_success result = true) /\
  (snd out = true ->
   templates st' = filter (fun t => negb (eqb (id t) tid)) (templates st) /\
   getTemplateById tid st' = None /\
   (forall other, other <> tid ->
      getTemplateById other st' = getTemplateById other st) /\
   selectedTemplate st'
   = (match selectedTemplateId st with
      | Some sel => if eqb sel tid then None else selectedTemplate st
      | None => None
      end) /\
   error st' = None) /\
  (snd out = false ->
   templates st' = templates st /\
   selectedTemplateId st' = selectedTemplateId st /\
   exists m, error st' = Some m).
Proof.
  cbn zeta. unfold removeTemplate.
  destruct reply as [result|e].
  2:{ simpl. repeat split; try discriminate; eauto.
      intros (result & E & _). discriminate. }
  destruct (delete_success result) eqn:Es.
  2:{ simpl. repeat split; try discriminate; eauto.
      intros (result' & E & E'). injection E as <-. congruence. }
  assert (F : forall st0 : TemplateState,
            templates
              (match selectedTemplateId st0 with
               | Some sel =>
                   if eqb sel tid then set_selectedTemplateId None st0 else st0
               | None => st0
               end) = templates st0
            /\ loaded
              (match selectedTemplateId st0 with
               | Some sel =>
                   if eqb sel tid then set_selectedTemplateId None st0 else st0
               | None => st0
               end) = loaded st0
            /\ error
              (match selectedTemplateId st0 with
               | Some sel =>
                   if eqb sel tid then set_selectedTemplateId None st0 else st0
               | None => st0
               end) = error st0).
  { intros st0. destruct (selectedTemplateId st0) as [sel|]; [|now repeat split].
    destruct (eqb sel tid); now repeat split. }
  set (st2 := set_templates _ _).
  destruct (F st2) as (F1 & F2 & F3).
  cbn [fst snd calls flat_map app].
  split; [reflexivity|]. split; [reflexivity|].
  split; [cbn [loaded set_loading]; rewrite F2; reflexivity|].
  split; [split; [intros _; now exists result | reflexivity]|].
  split; [|discriminate]. intros _.
  assert (T : templates (set_loading false
                (match selectedTemplateId st2 with
                 | Some sel =>
                     if eqb sel tid then set_selectedTemplateId None st2 else st2
                 | None => st2
                 end))
              = filter (fun t => negb (eqb (id t) tid)) (templates st)).
  { cbn [templates set_loading]. rewrite F1. reflexivity. }
  split; [exact T|]. split; [|split; [|split]].
  - unfold getTemplateById. rewrite T. apply find_removed.
  - intros other Hn. unfold getTemplateById. rewrite T. now apply find_others.
  - assert (S2 : selectedTemplateId st2 = selectedTemplateId st) by reflexivity.
    unfold selectedTemplate, getTemplateById. rewrite T.
    cbn [selectedTemplateId set_loading]. rewrite S2.
    destruct (selectedTemplateId st) as [sel|] eqn:Esel;
      [|rewrite ?S2, ?Esel; reflexivity].
    destruct (eqb sel tid) eqn:E; [reflexivity|].
    rewrite ?S2, ?Esel.
    destruct sel as [|c s]; [reflexivity|].
    apply find_others.
    intros Heq. rewrite Heq, eqb_refl_true in E. discriminate.
  - cbn [error set_loading]. rewrite F3. reflexivity.
Qed.

End TemplateStoreFacts.


(* ===================================================================== *)
(** * Properties of the model image uploader *)
(* ===================================================================== *)

Section ModelImageUploaderFacts.

Import JsString ModelImageUploader.

Lemma createdUrls_app es1 es2 :
  createdUrls (es1 ++ es2) = createdUrls es1 ++ createdUrls es2.
Proof. apply flat_map_app. Qed.

Lemma revokedUrls_app es1 es2 :
  revokedUrls (es1 ++ es2) = revokedUrls es1 ++ revokedUrls es2.
Proof. apply flat_map_app. Qed.

Lemma modelValues_app es1 es2 :
  modelValues (es1 ++ es2) = modelValues es1 ++ modelValues es2.
Proof. apply flat_map_app. Qed.

(** Revoking the URL held, if any: nothing is created or emitted, and
    what is revoked is the URL held. *)
Lemma revokeLocal_spec (s : State) :
  holdsUrl s ->
  revokedUrls (revokeLocal s) = live s /\
  createdUrls (revokeLocal s) = [] /\
  modelValues (revokeLocal s) = [].
Proof.
  unfold holdsUrl, revokeLocal, live.
  destruct (localPreviewUrl s) as [[|c u]|]; intros H;
    [now destruct H | |]; now repeat split.
Qed.

Lemma processFile_rejects (f : File) (minted : jsstring) (s : State) :
  acceptable f = false ->
  exists m, processFile f minted s
            = (set_error (Some m) s, [Emitted (error_event m)]).
Proof.
  unfold acceptable, processFile. intros H.
  destruct (includes ACCEPTED_FORMATS (ProductImageUploader.type f));
    cbn [negb andb] in *; [|now exists UnsupportedFormat].
  apply Z.leb_gt in H. apply Z.ltb_lt in H. rewrite H.
  now exists FileTooLarge.
Qed.

Lemma processFile_urls (f : File) (minted : jsstring) (s : State) :
  holdsUrl s -> minted <> [] ->
  holdsUrl (fst (processFile f minted s)) /\
  live s ++ createdUrls (snd (processFile f minted s))
  = revokedUrls (snd (processFile f minted s))
    ++ live (fst (processFile f minted s)) /\
  Forall validModel (modelValues (snd (processFile f minted s))).
Proof.
  intros Hs Hm.
  destruct (acceptable f) eqn:Ea.
  - unfold processFile. unfold acceptable in Ea.
    apply andb_true_iff in Ea. destruct Ea as [E1 E2].
    rewrite E1. cbn [negb]. apply Z.leb_le in E2.
    replace (maxSize <? ProductImageUploader.size f) with false
      by (symmetry; apply Z.ltb_ge; exact E2).
    cbn [fst snd].
    destruct (@revokeLocal_spec (set_error None s) Hs) as (R1 & R2 & R3).
    rewrite createdUrls_app, revokedUrls_app, modelValues_app, R1, R2, R3.
    split; [|split].
    + unfold holdsUrl. simpl. congruence.
    + simpl. now rewrite app_nil_r.
    + simpl. repeat constructor. unfold acceptable.
      apply andb_true_iff. split; [exact E1 | now apply Z.leb_le].
  - destruct (processFile_rejects f minted s Ea) as (m & ->).
    simpl. split; [exact Hs|]. split; [now rewrite !app_nil_r | constructor].
Qed.

Lemma step_urls_model (a : Action) (s : State) :
  holdsUrl s -> mintsUrl a ->
  holdsUrl (fst (step a s)) /\
  live s ++ createdUrls (snd (step a s))
  = revokedUrls (snd (step a s)) ++ live (fst (step a s)) /\
  Forall validModel (modelValues (snd (step a s))).
Proof.
  intros Hs Ha.
  assert (Hsame : holdsUrl s /\ live s ++ @nil jsstring = [] ++ live s /\
                  Forall validModel []).
  { split; [exact Hs|]. split; [now rewrite app_nil_r | constructor]. }
  destruct a as [fs minted|fs minted|  |t]; cbn [step mintsUrl] in *.
  - unfold handleDrop. destruct fs as [[|f fs]|]; try exact Hsame.
    apply (@processFile_urls f minted (set_isDragOver false s) Hs Ha).
  - unfold handleFileSelect. destruct fs as [[|f fs]|]; try exact Hsame.
    now apply processFile_urls.
  - unfold clearImage. cbn [fst snd].
    destruct (revokeLocal_spec Hs) as (R1 & R2 & R3).
    rewrite createdUrls_app, revokedUrls_app, modelValues_app, R1, R2, R3.
    unfold holdsUrl, live in *.
    destruct (localPreviewUrl s) as [[|c u]|] eqn:El;
      [exfalso; now apply Hs | |]; simpl; rewrite ?El; simpl;
      (split; [congruence|]); (split; [reflexivity|]); repeat constructor.
  - unfold selectTemplate. cbn [fst snd].
    destruct (@revokeLocal_spec
                (set_selectedTemplateId (Some t) (set_error None s)) Hs)
      as (R1 & R2 & R3).
    rewrite createdUrls_app, revokedUrls_app, modelValues_app, R1, R2, R3.
    unfold holdsUrl, live in *. simpl.
    destruct (localPreviewUrl s) as [[|c u]|] eqn:El;
      [exfalso; now apply Hs | |]; simpl; rewrite ?El; simpl;
      (split; [congruence|]); (split; [reflexivity|]); repeat constructor.
Qed.

Lemma run_urls_model (tr : list Action) :
  forall s, holdsUrl s -> Forall mintsUrl tr ->
    holdsUrl (fst (run tr s)) /\
    live s ++ createdUrls (snd (run tr s))
    = revokedUrls (snd (run tr s)) ++ live (fst (run tr s)) /\
    Forall validModel (modelValues (snd (run tr s))).
Proof.
  induction tr as [|a tr IH]; intros s Hs Hall.
  - simpl. split; [exact Hs|]. split; [now rewrite app_nil_r | constructor].
  - apply Forall_cons_iff in Hall. destruct Hall as [Ha Hall].
    destruct (step_urls_model a Hs Ha) as (S1 & S2 & S3).
    cbn [run]. destruct (step a s) as [s1 es1]. cbn [fst snd] in *.
    destruct (IH s1 S1 Hall) as (I1 & I2 & I3).
    destruct (run tr s1) as [s2 es2]. cbn [fst snd] in *.
    rewrite createdUrls_app, revokedUrls_app, modelValues_app.
    split; [exact I1|]. split.
    + rewrite app_assoc, S2, <- !app_assoc, I2. reflexivity.
    + apply Forall_app. now split.
Qed.

(** X30. The model image uploader holds at most one object URL and loses
    none. Along any sequence of drops, selections, clearImage and
    selectTemplate from the initial state, where createObjectURL returns
    non-empty strings, the URLs created are, in order, the URLs revoked
    followed by the one still held, if any; so once the onUnmounted hook
    has run every URL created has been revoked, once. Every file handed to
    the parent as the model image has an accepted type (PNG, JPEG, WEBP)
    and at most 10 MB; a file that fails the validation changes nothing but
    the error shown and emits only 'error'. Selecting a template hands no
    file to the parent. *)
Theorem model_preview_urls_accounted (tr : list Action) :
  Forall mintsUrl tr ->
  let out := run tr initial in
  createdUrls (snd out) = revokedUrls (snd out) ++ live (fst out) /\
  (List.length (live (fst out)) <= 1)%nat /\
  createdUrls (snd out ++ onUnmounted (fst out))
  = revokedUrls (snd out ++ onUnmounted (fst out)) /\
  Forall validModel (modelValues (snd out)) /\
  (forall f minted s,
     acceptable f = false ->
     exists m, processFile f minted s
               = (set_error (Some m) s, [Emitted (error_event m)])) /\
  (forall t s, modelValues (snd (selectTemplate t s)) = []).
Proof.
  intros Hall. cbn zeta.
  assert (H0 : holdsUrl initial) by (unfold holdsUrl; simpl; congruence).
  destruct (run_urls_model H0 Hall) as (I1 & I2 & I3).
  simpl in I2.
  split; [exact I2|]. split; [|split; [|split; [exact I3|split]]].
  - unfold live. destruct (localPreviewUrl _); simpl; lia.
  - unfold onUnmounted.
    destruct (revokeLocal_spec I1) as (R1 & R2 & _).
    rewrite createdUrls_app, revokedUrls_app, R1, R2, app_nil_r. exact I2.
  - intros f minted s. apply processFile_rejects.
  - intros t s. unfold selectTemplate. cbn [snd].
    rewrite modelValues_app. unfold revokeLocal.
    now destruct (localPreviewUrl _) as [[|c u]|].
Qed.

End ModelImageUploaderFacts.

Section TemplateInstances.

Import JsString.

Example model_preview_urls_accounted_witness :
  ModelImageUploader.createdUrls
    (snd (ModelImageUploader.run ModelImageUploader.session
            ModelImageUploader.initial))
  = ModelImageUploader.revokedUrls
      (snd (ModelImageUploader.run ModelImageUploader.session
              ModelImageUploader.initial))
    ++ ModelImageUploader.live
         (fst (ModelImageUploader.run ModelImageUploader.session
                 ModelImageUploader.initial)).
Proof.
  refine (proj1 (@model_preview_urls_accounted ModelImageUploader.session _)).
  repeat constructor; discriminate.
Defined.

End TemplateInstances.
